(** * The credit ledger of the AI Commenting Sidekick backend

    A shallow embedding of the parts of the backend that read and write
    [credit_purchases]: the two database functions of
    [complete-database-setup.sql], [decrement_credit], the request handlers
    [analyze] (in its optimistic-lock version and in its [use_credits]
    version), [analyze-batch], [credits], the Stripe webhook and the coupon
    endpoint; and of the request guards of [lib/security.js].

    Integers are values of [Z].  An [INTEGER] of the database holds the
    values up to [INTEGER_MAX]: where a database function computes a value
    that an [INTEGER] cannot hold, it raises.  Instants are [Z] (the handlers
    compare ISO strings, the database compares timestamps: both orders agree
    with the order on instants).  Row identifiers are natural numbers. *)

From Stdlib Require Import ZArith List Bool Lia String PeanoNat.
From Stdlib Require Import Sorted Permutation Ascii NArith.
From Stdlib Require Import DecimalString.
Import ListNotations.
Local Open Scope Z_scope.

Set Implicit Arguments.

(** ** Tables *)

Definition uuid := nat.
Bind Scope nat_scope with uuid.
Definition timestamp := Z.

(** [payment_status TEXT CHECK (payment_status IN ('pending','completed','failed'))] *)
Inductive payment_state := pending | completed | failed.

(** [purchase_type TEXT CHECK (purchase_type IN ('subscription','topup','one_time'))] *)
Inductive purchase_kind := kind_subscription | kind_topup | kind_one_time.

(** One row of [public.credit_purchases].  [amount_paid], [currency], the
    payment-intent reference and [updated_at] are provenance only and are
    left out.  The handlers test [expires_at] for null, so the column is an
    option here although the table declares it [NOT NULL]. *)
Module Purchase.
Record row := mk {
  id : uuid;
  user_id : uuid;
  subscription_id : option uuid;
  credits : Z;
  remaining_credits : Z;
  stripe_checkout_session_id : option string;
  purchase_type : purchase_kind;
  expires_at : option timestamp;
  payment_status : payment_state;
  created_at : timestamp
}.

(** [UPDATE ... SET remaining_credits = v] on one row. *)
Definition set_remaining (v : Z) (p : row) : row :=
  {| id := id p; user_id := user_id p; subscription_id := subscription_id p;
     credits := credits p; remaining_credits := v;
     stripe_checkout_session_id := stripe_checkout_session_id p;
     purchase_type := purchase_type p; expires_at := expires_at p;
     payment_status := payment_status p; created_at := created_at p |}.
End Purchase.

Abbreviation purchase := Purchase.row.
Abbreviation remaining_credits := Purchase.remaining_credits.
Abbreviation expires_at := Purchase.expires_at.
Abbreviation payment_status := Purchase.payment_status.
Abbreviation created_at := Purchase.created_at.

(** One row of [public.api_usage] (the text excerpts are left out). *)
Module Usage.
Record row := mk {
  user_id : uuid;
  purchase_id : option uuid;
  subscription_id : option uuid;
  credits_used : Z;
  api_key_used : bool
}.
End Usage.

(** ** Query filters *)

(** [.gt('expires_at', now)] and SQL [expires_at > NOW()]: a null never
    compares greater. *)
Definition gt_expires_at (now : timestamp) (p : purchase) : bool :=
  match expires_at p with
  | Some e => now <? e
  | None => false
  end.

(** [.or(`expires_at.is.null,expires_at.gt.${now}`)] *)
Definition expires_null_or_gt (now : timestamp) (p : purchase) : bool :=
  match expires_at p with
  | Some e => now <? e
  | None => true
  end.

Definition is_completed (p : purchase) : bool :=
  match payment_status p with
  | completed => true
  | _ => false
  end.

(** The filter of the handlers' credit queries:
    [.eq('user_id', uid).gt('remaining_credits', 0).or(expires_at null or > now)]. *)
Definition js_active (uid : uuid) (now : timestamp) (p : purchase) : bool :=
  (Purchase.user_id p =? uid)%nat && (0 <? remaining_credits p)
  && expires_null_or_gt now p.

(** The filter of [credits.js] and of the first check of [analyze]:
    [.eq('user_id', uid).gt('expires_at', now).gt('remaining_credits', 0)]. *)
Definition js_active_strict (uid : uuid) (now : timestamp) (p : purchase) : bool :=
  (Purchase.user_id p =? uid)%nat && gt_expires_at now p
  && (0 <? remaining_credits p).

(** The [WHERE] clause shared by [get_available_credits] and [use_credits]:
    [user_id = p_user_id AND expires_at > NOW() AND payment_status =
    'completed' AND remaining_credits > 0]. *)
Definition sql_active (uid : uuid) (now : timestamp) (p : purchase) : bool :=
  (Purchase.user_id p =? uid)%nat && gt_expires_at now p
  && is_completed p && (0 <? remaining_credits p).

(** [SUM(remaining_credits)], with [COALESCE(..., 0)] for no row. *)
Definition sum_remaining (rows : list purchase) : Z :=
  fold_right (fun p acc => remaining_credits p + acc) 0 rows.

(** [rows.reduce((sum, p) => sum + p.remaining_credits, 0)] *)
Definition reduce_remaining (rows : list purchase) : Z :=
  fold_left (fun sum p => sum + remaining_credits p) rows 0.

(** [ORDER BY created_at ASC]: a stable insertion sort, so that rows created
    at the same instant keep their table order. *)
Fixpoint insert_by_created_at (p : purchase) (l : list purchase) : list purchase :=
  match l with
  | [] => [p]
  | q :: r =>
      if created_at p <=? created_at q then p :: q :: r
      else q :: insert_by_created_at p r
  end.

Fixpoint order_by_created_at (l : list purchase) : list purchase :=
  match l with
  | [] => []
  | p :: r => insert_by_created_at p (order_by_created_at r)
  end.

(** [UPDATE credit_purchases SET remaining_credits = f(row) WHERE id = pid] *)
Definition update_by_id (pid : uuid) (f : purchase -> Z) (tbl : list purchase)
  : list purchase :=
  map (fun p => if (Purchase.id p =? pid)%nat
                then Purchase.set_remaining (f p) p else p) tbl.

(** ** The database functions of [complete-database-setup.sql] *)

(** How a call of a database function ends: with the value it returns, or
    with the SQLSTATE of the error it raises; what the call had written is
    then undone. *)
Inductive sql_outcome (A : Type) :=
| returned (a : A)
| raised (sqlstate : string).
Arguments returned {A} a.
Arguments raised {A} sqlstate.

(** The largest value of an [INTEGER]. *)
Definition INTEGER_MAX : Z := 2147483647.

(** [SELECT COALESCE(SUM(remaining_credits), 0) INTO v] for a variable [v]
    declared [INTEGER]: the sum is a [BIGINT], and the assignment raises
    22003 (numeric value out of range) when it is above [INTEGER_MAX].  The
    rows summed hold more than 0 each. *)
Definition sum_into_INTEGER (rows : list purchase) : sql_outcome Z :=
  if INTEGER_MAX <? sum_remaining rows then raised "22003"
  else returned (sum_remaining rows).

(** [get_available_credits(p_user_id)], evaluated at instant [now]. *)
Definition get_available_credits (tbl : list purchase) (p_user_id : uuid)
    (now : timestamp) : sql_outcome Z :=
  sum_into_INTEGER (filter (sql_active p_user_id now) tbl).

(** The row returned by [use_credits]. *)
Record use_credits_result := {
  success : bool;
  message : string;
  purchase_id : option uuid;
  subscription_id : option uuid
}.

(** [use_credits(p_user_id, p_credits_to_use, p_api_key_used)], evaluated at
    instant [now]: how the call ends and the table it leaves.

    The function [RETURNS TABLE(success, message, purchase_id,
    subscription_id)], so these four names are variables of its body.  The
    query of its [FOR] loop selects [subscription_id] without naming the
    table: the reference can be to the column or to the variable, and
    PL/pgSQL raises 42702 (ambiguous column) when the query is first run.
    So a call that gets past the two early returns raises, and the loop body
    with its two [UPDATE]s is never run; the function leaves the table as it
    was on every call. *)
Definition use_credits (tbl : list purchase) (p_user_id : uuid)
    (p_credits_to_use : Z) (p_api_key_used : bool) (now : timestamp)
  : sql_outcome use_credits_result * list purchase :=
  if p_api_key_used then
    (returned {| success := true; message := "Using own API key";
                 purchase_id := None; subscription_id := None |}, tbl)
  else
    match sum_into_INTEGER (filter (sql_active p_user_id now) tbl) with
    | raised sqlstate => (raised sqlstate, tbl)
    | returned v_total_available =>
        if v_total_available <? p_credits_to_use then
          (returned {| success := false; message := "Insufficient credits";
                       purchase_id := None; subscription_id := None |}, tbl)
        else (raised "42702", tbl)
    end.

(** ** The store client and the inference call as operations

    Every [await] of a handler is one operation: a round trip to the store
    or the call to the inference service.  A handler is a tree of
    operations; what runs between two operations is local to the request. *)

(** The [error] of a store reply: [PGRST116] is what [.single()] reports
    when the query does not yield exactly one row; [sql_error] carries the
    SQLSTATE of an error that a database function raised. *)
Inductive db_error := PGRST116 | store_unavailable | sql_error (sqlstate : string).

(** The [{ data, error }] object of a store reply. *)
Inductive reply (A : Type) :=
| data (a : A)
| error (e : db_error).
Arguments data {A} a.
Arguments error {A} e.

(** A chat completion: [choices[0].message.content], which can be [null]
    (a refusal, a tool call, a filtered reply), and [usage.total_tokens]. *)
Record completion := { content : option string; total_tokens : Z }.

(** The inference call either resolves, or rejects with an error whose
    [status] may be set (the 7 s timeout of [analyze] rejects without one).
    [Promise.all] over a batch resolves with one completion per image, or
    rejects as soon as one call does. *)
Inductive ai_reply :=
| resolved (results : nat -> completion)
| rejected (status : option nat).

(** The operations, each with the type of what it answers:
    - [new_Date]: [new Date().toISOString()];
    - [select_active], [select_active_strict]: the credit checks, which
      select the rows of [js_active] and of [js_active_strict];
    - [select_oldest]: the lookup of the purchase to charge, the first row of
      [js_active] by [created_at];
    - [update_if_unchanged]: the update of [analyze], conditioned on the id
      and on the value of [remaining_credits] read before;
    - [update_remaining]: the update of [analyze-batch], conditioned on the
      id alone;
    - [rpc_use_credits]: [.rpc('use_credits', ...)];
    - [insert_api_usage]: the insert of a usage row;
    - [select_recent], [count_usage]: the history queries of [credits.js];
    - [chat_completions n]: the [n] inference calls of a request. *)
Inductive op : Type -> Type :=
| new_Date : op timestamp
| select_active (uid : uuid) (now : timestamp) : op (reply (list purchase))
| select_active_strict (uid : uuid) (now : timestamp) : op (reply (list purchase))
| select_oldest (uid : uuid) (now : timestamp) : op (reply purchase)
| update_if_unchanged (pid : uuid) (expected newv : Z) : op (reply purchase)
| update_remaining (pid : uuid) (newv : Z) : op (option db_error)
| rpc_use_credits (uid : uuid) (n : Z) (api_key_used : bool)
    : op (reply (list use_credits_result))
| insert_api_usage (u : Usage.row) : op (option db_error)
| select_recent (uid : uuid) : op (reply (list purchase))
| count_usage (uid : uuid) : op (reply nat)
| chat_completions (n : nat) : op ai_reply.

(** A handler from some point on: its response, or its next operation and
    what follows the answer. *)
Inductive prog (A : Type) : Type :=
| Ret (a : A)
| Vis (X : Type) (o : op X) (k : X -> prog A).
Arguments Ret {A} a.
Arguments Vis {A X} o k.

Notation "x <- o ;; k" := (Vis o (fun x => k))
  (at level 61, o at next level, right associativity).

(** What the handlers do not control: the clock, whether a store round trip
    fails, what the inference service answers, and whether the 8.5 s timer
    of the request that awaits an operation fires before the operation
    answers, each indexed by the number of operations executed so far. *)
Record env := {
  clock : nat -> timestamp;
  store_fails : nat -> bool;
  openai : nat -> ai_reply;
  timer_fires : nat -> bool
}.

(** An executed operation with its result. *)
Inductive event := Event (X : Type) (o : op X) (x : X).
Arguments Event {X} o x.

Record world := {
  credit_purchases : list purchase;
  api_usage : list Usage.row;
  tick : nat;
  trace : list event
}.

(** [.eq('id', pid).eq('remaining_credits', expected)] *)
Definition cas_matches (pid : uuid) (expected : Z) (p : purchase) : bool :=
  (Purchase.id p =? pid)%nat && (remaining_credits p =? expected).

(** [.limit(1).single()] after [.order('created_at', { ascending: true })] *)
Definition oldest (rows : list purchase) : reply purchase :=
  match order_by_created_at rows with
  | p :: _ => data p
  | [] => error PGRST116
  end.

(** [.select().single()] on the rows an update returns. *)
Definition single (rows : list purchase) : reply purchase :=
  match rows with
  | [p] => data p
  | _ => error PGRST116
  end.

(** The result of an operation and the tables it leaves.  A round trip that
    fails leaves the tables as they are. *)
Definition exec_op (e : env) {X} (o : op X) (w : world)
  : X * list purchase * list Usage.row :=
  let tbl := credit_purchases w in
  let down := store_fails e (tick w) in
  match o in op X return X * list purchase * list Usage.row with
  | new_Date => (clock e (tick w), tbl, api_usage w)
  | select_active uid now =>
      (if down then error store_unavailable
       else data (filter (js_active uid now) tbl), tbl, api_usage w)
  | select_active_strict uid now =>
      (if down then error store_unavailable
       else data (filter (js_active_strict uid now) tbl), tbl, api_usage w)
  | select_oldest uid now =>
      (if down then error store_unavailable
       else oldest (filter (js_active uid now) tbl), tbl, api_usage w)
  | update_if_unchanged pid expected newv =>
      if down then (error store_unavailable, tbl, api_usage w)
      else
        (single (map (Purchase.set_remaining newv)
                     (filter (cas_matches pid expected) tbl)),
         map (fun p => if cas_matches pid expected p
                       then Purchase.set_remaining newv p else p) tbl,
         api_usage w)
  | update_remaining pid newv =>
      if down then (Some store_unavailable, tbl, api_usage w)
      else (None, update_by_id pid (fun _ => newv) tbl, api_usage w)
  | rpc_use_credits uid n key =>
      if down then (error store_unavailable, tbl, api_usage w)
      else
        match use_credits tbl uid n key (clock e (tick w)) with
        | (returned r, tbl') => (data [r], tbl', api_usage w)
        | (raised sqlstate, tbl') => (error (sql_error sqlstate), tbl', api_usage w)
        end
  | insert_api_usage u =>
      if down then (Some store_unavailable, tbl, api_usage w)
      else (None, tbl, api_usage w ++ [u])
  | select_recent uid =>
      (if down then error store_unavailable
       else data (firstn 10 (rev (order_by_created_at
                    (filter (fun p => (Purchase.user_id p =? uid)%nat) tbl)))),
       tbl, api_usage w)
  | count_usage uid =>
      (if down then error store_unavailable
       else data (List.length (filter (fun u => (Usage.user_id u =? uid)%nat)
                                 (api_usage w))),
       tbl, api_usage w)
  | chat_completions _ => (openai e (tick w), tbl, api_usage w)
  end.

Definition exec (e : env) {X} (o : op X) (w : world) : X * world :=
  let '(x, tbl, usage) := exec_op e o w in
  (x, {| credit_purchases := tbl; api_usage := usage;
         tick := S (tick w); trace := trace w ++ [Event o x] |}).

(** A request served alone: the operations run back to back. *)
Fixpoint run (e : env) {A} (p : prog A) (w : world) : A * world :=
  match p with
  | Ret a => (a, w)
  | Vis o k => let '(x, w') := exec e o w in run e (k x) w'
  end.

(** ** The request handlers

    The handlers are modelled from the point where the request has passed
    CORS, authentication, rate limiting and input validation: [uid] is the
    verified [user.id].  A [return res.status(...)] ends the tree; a block
    that can return early takes the rest of the handler as [k].  A method
    called on a reply text that is [null] throws; the [catch] of the handler
    answers that like an inference error without a status.  The tree of
    [analyze] is what its handler does; the 8.5 s timer set when the handler
    starts is added by [run_with_timer] below. *)

Record response := {
  status : nat;
  body_error : option string;
  body_credits : option Z
}.

Definition respond (code : nat) (msg : string) (c : option Z) : response :=
  {| status := code; body_error := Some msg; body_credits := c |}.

Definition respond_ok (c : option Z) : response :=
  {| status := 200; body_error := None; body_credits := c |}.

(** [!!userApiKey] *)
Definition truthy (userApiKey : option string) : bool :=
  match userApiKey with
  | None => false
  | Some EmptyString => false
  | Some _ => true
  end.

(** [error.status === code] *)
Definition status_is (error_status : option nat) (code : nat) : bool :=
  match error_status with
  | Some n => (n =? code)%nat
  | None => false
  end.

(** The [catch (error)] block shared by [analyze] and [analyze-batch]: the
    inference call is the operation of the [try] block that rejects. *)
Definition catch_block (error_status : option nat) : response :=
  if status_is error_status 429 then
    respond 429 "OpenAI rate limit exceeded. Please try again later." None
  else if status_is error_status 401 then
    respond 500 "Service temporarily unavailable" None
  else respond 500 "An error occurred processing your request" None.

(** [activePurchases ? activePurchases.reduce(...) : 0] *)
Definition available_of (r : reply (list purchase)) : Z :=
  match r with
  | data activePurchases => reduce_remaining activePurchases
  | error _ => 0
  end.

(** [checkError], [findError]: whether the reply carries an error. *)
Definition is_error {A} (r : reply A) : bool :=
  match r with
  | data _ => false
  | error _ => true
  end.

(** The credit check that [analyze] runs before the inference call. *)
Definition check_before_compute (isUsingOwnApiKey : bool) (uid : uuid)
    (k : prog response) : prog response :=
  if isUsingOwnApiKey then k
  else
    now <- new_Date ;;
    activePurchases <- select_active_strict uid now ;;
    let availableCredits := available_of activePurchases in
    if (availableCredits =? 0) || (availableCredits <? 1)
    then Ret (respond 402 "Insufficient credits" (Some 0))
    else k.

(** The [while (retries > 0 && !creditDeducted)] loop of [analyze].  It
    ends with the block-local [purchaseId] and [subscriptionId], which it
    hands to [k]. *)
Fixpoint deduct_with_retries (uid : uuid) (now : timestamp) (retries : nat)
    (k : option uuid -> option uuid -> prog response) : prog response :=
  match retries with
  | O => k None None
  | S retries' =>
      found <- select_oldest uid now ;;
      match found with
      | error _ => Ret (respond 402 "No valid credits found" None)
      | data creditPurchase =>
          creditResult <- update_if_unchanged (Purchase.id creditPurchase)
                            (remaining_credits creditPurchase)
                            (remaining_credits creditPurchase - 1) ;;
          match creditResult with
          | data _ =>
              k (Some (Purchase.id creditPurchase))
                (Purchase.subscription_id creditPurchase)
          | error _ =>
              if (1 <? retries)%nat
              then deduct_with_retries uid now retries' k
              else Ret (respond 500 "Failed to deduct credit - please try again"
                          None)
          end
      end
  end.

(** The last part of [analyze]: the usage row, the balance for the
    response, and the response.  The row is built with
    [aiResponse.substring(0, 200)], which throws on [null]. *)
Definition log_and_respond (uid : uuid) (purchaseId subscriptionId : option uuid)
    (aiResponse : option string) (isUsingOwnApiKey : bool) : prog response :=
  match aiResponse with
  | None => Ret (catch_block None)
  | Some _ =>
      logError <- insert_api_usage
                    {| Usage.user_id := uid; Usage.purchase_id := purchaseId;
                       Usage.subscription_id := subscriptionId;
                       Usage.credits_used := 1;
                       Usage.api_key_used := isUsingOwnApiKey |} ;;
      now <- new_Date ;;
      updatedPurchases <- select_active_strict uid now ;;
      Ret (respond_ok (Some (available_of updatedPurchases)))
  end.

(** [analyze], the version that deducts with an optimistic lock.  It logs
    [aiResponse.length] as soon as the inference call has resolved, which
    throws on [null].  The [purchaseId] and [subscriptionId] that the usage
    row is written from are declared before the [if (!isUsingOwnApiKey)]
    block; the block declares its own pair with [let], and the loop assigns
    that inner pair. *)
Definition analyze (userApiKey : option string) (uid : uuid) : prog response :=
  let isUsingOwnApiKey := truthy userApiKey in
  check_before_compute isUsingOwnApiKey uid (
    completion <- chat_completions 1 ;;
    match completion with
    | rejected error_status => Ret (catch_block error_status)
    | resolved results =>
        match content (results 0%nat) with
        | None => Ret (catch_block None)
        | Some aiResponse =>
            let purchaseId : option uuid := None in
            let subscriptionId : option uuid := None in
            if isUsingOwnApiKey
            then log_and_respond uid purchaseId subscriptionId
                   (Some aiResponse) isUsingOwnApiKey
            else
              now <- new_Date ;;
              activePurchases <- select_active uid now ;;
              let availableCredits := available_of activePurchases in
              if is_error activePurchases || (availableCredits <? 1)
              then Ret (respond 402
                     "Insufficient credits. Please add more credits to continue."
                     (Some availableCredits))
              else
                deduct_with_retries uid now 3
                  (fun inner_purchaseId inner_subscriptionId =>
                     log_and_respond uid purchaseId subscriptionId
                       (Some aiResponse) isUsingOwnApiKey)
        end
    end).

(** [analyze], the version that deducts through [use_credits].  It has no
    timer, and the first method it calls on the reply text is the
    [substring] of the usage row.  The text of its 500 response is taken
    from the failed reply; one text stands for all of them here. *)
Definition analyze_rpc (userApiKey : option string) (uid : uuid) : prog response :=
  let isUsingOwnApiKey := truthy userApiKey in
  check_before_compute isUsingOwnApiKey uid (
    completion <- chat_completions 1 ;;
    match completion with
    | rejected error_status => Ret (catch_block error_status)
    | resolved results =>
        let aiResponse := content (results 0%nat) in
        if isUsingOwnApiKey
        then log_and_respond uid None None aiResponse isUsingOwnApiKey
        else
          now <- new_Date ;;
          activePurchases <- select_active uid now ;;
          let availableCredits := available_of activePurchases in
          if is_error activePurchases || (availableCredits <? 1)
          then Ret (respond 402
                 "Insufficient credits. Please add more credits to continue."
                 (Some availableCredits))
          else
            creditResult <- rpc_use_credits uid 1 false ;;
            match creditResult with
            | data (r :: _) =>
                if success r
                then log_and_respond uid (purchase_id r) (subscription_id r)
                       aiResponse isUsingOwnApiKey
                else Ret (respond 500
                       "Failed to process credits. Please try again." None)
            | _ => Ret (respond 500
                       "Failed to process credits. Please try again." None)
            end
    end).

(** The usage rows that [analyze-batch] writes in one of its [for] loops,
    one per reply text listed: each row is built with
    [response.substring(0, 200)], which throws on [null]. *)
Fixpoint log_usage_rows (responses : list (option string)) (u : Usage.row)
    (k : prog response) : prog response :=
  match responses with
  | [] => k
  | None :: _ => Ret (catch_block None)
  | Some _ :: rest =>
      logError <- insert_api_usage u ;; log_usage_rows rest u k
  end.

(** The response of a loop that has used up its fuel.  No request gets it
    ([analyze_batch_fuel]): every iteration takes at least one credit off
    [creditsToDeduct]. *)
Definition out_of_fuel : response :=
  {| status := 0; body_error := None; body_credits := None |}.

(** [results[resultIndex].response] for the [creditsFromThisPurchase] rows
    of one purchase, [resultIndex] being [images.length - creditsToDeduct -
    creditsFromThisPurchase + i] once [creditsToDeduct] has been lowered. *)
Definition responses_charged (images_length : nat) (results : nat -> completion)
    (creditsToDeduct creditsFromThisPurchase : Z) : list (option string) :=
  map (fun i =>
         let resultIndex :=
           Z.of_nat images_length - creditsToDeduct - creditsFromThisPurchase
           + Z.of_nat i in
         content (results (Z.to_nat resultIndex)))
    (seq 0 (Z.to_nat creditsFromThisPurchase)).

(** The [while (creditsToDeduct > 0)] loop of [analyze-batch].  The loop has
    no counter of its own; [fuel] bounds its iterations. *)
Fixpoint deduct_batch (fuel : nat) (uid : uuid) (now : timestamp)
    (images_length : nat) (results : nat -> completion)
    (creditsToDeduct : Z) (k : prog response) : prog response :=
  if creditsToDeduct <=? 0 then k
  else
    match fuel with
    | O => Ret out_of_fuel
    | S fuel' =>
        found <- select_oldest uid now ;;
        match found with
        | error _ => Ret (respond 402 "Failed to deduct credits" None)
        | data creditPurchase =>
            let creditsFromThisPurchase :=
              Z.min creditsToDeduct (remaining_credits creditPurchase) in
            creditError <- update_remaining (Purchase.id creditPurchase)
                             (remaining_credits creditPurchase
                              - creditsFromThisPurchase) ;;
            match creditError with
            | Some _ => Ret (respond 500 "Failed to deduct credit" None)
            | None =>
                log_usage_rows
                  (responses_charged images_length results
                     (creditsToDeduct - creditsFromThisPurchase)
                     creditsFromThisPurchase)
                  {| Usage.user_id := uid;
                     Usage.purchase_id := Some (Purchase.id creditPurchase);
                     Usage.subscription_id :=
                       Purchase.subscription_id creditPurchase;
                     Usage.credits_used := 1;
                     Usage.api_key_used := false |}
                  (deduct_batch fuel' uid now images_length results
                     (creditsToDeduct - creditsFromThisPurchase) k)
            end
        end
    end.

(** [analyze-batch] for a batch of [images_length] images (between 1 and 4
    once validation has passed).  An inference call whose completion has no
    choice throws inside its promise, so [Promise.all] rejects; a
    completion whose text is [null] resolves. *)
Definition analyze_batch (images_length : nat) (userApiKey : option string)
    (uid : uuid) : prog response :=
  let isUsingOwnApiKey := truthy userApiKey in
  let charge :=
    results <- chat_completions images_length ;;
    match results with
    | rejected error_status => Ret (catch_block error_status)
    | resolved results =>
        if isUsingOwnApiKey
        then
          log_usage_rows
            (map (fun i => content (results i)) (seq 0 images_length))
            {| Usage.user_id := uid; Usage.purchase_id := None;
               Usage.subscription_id := None; Usage.credits_used := 0;
               Usage.api_key_used := true |}
            (Ret (respond_ok None))
        else
          now <- new_Date ;;
          deduct_batch images_length uid now images_length results
            (Z.of_nat images_length) (
            updatedPurchases <- select_active uid now ;;
            Ret (respond_ok (Some (available_of updatedPurchases))))
    end in
  if isUsingOwnApiKey then charge
  else
    now <- new_Date ;;
    activePurchases <- select_active uid now ;;
    let availableCredits := available_of activePurchases in
    if availableCredits <? Z.of_nat images_length
    then Ret (respond 402 "Insufficient credits" (Some availableCredits))
    else charge.

(** [handleGetCredits] of [credits.js].  A failed query is thrown and caught
    by the function's own [catch]. *)
Definition handleGetCredits (userId : uuid) : prog response :=
  now <- new_Date ;;
  activePurchases <- select_active_strict userId now ;;
  match activePurchases with
  | error _ => Ret (respond 500 "Failed to get credits" None)
  | data active =>
      allPurchases <- select_recent userId ;;
      match allPurchases with
      | error _ => Ret (respond 500 "Failed to get credits" None)
      | data _ =>
          totalUsage <- count_usage userId ;;
          let availableCredits :=
            if (0 <? List.length active)%nat then reduce_remaining active
            else 0 in
          Ret (respond_ok (Some availableCredits))
      end
  end.

(** ** The timer of [analyze]

    [analyze] sets a timer when it starts.  When the timer fires, which it
    can do while the handler awaits an operation, it answers 504 unless a
    response has been sent; the handler goes on, and the response it sends
    in the end is lost.  The handler sends its response after its last
    operation, so the client is answered 504 exactly when the timer has
    fired during one of the operations of the request. *)

Definition timeout_response : response :=
  respond 504 "Request timeout - please try again with a smaller image" None.

(** A request to [analyze] served alone; [fired] says whether the timer
    has fired so far. *)
Fixpoint run_with_timer (e : env) (fired : bool) (p : prog response) (w : world)
  : response * world :=
  match p with
  | Ret r => (if fired then timeout_response else r, w)
  | Vis o k =>
      let '(x, w') := exec e o w in
      run_with_timer e (fired || timer_fires e (tick w)) (k x) w'
  end.

(** Whether the timer fires during one of the operations from [w] to [w']. *)
Definition timer_fired (e : env) (w w' : world) : bool :=
  existsb (timer_fires e) (seq (tick w) (tick w' - tick w)).

(** ** Requests served at the same time

    Requests share nothing but the store.  One step lets one request
    perform its next operation; a schedule names, step by step, the request
    that moves. *)

Fixpoint set_nth {A} (i : nat) (a : A) (l : list A) : list A :=
  match l, i with
  | [], _ => []
  | _ :: r, O => a :: r
  | b :: r, S i' => b :: set_nth i' a r
  end.

Definition step (e : env) (i : nat) (pool : list (prog response)) (w : world)
  : list (prog response) * world :=
  match nth_error pool i with
  | Some (Vis o k) =>
      let '(x, w') := exec e o w in (set_nth i (k x) pool, w')
  | _ => (pool, w)
  end.

Fixpoint interleave (e : env) (schedule : list nat)
    (pool : list (prog response)) (w : world)
  : list (prog response) * world :=
  match schedule with
  | [] => (pool, w)
  | i :: rest => let '(pool', w') := step e i pool w in interleave e rest pool' w'
  end.

(** The response of a request that has finished. *)
Definition finished (p : prog response) : option response :=
  match p with
  | Ret r => Some r
  | Vis _ _ => None
  end.






(** A world with the given purchases and nothing else yet. *)
Definition initial (tbl : list purchase) : world :=
  {| credit_purchases := tbl; api_usage := []; tick := 0; trace := [] |}.

(** An environment where nothing fails, the clock stands at [t] and no
    timer fires. *)
Definition calm (t : timestamp) : env :=
  {| clock := fun _ => t;
     store_fails := fun _ => false;
     openai := fun _ =>
       resolved (fun _ => {| content := Some "ok"%string; total_tokens := 0 |});
     timer_fires := fun _ => false |}.

(** ** The Stripe webhook

    The webhook handlers run one event at a time against the tables below.
    They await every store call and look at the outcome of one only (the
    insert of the subscription row); a call that the store rejects changes
    nothing.  Some of their statements write a column, or a status, that
    the [subscriptions] table of [complete-database-setup.sql] does not
    have: [accepted] says whether the store that is deployed takes such a
    statement. *)

Inductive tier := free | pro.

Inductive subscription_status := active | past_due | cancelled | expired.

Module User.
Record row := mk {
  id : uuid;
  tier_of : tier;
  stripe_customer_id : option string
}.
End User.

Module Subscription.
Record row := mk {
  id : uuid;
  user_id : uuid;
  stripe_subscription_id : string;
  status : subscription_status;
  current_period_start : timestamp;
  current_period_end : timestamp;
  credits_per_period : Z
}.
End Subscription.

Module History.
Record row := mk {
  subscription_id : uuid;
  user_id : uuid;
  event_type : string;
  stripe_event_id : string
}.
End History.

Record db := {
  users : list User.row;
  subscriptions : list Subscription.row;
  purchases : list purchase;
  subscription_history : list History.row
}.


(** [uuid_generate_v4()]: an identifier that no row of the table has. *)
Definition fresh_uuid (used : list uuid) : uuid := S (list_max used).

Definition has_user (d : db) (uid : uuid) : bool :=
  existsb (fun u => (User.id u =? uid)%nat) (users d).

Definition has_subscription (d : db) (sid : uuid) : bool :=
  existsb (fun s => (Subscription.id s =? sid)%nat) (subscriptions d).

(** [.from('users').update(f).eq('id', uid)] *)
Definition update_user (uid : uuid) (f : User.row -> User.row) (d : db) : db :=
  {| users := map (fun u => if (User.id u =? uid)%nat then f u else u) (users d);
     subscriptions := subscriptions d;
     purchases := purchases d;
     subscription_history := subscription_history d |}.

Definition set_customer (c : option string) (u : User.row) : User.row :=
  {| User.id := User.id u; User.tier_of := User.tier_of u;
     User.stripe_customer_id := c |}.

Definition set_tier (t : tier) (u : User.row) : User.row :=
  {| User.id := User.id u; User.tier_of := t;
     User.stripe_customer_id := User.stripe_customer_id u |}.

(** [.from('subscriptions').insert([...]).select().single()].  The row
    carries a [remaining_credits] column, which the table does not have
    (error PGRST204 unless [accepted]); [stripe_customer_id] and
    [stripe_price_id] are [NOT NULL] (23502), [stripe_subscription_id] is
    [UNIQUE NOT NULL] (23505 when it is already there), and [user_id]
    references a user (23503). *)
Definition insert_subscription (d : db) (accepted : bool) (uid : uuid)
    (stripe_sub stripe_customer stripe_price : option string)
    (now period_end : timestamp) (credits : Z)
  : sql_outcome (Subscription.row * db) :=
  if negb accepted then raised "PGRST204"
  else
    match stripe_sub, stripe_customer, stripe_price with
    | Some ref, Some _, Some _ =>
        if existsb (fun s => String.eqb (Subscription.stripe_subscription_id s) ref)
             (subscriptions d)
        then raised "23505"
        else if negb (has_user d uid) then raised "23503"
        else
          let row :=
            {| Subscription.id := fresh_uuid (map Subscription.id (subscriptions d));
               Subscription.user_id := uid;
               Subscription.stripe_subscription_id := ref;
               Subscription.status := active;
               Subscription.current_period_start := now;
               Subscription.current_period_end := period_end;
               Subscription.credits_per_period := credits |} in
          returned (row,
                    {| users := users d;
                       subscriptions := subscriptions d ++ [row];
                       purchases := purchases d;
                       subscription_history := subscription_history d |})
    | _, _, _ => raised "23502"
    end.

(** [.from('credit_purchases').insert([...])] of a paid grant:
    [remaining_credits = credits], [payment_status = 'completed']. *)
Definition insert_purchase (d : db) (uid sid : uuid) (amount : Z)
    (checkout_session : option string) (kind : purchase_kind)
    (expires now : timestamp) : db :=
  if has_user d uid && has_subscription d sid then
    {| users := users d;
       subscriptions := subscriptions d;
       purchases := purchases d ++
         [ {| Purchase.id := fresh_uuid (map Purchase.id (purchases d));
              Purchase.user_id := uid;
              Purchase.subscription_id := Some sid;
              Purchase.credits := amount;
              Purchase.remaining_credits := amount;
              Purchase.stripe_checkout_session_id := checkout_session;
              Purchase.purchase_type := kind;
              Purchase.expires_at := Some expires;
              Purchase.payment_status := completed;
              Purchase.created_at := now |} ];
       subscription_history := subscription_history d |}
  else d.

(** [.from('subscription_history').insert([...])]: [stripe_event_id] is
    [UNIQUE]. *)
Definition insert_history (d : db) (sid uid : uuid) (event_type : string)
    (event_id : string) : db :=
  if existsb (fun h => String.eqb (History.stripe_event_id h) event_id)
       (subscription_history d)
     || negb (has_user d uid) || negb (has_subscription d sid)
  then d
  else
    {| users := users d;
       subscriptions := subscriptions d;
       purchases := purchases d;
       subscription_history := subscription_history d ++
         [ {| History.subscription_id := sid; History.user_id := uid;
              History.event_type := event_type;
              History.stripe_event_id := event_id |} ] |}.

(** The object of a [checkout.session.completed] event.  Its amount, its
    currency and its payment intent go into the purchase row as they are;
    the session of a completed checkout carries them. *)
Record session := {
  session_id : string;
  metadata_user_id : option uuid;
  metadata_purchase_type : string;
  metadata_credits : option Z;
  metadata_validity_days : option Z;
  session_customer : option string;
  session_customer_email : option string;
  session_subscription : option string
}.

(** [process.env] as the webhook reads it, already parsed. *)
Record settings := {
  PRO_CREDITS_PER_MONTH : Z;
  PRO_VALIDITY_DAYS : Z;
  TOPUP_CREDITS : Z;
  STRIPE_PRICE_ID : option string
}.

Definition or_default (v : option Z) (d : Z) : Z :=
  match v with
  | Some x => x
  | None => d
  end.

(** [.eq('user_id', uid).eq('status', 'active').single()] *)
Definition active_subscription (d : db) (uid : uuid) : option Subscription.row :=
  match filter (fun s => (Subscription.user_id s =? uid)%nat
                         && match Subscription.status s with
                            | active => true
                            | _ => false
                            end) (subscriptions d) with
  | [s] => Some s
  | _ => None
  end.

(** [session.customer], or the id of the customer created for
    [session.customer_email]. *)
Definition customer_of (created_customer : string) (s : session) : option string :=
  match session_customer s, session_customer_email s with
  | Some c, _ => Some c
  | None, Some _ => Some created_customer
  | None, None => None
  end.

(** [handleCheckoutCompleted(session)], run at instant [now];
    [created_customer] is the id that [stripe.customers.create] answers when
    the session names no customer; [accepted] is for the insert of the
    subscription row. *)
Definition handleCheckoutCompleted (cfg : settings) (now : timestamp)
    (created_customer : string) (accepted : bool) (s : session) (d : db) : db :=
  match metadata_user_id s with
  | None => d
  | Some userId =>
      let stripeCustomerId := customer_of created_customer s in
      let d := update_user userId (set_customer stripeCustomerId) d in
      if String.eqb (metadata_purchase_type s) "subscription" then
        let credits := or_default (metadata_credits s) (PRO_CREDITS_PER_MONTH cfg) in
        let validityDays :=
          or_default (metadata_validity_days s) (PRO_VALIDITY_DAYS cfg) in
        match insert_subscription d accepted userId (session_subscription s)
                stripeCustomerId (STRIPE_PRICE_ID cfg) now
                (now + validityDays * 24 * 60 * 60 * 1000) credits with
        | raised _ => d
        | returned (subscription, d) =>
            let d := insert_purchase d userId (Subscription.id subscription)
                       credits (Some (session_id s)) kind_subscription
                       (Subscription.current_period_end subscription) now in
            let d := update_user userId (set_tier pro) d in
            insert_history d (Subscription.id subscription) userId "created"
              (session_id s)
        end
      else if String.eqb (metadata_purchase_type s) "topup" then
        let topupCredits := or_default (metadata_credits s) (TOPUP_CREDITS cfg) in
        match active_subscription d userId with
        | None => d
        | Some activeSubscription =>
            insert_purchase d userId (Subscription.id activeSubscription)
              topupCredits (Some (session_id s)) kind_topup
              (Subscription.current_period_end activeSubscription) now
        end
      else d
  end.

(** The object of an [invoice.payment_succeeded] event. *)
Record invoice := {
  invoice_id : string;
  invoice_subscription : option string;
  billing_reason : string;
  period_end : timestamp
}.

(** Whether a subscription row already carries the Stripe reference. *)
Definition ref_taken (d : db) (ref : string) : bool :=
  existsb (fun s => String.eqb (Subscription.stripe_subscription_id s) ref)
    (subscriptions d).

(** Whether the store refuses the subscription row that a handler
    inserts: it does not take the row's columns, a value that must not be
    null is null, the Stripe reference is already there, or the user is
    not. *)
Definition subscription_refused (d : db) (accepted : bool) (uid : uuid)
    (stripe_sub stripe_customer stripe_price : option string) : bool :=
  negb accepted
  || match stripe_sub, stripe_customer, stripe_price with
     | Some ref, Some _, Some _ => ref_taken d ref || negb (has_user d uid)
     | _, _, _ => true
     end.

(** [.eq('stripe_subscription_id', ref).single()] *)
Definition subscription_by_ref (d : db) (ref : string) : option Subscription.row :=
  match filter (fun s => String.eqb (Subscription.stripe_subscription_id s) ref)
          (subscriptions d) with
  | [s] => Some s
  | _ => None
  end.

Definition set_status (st : subscription_status) (s : Subscription.row)
  : Subscription.row :=
  {| Subscription.id := Subscription.id s;
     Subscription.user_id := Subscription.user_id s;
     Subscription.stripe_subscription_id := Subscription.stripe_subscription_id s;
     Subscription.status := st;
     Subscription.current_period_start := Subscription.current_period_start s;
     Subscription.current_period_end := Subscription.current_period_end s;
     Subscription.credits_per_period := Subscription.credits_per_period s |}.

(** [.from('subscriptions').update({ status }).eq('id', sid)] *)
Definition update_subscription_status (sid : uuid) (st : subscription_status)
    (d : db) : db :=
  {| users := users d;
     subscriptions :=
       map (fun s => if (Subscription.id s =? sid)%nat then set_status st s else s)
         (subscriptions d);
     purchases := purchases d;
     subscription_history := subscription_history d |}.

(** [handleInvoicePaymentSucceeded(invoice)], run at instant [now].  The
    invoice's [period_end] is in seconds.  The update that sets the status
    also writes [remaining_credits]: [accepted] is for that update. *)
Definition handleInvoicePaymentSucceeded (accepted : bool) (now : timestamp)
    (i : invoice) (d : db) : db :=
  match invoice_subscription i with
  | None => d
  | Some ref =>
      match subscription_by_ref d ref with
      | None => d
      | Some subscription =>
          if String.eqb (billing_reason i) "subscription_cycle" then
            let d :=
              if accepted
              then update_subscription_status (Subscription.id subscription)
                     active d
              else d in
            let d := insert_purchase d (Subscription.user_id subscription)
                       (Subscription.id subscription)
                       (Subscription.credits_per_period subscription) None
                       kind_subscription (period_end i * 1000) now in
            insert_history d (Subscription.id subscription)
              (Subscription.user_id subscription) "renewed" (invoice_id i)
          else d
      end
  end.

(** ** Reading a run

    The trace of a world lists the operations executed, in order.  The
    classifiers below say what kind of operation an event is and how it
    ended. *)

Inductive op_kind :=
| k_clock          (* new Date() *)
| k_check          (* the credit check with the null-or-later filter *)
| k_check_strict   (* the credit check with the later-only filter *)
| k_lookup         (* the oldest active purchase *)
| k_cas            (* the conditional update of analyze *)
| k_update         (* the update of analyze-batch *)
| k_rpc            (* the call of use_credits *)
| k_log            (* the insert into api_usage *)
| k_recent
| k_count
| k_compute.       (* the inference call *)

Definition kind_of {X} (o : op X) : op_kind :=
  match o with
  | new_Date => k_clock
  | select_active _ _ => k_check
  | select_active_strict _ _ => k_check_strict
  | select_oldest _ _ => k_lookup
  | update_if_unchanged _ _ _ => k_cas
  | update_remaining _ _ => k_update
  | rpc_use_credits _ _ _ => k_rpc
  | insert_api_usage _ => k_log
  | select_recent _ => k_recent
  | count_usage _ => k_count
  | chat_completions _ => k_compute
  end.

Definition kind_eqb (a b : op_kind) : bool :=
  match a, b with
  | k_clock, k_clock | k_check, k_check | k_check_strict, k_check_strict
  | k_lookup, k_lookup | k_cas, k_cas | k_update, k_update | k_rpc, k_rpc
  | k_log, k_log | k_recent, k_recent | k_count, k_count
  | k_compute, k_compute => true
  | _, _ => false
  end.

(** The operations that can change [credit_purchases]. *)
Definition writes_purchases (k : op_kind) : bool :=
  match k with
  | k_cas | k_update | k_rpc => true
  | _ => false
  end.

Definition is_some {A} (o : option A) : bool :=
  match o with
  | Some _ => true
  | None => false
  end.

(** The operation ended with an error (for the inference call: it
    rejected). *)
Definition result_failed {X} (o : op X) : X -> bool :=
  match o in op X return X -> bool with
  | new_Date => fun _ => false
  | select_active _ _ => is_error
  | select_active_strict _ _ => is_error
  | select_oldest _ _ => is_error
  | update_if_unchanged _ _ _ => is_error
  | update_remaining _ _ => is_some
  | rpc_use_credits _ _ _ => is_error
  | insert_api_usage _ => is_some
  | select_recent _ => is_error
  | count_usage _ => is_error
  | chat_completions _ =>
      fun r => match r with
               | rejected _ => true
               | resolved _ => false
               end
  end.

Definition is_down {A} (r : reply A) : bool :=
  match r with
  | error store_unavailable => true
  | _ => false
  end.

(** The operation ended with the store unavailable. *)
Definition result_down {X} (o : op X) : X -> bool :=
  match o in op X return X -> bool with
  | new_Date => fun _ => false
  | select_active _ _ => is_down
  | select_active_strict _ _ => is_down
  | select_oldest _ _ => is_down
  | update_if_unchanged _ _ _ => is_down
  | update_remaining _ _ =>
      fun r => match r with
               | Some store_unavailable => true
               | _ => false
               end
  | rpc_use_credits _ _ _ => is_down
  | insert_api_usage _ =>
      fun r => match r with
               | Some store_unavailable => true
               | _ => false
               end
  | select_recent _ => is_down
  | count_usage _ => is_down
  | chat_completions _ => fun _ => false
  end.

Definition event_kind (ev : event) : op_kind :=
  match ev with
  | Event o _ => kind_of o
  end.

Definition event_failed (ev : event) : bool :=
  match ev with
  | Event o x => result_failed o x
  end.

Definition event_down (ev : event) : bool :=
  match ev with
  | Event o x => result_down o x
  end.

Definition is_write (ev : event) : bool := writes_purchases (event_kind ev).

Definition compute_resolved (ev : event) : bool :=
  kind_eqb (event_kind ev) k_compute && negb (event_failed ev).

Definition compute_rejected (ev : event) : bool :=
  kind_eqb (event_kind ev) k_compute && event_failed ev.

(** Every write to [credit_purchases] in [t] comes after an inference call
    that resolved; [computed] says whether one came before [t]. *)
Fixpoint writes_follow_compute (computed : bool) (t : list event) : bool :=
  match t with
  | [] => true
  | ev :: rest =>
      (negb (is_write ev) || computed)
      && writes_follow_compute (computed || compute_resolved ev) rest
  end.

(** The number of events of [t] that [f] selects. *)
Definition count_events (f : event -> bool) (t : list event) : nat :=
  List.length (filter f t).

(** ** Properties of all the paths of a handler

    A monitor reads the events of a path one by one from a state [s]; it
    stops with [None] at an event it forbids.  [on_all_paths] says that the
    monitor forbids no event on any path of a handler and that, where a path
    ends, [accept] holds of the monitor's state and the response.  The
    results an operation can have are those [possible] allows. *)

Fixpoint observe {S} (watch : S -> event -> option S) (s : S) (t : list event)
  : option S :=
  match t with
  | [] => Some s
  | ev :: rest =>
      match watch s ev with
      | Some s' => observe watch s' rest
      | None => None
      end
  end.

Fixpoint on_all_paths {S} (possible : forall X, op X -> X -> Prop)
    (watch : S -> event -> option S) (accept : S -> response -> Prop)
    (s : S) (p : prog response) : Prop :=
  match p with
  | Ret r => accept s r
  | Vis o k =>
      forall x, possible _ o x ->
        match watch s (Event o x) with
        | Some s' => on_all_paths possible watch accept s' (k x)
        | None => False
        end
  end.

Definition anything : forall X, op X -> X -> Prop := fun _ _ _ => True.

(** The events that a run from [w] to [w'] has added to the trace. *)
Definition new_events (w w' : world) : list event :=
  skipn (List.length (trace w)) (trace w').

(** The monitor of the order between the inference call and the writes: a
    write is allowed once the call has resolved, and the call is made once. *)
Record compute_seen := {
  resolved_before : bool;
  rejected_before : bool
}.

Definition not_yet : compute_seen :=
  {| resolved_before := false; rejected_before := false |}.

Definition watch_compute (s : compute_seen) (ev : event) : option compute_seen :=
  if is_write ev then
    if resolved_before s && negb (rejected_before s) then Some s else None
  else if kind_eqb (event_kind ev) k_compute then
    if resolved_before s || rejected_before s then None
    else Some {| resolved_before := negb (event_failed ev);
                 rejected_before := event_failed ev |}
  else Some s.

Definition computed : compute_seen :=
  {| resolved_before := true; rejected_before := false |}.

(** The monitor that records the kinds of the operations of a path. *)
Definition watch_kinds (s : list op_kind) (ev : event) : option (list op_kind) :=
  Some (s ++ [event_kind ev]).

(** The operations of a request paid with the caller's own key, in
    [analyze]: the inference call alone when it rejects; otherwise the
    inference call, the usage row, and the balance read for the response. *)
Definition own_key_kinds (ks : list op_kind) : Prop :=
  ks = [k_compute] \/ ks = [k_compute; k_log; k_clock; k_check_strict].

(** The same for [analyze-batch] with [n] images: the inference calls and
    then usage rows only, one per image, fewer when the calls reject or a
    reply text is [null]. *)
Definition own_key_batch_kinds (n : nat) (ks : list op_kind) : Prop :=
  exists rows, (rows <= n)%nat /\ ks = k_compute :: repeat k_log rows.

(** The monitor of failures: whether an event selected by [to402] has
    occurred, and how many events selected by [to500] have. *)
Record failures_seen := {
  seen_402 : bool;
  seen_500 : nat
}.

Definition no_failure : failures_seen := {| seen_402 := false; seen_500 := 0 |}.

Definition watch_failures (to402 to500 : event -> bool) (s : failures_seen)
    (ev : event) : option failures_seen :=
  Some {| seen_402 := seen_402 s || to402 ev;
          seen_500 := seen_500 s + (if to500 ev then 1 else 0) |}.

Definition failures_answered (threshold : nat) (s : failures_seen)
    (r : response) : Prop :=
  (seen_402 s = true -> status r = 402%nat)
  /\ ((threshold <= seen_500 s)%nat -> status r = 500%nat).

(** A write to [credit_purchases] that came back with an error. *)
Definition failed_write (ev : event) : bool := is_write ev && event_failed ev.

(** The credit check after the inference call, or the lookup of the
    purchase to charge, with the store unavailable. *)
Definition check_down (ev : event) : bool :=
  (kind_eqb (event_kind ev) k_check || kind_eqb (event_kind ev) k_lookup)
  && event_down ev.

(** The lookup of the purchase to charge, with the store unavailable. *)
Definition lookup_down (ev : event) : bool :=
  kind_eqb (event_kind ev) k_lookup && event_down ev.

(** A query of [handleGetCredits] on [credit_purchases] that came back with
    an error. *)
Definition balance_read_failed (ev : event) : bool :=
  (kind_eqb (event_kind ev) k_check_strict || kind_eqb (event_kind ev) k_recent)
  && event_failed ev.

Definition nothing (ev : event) : bool := false.

(** [p] was created no later than [q]. *)
Definition older_or_same (p q : purchase) : Prop := created_at p <= created_at q.

(** [m] is a row of [tbl] that [act] selects, and no selected row of [tbl]
    was created before it. *)
Definition oldest_active (act : purchase -> bool) (m : purchase)
    (tbl : list purchase) : Prop :=
  In m tbl /\ act m = true
  /\ forall q, In q tbl -> act q = true -> created_at m <= created_at q.

(** ** What a FIFO deduction leaves

    [remaining_of tbl pid] is the [remaining_credits] of the row [pid] (0
    when the table has no such row). *)
Fixpoint remaining_of (tbl : list purchase) (pid : uuid) : Z :=
  match tbl with
  | [] => 0
  | p :: rest =>
      if (Purchase.id p =? pid)%nat then remaining_credits p
      else remaining_of rest pid
  end.

(** [tbl'] is [tbl] after [n] credits have been taken, oldest first, from
    the rows that [act] selects: the rows are the same but for
    [remaining_credits]; [n] credits are gone in total; a row that [act]
    does not select keeps its credits; a selected row keeps between 0 and
    what it had; and a selected row has lost credits only if every selected
    row created before it is down to 0. *)
Record fifo_consumed (act : purchase -> bool) (n : Z) (tbl tbl' : list purchase)
  : Prop := {
  same_rows :
    map (Purchase.set_remaining 0) tbl' = map (Purchase.set_remaining 0) tbl;
  total_taken : sum_remaining tbl' = sum_remaining tbl - n;
  others_kept :
    forall p, In p tbl -> act p = false ->
      remaining_of tbl' (Purchase.id p) = remaining_credits p;
  within_bounds :
    forall p, In p tbl -> act p = true ->
      0 <= remaining_of tbl' (Purchase.id p) <= remaining_credits p;
  oldest_first :
    forall p q, In p tbl -> In q tbl -> act p = true -> act q = true ->
      created_at p < created_at q ->
      remaining_of tbl' (Purchase.id q) < remaining_credits q ->
      remaining_of tbl' (Purchase.id p) = 0
}.

(** The deduction crosses from one purchase to the next: when the selected
    rows are [P1] and the younger [P2], and [n] is more than [P1] holds and
    no more than both hold, [P1] is left with 0 and [P2] with what it had
    less the rest of [n]. *)
Definition boundary_crossed (act : purchase -> bool) (n : Z)
    (tbl tbl' : list purchase) : Prop :=
  forall P1 P2,
    In P1 tbl -> In P2 tbl -> act P1 = true -> act P2 = true ->
    (forall p, In p tbl -> act p = true -> p = P1 \/ p = P2) ->
    created_at P1 < created_at P2 ->
    remaining_credits P1 < n <= remaining_credits P1 + remaining_credits P2 ->
    remaining_of tbl' (Purchase.id P1) = 0
    /\ remaining_of tbl' (Purchase.id P2)
       = remaining_credits P2 - (n - remaining_credits P1).

(** ** Credits charged under an optimistic lock *)










(** The requests of a pool whose handler has ended with its 200 response. *)
Definition successes (pool : list (prog response)) : nat :=
  List.length
    (filter (fun p => match finished p with
                      | Some r => (status r =? 200)%nat
                      | None => false
                      end) pool).





(** What the lookup of the oldest active purchase can answer, whatever the
    table: a row that holds credits. *)
Definition lookup_positive : forall X, op X -> X -> Prop :=
  fun X o =>
    match o in op X return X -> Prop with
    | select_oldest uid now =>
        fun r => match r with
                 | data p => 0 < remaining_credits p
                 | error _ => True
                 end
    | _ => fun _ => True
    end.

(** The monitor that allows every event. *)
Definition watch_all (s : unit) (ev : event) : option unit := Some tt.

Definition not_out_of_fuel (s : unit) (r : response) : Prop :=
  status r <> 0%nat.

(** ** [decrement_credit] of [sql/decrement_credit.sql] *)

Record decrement_result := {
  decrement_success : bool;
  decrement_remaining : option Z;
  amount_deducted : option Z;
  decrement_error : option string
}.

(** [decrement_credit(purchase_id, amount)], for an [amount] that is not
    [NULL]: the object it returns and the table it leaves.  Whatever the
    block raises is caught by the function's own handler, which undoes what
    the block did and returns the text of the error: the exception that the
    function raises itself, or the overflow of [remaining_credits - amount],
    which an [INTEGER] cannot hold when [amount] is far enough below 0. *)
Definition decrement_credit (tbl : list purchase) (purchase_id : uuid)
    (amount : Z) : decrement_result * list purchase :=
  let failure (SQLERRM : string) :=
    ({| decrement_success := false; decrement_remaining := None;
        amount_deducted := None; decrement_error := Some SQLERRM |}, tbl) in
  match find (fun p => (Purchase.id p =? purchase_id)%nat) tbl with
  | None => failure "Insufficient credits"%string
  | Some row =>
      let current_credits := remaining_credits row in
      if current_credits <? amount then failure "Insufficient credits"%string
      else if INTEGER_MAX <? current_credits - amount
      then failure "integer out of range"%string
      else
        ({| decrement_success := true;
            decrement_remaining := Some (current_credits - amount);
            amount_deducted := Some amount;
            decrement_error := None |},
         update_by_id purchase_id (fun p => remaining_credits p - amount) tbl)
  end.

(** ** Requests that go through [use_credits] *)

(** What a call of [use_credits] that is not for the caller's own key can
    answer: no row that reports success. *)
Definition rpc_refuses : forall X, op X -> X -> Prop :=
  fun X o =>
    match o in op X return X -> Prop with
    | rpc_use_credits _ _ key =>
        fun r => match r with
                 | data (result :: _) => key = false -> success result = false
                 | _ => True
                 end
    | _ => fun _ => True
    end.

(** The monitor of a request that neither changes a purchase nor writes a
    usage row: it allows the reads, the inference call and the calls of
    [use_credits] that are not for the caller's own key. *)
Definition watch_unserved (s : unit) (ev : event) : option unit :=
  match ev with
  | Event o x =>
      match o with
      | update_if_unchanged _ _ _ | update_remaining _ _ | insert_api_usage _ =>
          None
      | rpc_use_credits _ _ key => if key then None else Some tt
      | _ => Some tt
      end
  end.

(** A request that keeps to [watch_unserved] on every path from here and
    does not end with a 200 response. *)
Definition unserved (p : prog response) : Prop :=
  on_all_paths rpc_refuses watch_unserved (fun _ r => status r <> 200%nat) tt p.

(** ** What a request served alone leaves *)

(** A usage row of [uid] that counts one credit, paid from a purchase of
    [tbl] that the deduction at [now] selects, and that names the purchase
    and its subscription. *)
Definition charged_to (uid : uuid) (now : timestamp) (tbl : list purchase)
    (u : Usage.row) : Prop :=
  Usage.user_id u = uid /\ Usage.credits_used u = 1
  /\ Usage.api_key_used u = false
  /\ exists p, In p tbl /\ js_active uid now p = true
               /\ Usage.purchase_id u = Some (Purchase.id p)
               /\ Usage.subscription_id u = Purchase.subscription_id p.


(** ** The other events of the Stripe webhook *)

(** The object of a [customer.subscription.*] event; the period bounds are
    in seconds. *)
Record stripe_subscription := {
  stripe_id : string;
  stripe_status : string;
  stripe_period_start : Z;
  stripe_period_end : Z
}.

(** [subscription.status === 'active' ? 'active' : ... : 'expired'] *)
Definition mapped_status (s : string) : subscription_status :=
  if String.eqb s "active" then active
  else if String.eqb s "past_due" then past_due
  else if String.eqb s "canceled" then cancelled
  else expired.

Definition set_period (st : subscription_status) (period_start period_end : timestamp)
    (s : Subscription.row) : Subscription.row :=
  {| Subscription.id := Subscription.id s;
     Subscription.user_id := Subscription.user_id s;
     Subscription.stripe_subscription_id := Subscription.stripe_subscription_id s;
     Subscription.status := st;
     Subscription.current_period_start := period_start;
     Subscription.current_period_end := period_end;
     Subscription.credits_per_period := Subscription.credits_per_period s |}.

(** [.from('subscriptions').update(f).eq('stripe_subscription_id', ref)] *)
Definition update_subscription_by_ref (ref : string)
    (f : Subscription.row -> Subscription.row) (d : db) : db :=
  {| users := users d;
     subscriptions :=
       map (fun s => if String.eqb (Subscription.stripe_subscription_id s) ref
                     then f s else s) (subscriptions d);
     purchases := purchases d;
     subscription_history := subscription_history d |}.

(** [handleSubscriptionUpdate(subscription)].  Its update also writes
    [cancel_at_period_end], and the status it writes can be ['cancelled'] or
    ['expired']; the table of [complete-database-setup.sql] has no such
    column and checks the status against another list.  [accepted] is for
    that update; the handler does not look at the outcome. *)
Definition handleSubscriptionUpdate (accepted : bool)
    (subscription : stripe_subscription) (d : db) : db :=
  match subscription_by_ref d (stripe_id subscription) with
  | None => d
  | Some existingSubscription =>
      let status := mapped_status (stripe_status subscription) in
      let d :=
        if accepted then
          update_subscription_by_ref (stripe_id subscription)
            (set_period status (stripe_period_start subscription * 1000)
               (stripe_period_end subscription * 1000)) d
        else d in
      insert_history d (Subscription.id existingSubscription)
        (Subscription.user_id existingSubscription) "updated"
        (stripe_id subscription)
  end.

(** [handleSubscriptionDeleted(subscription)]; [accepted] as above, for the
    status ['cancelled']. *)
Definition handleSubscriptionDeleted (accepted : bool)
    (subscription : stripe_subscription) (d : db) : db :=
  match subscription_by_ref d (stripe_id subscription) with
  | None => d
  | Some existingSubscription =>
      let d :=
        if accepted then
          update_subscription_by_ref (stripe_id subscription)
            (set_status cancelled) d
        else d in
      let d := update_user (Subscription.user_id existingSubscription)
                 (set_tier free) d in
      insert_history d (Subscription.id existingSubscription)
        (Subscription.user_id existingSubscription) "cancelled"
        (stripe_id subscription)
  end.

(** [handleInvoicePaymentFailed(invoice)] *)
Definition handleInvoicePaymentFailed (i : invoice) (d : db) : db :=
  match invoice_subscription i with
  | None => d
  | Some ref =>
      match subscription_by_ref d ref with
      | None => d
      | Some subscription =>
          update_subscription_status (Subscription.id subscription) past_due d
      end
  end.

(** A verified event: its [type] with its [data.object]. *)
Inductive stripe_event :=
| checkout_session_completed (s : session)
| customer_subscription_created (s : stripe_subscription)
| customer_subscription_updated (s : stripe_subscription)
| customer_subscription_deleted (s : stripe_subscription)
| invoice_payment_succeeded (i : invoice)
| invoice_payment_failed (i : invoice)
| unhandled_event (type : string).

(** The [switch (event.type)] of the webhook, run at instant [now]. *)
Definition webhook (cfg : settings) (now : timestamp) (created_customer : string)
    (accepted : bool) (ev : stripe_event) (d : db) : db :=
  match ev with
  | checkout_session_completed s =>
      handleCheckoutCompleted cfg now created_customer accepted s d
  | customer_subscription_created s | customer_subscription_updated s =>
      handleSubscriptionUpdate accepted s d
  | customer_subscription_deleted s => handleSubscriptionDeleted accepted s d
  | invoice_payment_succeeded i => handleInvoicePaymentSucceeded accepted now i d
  | invoice_payment_failed i => handleInvoicePaymentFailed i d
  | unhandled_event _ => d
  end.

(** The events of a list, delivered in order: each with the instant it is
    handled at, the customer id that Stripe would create for it and
    whether the store takes the statement of its handler that goes beyond
    the tables of [complete-database-setup.sql]. *)
Fixpoint deliver (cfg : settings)
    (events : list (timestamp * string * bool * stripe_event)) (d : db) : db :=
  match events with
  | [] => d
  | (now, created_customer, accepted, ev) :: rest =>
      deliver cfg rest (webhook cfg now created_customer accepted ev d)
  end.

(** A purchase as the webhook grants it: nothing used, paid, with an
    expiry. *)
Definition granted (p : purchase) : Prop :=
  remaining_credits p = Purchase.credits p
  /\ payment_status p = completed
  /\ expires_at p <> None.

(** [after] is [before] with nothing or one granted row, of a new id,
    appended. *)
Definition appended (before after : list purchase) : Prop :=
  exists added,
    after = before ++ added /\ (List.length added <= 1)%nat
    /\ Forall (fun p => granted p
                        /\ ~ In (Purchase.id p) (map Purchase.id before)) added.

(** The event is one of the two that can grant credits. *)
Definition grants_credits (ev : stripe_event) : bool :=
  match ev with
  | checkout_session_completed _ | invoice_payment_succeeded _ => true
  | _ => false
  end.

(** ** Coupon redemption

    The handler of the coupon endpoint, from the point where the request
    has passed the method check and the user is verified.  It reads the
    clock several times; [clock i] is its reading number [i].
    [toUpperCase] is the string method.  [fails i] is the [code] of the
    error that the store call number [i] of the request comes back with for
    a reason that the tables here do not show, if it does: the store is
    unavailable, the user row lacks its email, the subscription row carries
    a [remaining_credits] column that the table does not have.  The calls
    are numbered: 0 the
    lookup of the user, 1 the insert of the user, 2 the check for a running
    subscription, 3 the insert of the subscription, 4 the insert of the
    purchase, 5 the update of the tier, 6 the insert of the history row. *)

(** ['COUPON_SUB_' + Date.now()] and the like. *)
Definition stamped (prefix : string) (stamp : Z) : string :=
  (prefix ++ NilZero.string_of_int (Z.to_int stamp))%string.

(** [.eq('user_id', uid).eq('status', 'active').gt('current_period_end',
    now).single()] *)
Definition unexpired_subscription (d : db) (uid : uuid) (now : timestamp)
  : option Subscription.row :=
  match filter (fun s => (Subscription.user_id s =? uid)%nat
                         && match Subscription.status s with
                            | active => true
                            | _ => false
                            end
                         && (now <? Subscription.current_period_end s))
          (subscriptions d) with
  | [s] => Some s
  | _ => None
  end.

(** [.from('users').insert([{ id, email, tier: 'free' }])] *)
Definition insert_user (d : db) (uid : uuid) : db :=
  {| users := users d ++ [ {| User.id := uid; User.tier_of := free;
                              User.stripe_customer_id := None |} ];
     subscriptions := subscriptions d;
     purchases := purchases d;
     subscription_history := subscription_history d |}.

(** The [catch] block of the coupon handler, for an error thrown with the
    given [code]. *)
Definition coupon_catch (code : string) : response :=
  if String.eqb code "23505"
  then respond 400 "You have already redeemed this coupon" None
  else respond 500 "Failed to redeem coupon. Please try again." None.

Definition redeem_coupon (toUpperCase : string -> string)
    (TEST_COUPON : option string) (cfg : settings) (clock : nat -> timestamp)
    (fails : nat -> option string)
    (coupon_code : option string) (userId : uuid) (d : db) : response * db :=
  match coupon_code with
  | None | Some EmptyString => (respond 400 "Coupon code required" None, d)
  | Some code =>
      let existingUser := has_user d userId && negb (is_some (fails 0%nat)) in
      if negb existingUser && (is_some (fails 1%nat) || has_user d userId)
      then (respond 500 "Failed to create user profile" None, d)
      else
        let d := if existingUser then d else insert_user d userId in
        match TEST_COUPON with
        | None | Some EmptyString =>
            (respond 404 "Coupon system not configured" None, d)
        | Some test =>
            if negb (String.eqb (toUpperCase code) (toUpperCase test))
            then (respond 404 "Invalid coupon code" None, d)
            else
              let existingSubscription :=
                if is_some (fails 2%nat) then None
                else unexpired_subscription d userId (clock 0%nat) in
              match existingSubscription with
              | Some _ =>
                  (respond 400 "You already have an active Pro subscription"
                     None, d)
              | None =>
                  let currentPeriodStart := clock 1%nat in
                  let currentPeriodEnd :=
                    clock 2%nat
                    + PRO_VALIDITY_DAYS cfg * 24 * 60 * 60 * 1000 in
                  match fails 3%nat with
                  | Some code => (coupon_catch code, d)
                  | None =>
                  match insert_subscription d true userId
                          (Some (stamped "COUPON_SUB_" (clock 3%nat)))
                          (Some "COUPON_CUSTOMER"%string)
                          (Some "COUPON_PRICE"%string)
                          currentPeriodStart currentPeriodEnd
                          (PRO_CREDITS_PER_MONTH cfg) with
                  | raised code => (coupon_catch code, d)
                  | returned (subscription, d) =>
                      match fails 4%nat with
                      | Some code => (coupon_catch code, d)
                      | None =>
                      if negb (has_user d userId
                               && has_subscription d
                                    (Subscription.id subscription))
                      then (coupon_catch "23503", d)
                      else
                        let d :=
                          insert_purchase d userId (Subscription.id subscription)
                            (PRO_CREDITS_PER_MONTH cfg)
                            (Some (stamped "COUPON_SESSION_" (clock 5%nat)))
                            kind_subscription currentPeriodEnd (clock 6%nat) in
                        let d :=
                          if is_some (fails 5%nat) then d
                          else update_user userId (set_tier pro) d in
                        let d :=
                          if is_some (fails 6%nat) then d
                          else
                            insert_history d (Subscription.id subscription)
                              userId "created"
                              (stamped "COUPON_REDEEM_" (clock 7%nat)) in
                        (respond_ok (Some (PRO_CREDITS_PER_MONTH cfg)), d)
                      end
                  end
                  end
              end
        end
  end.

(** ** The request guards of [lib/security.js]

    A JavaScript string is the list of its UTF-16 code units; the texts the
    guards compare with are ASCII. *)

Definition js_string := list N.

Definition units (s : string) : js_string :=
  map N_of_ascii (list_ascii_of_string s).

(** [s.startsWith(prefix)] *)
Fixpoint starts_with (prefix s : js_string) : bool :=
  match prefix, s with
  | [], _ => true
  | _ :: _, [] => false
  | c :: p, d :: r => (c =? d)%N && starts_with p r
  end.

(** [s.includes(key)] *)
Fixpoint includes (key s : js_string) : bool :=
  starts_with key s
  || match s with
     | [] => false
     | _ :: r => includes key r
     end.

(** [s.split(sep)] for a separator of one code unit. *)
Fixpoint split (sep : N) (s : js_string) : list js_string :=
  match s with
  | [] => [[]]
  | c :: r =>
      if (c =? sep)%N then [] :: split sep r
      else match split sep r with
           | x :: xs => (c :: x) :: xs
           | [] => [[c]]
           end
  end.

(** [rateLimitStore]: a [Map] from keys to the instants of the requests
    counted so far, in insertion order. *)
Definition rate_store := list (string * list Z).

(** [rateLimitStore.get(key)] *)
Fixpoint store_get (key : string) (m : rate_store) : option (list Z) :=
  match m with
  | [] => None
  | (k, v) :: r => if String.eqb k key then Some v else store_get key r
  end.

(** [rateLimitStore.set(key, v)] *)
Fixpoint store_set (key : string) (v : list Z) (m : rate_store) : rate_store :=
  match m with
  | [] => [(key, v)]
  | (k, v0) :: r =>
      if String.eqb k key then (k, v) :: r else (k, v0) :: store_set key v r
  end.

(** The clean-up loop of [rateLimit]: every entry keeps the instants after
    [windowStart], an entry that keeps none is deleted. *)
Definition clean_up (windowStart : Z) (m : rate_store) : rate_store :=
  filter (fun kv => negb (List.length (snd kv) =? 0)%nat)
    (map (fun kv => (fst kv, filter (fun t => windowStart <? t) (snd kv))) m).

(** [rateLimitStore.get(key) || []] *)
Definition recorded (key : string) (m : rate_store) : list Z :=
  match store_get key m with
  | Some v => v
  | None => []
  end.

Definition MAX_REQUESTS_PER_MINUTE : nat := 30.

Definition MAX_IMAGE_SIZE : Z := 10 * 1024 * 1024.

Record rate_limit_result := {
  allowed : bool;
  retryAfter : option Z
}.

(** [Math.ceil(a / b)] for integers [a] and [b > 0]. *)
Definition ceil_div (a b : Z) : Z := - ((- a) / b).

(** [rateLimit(userId, endpoint)] called at instant [now] ([Date.now()], in
    milliseconds); [cleaning] is the outcome of [Math.random() < 0.1]. *)
Definition rateLimit (store : rate_store) (userId endpoint : string)
    (now : Z) (cleaning : bool) : rate_limit_result * rate_store :=
  let key := (userId ++ ":" ++ endpoint)%string in
  let windowStart := now - 60000 in
  let userRequests := recorded key store in
  let recentRequests := filter (fun t => windowStart <? t) userRequests in
  if (MAX_REQUESTS_PER_MINUTE <=? List.length recentRequests)%nat then
    ({| allowed := false;
        retryAfter := Some (ceil_div (hd 0 recentRequests + 60000 - now) 1000) |},
     store)
  else
    let store := store_set key (recentRequests ++ [now]) store in
    ({| allowed := true; retryAfter := None |},
     if cleaning then clean_up windowStart store else store).

(** A user's requests to one endpoint, one after the other: each with its
    instant and the outcome of its draw. *)
Fixpoint rate_limited (store : rate_store) (userId endpoint : string)
    (calls : list (Z * bool)) : list bool * rate_store :=
  match calls with
  | [] => ([], store)
  | (now, cleaning) :: rest =>
      let '(r, store) := rateLimit store userId endpoint now cleaning in
      let '(rs, store) := rate_limited store userId endpoint rest in
      (allowed r :: rs, store)
  end.

(** The outcome of [validateImageData]. *)
Inductive image_check :=
| image_valid
| image_invalid (reason : string).

Definition image_formats : list string := ["jpeg"; "jpg"; "png"; "webp"]%string.

(** What [dataUrlRegex] matches for one of its formats. *)
Definition data_url_prefix (format : string) : js_string :=
  units "data:image/" ++ units format ++ units ";base64,".

(** [/^data:image\/(jpeg|jpg|png|webp);base64,/.test(url)] *)
Definition dataUrlRegex_test (url : js_string) : bool :=
  existsb (fun format => starts_with (data_url_prefix format) url) image_formats.

(** [validateImageData(imageDataUrl)]; [None] is a value that is not a
    string.  The size [(length * 3) / 4] is a fraction: it exceeds the limit
    when [length * 3] exceeds four times the limit.  [Buffer.from(s,
    'base64')] skips what is not base64 and does not throw, so the last
    check always passes. *)
Definition validateImageData (imageDataUrl : option js_string) : image_check :=
  match imageDataUrl with
  | None | Some [] => image_invalid "Invalid image data"
  | Some url =>
      if negb (dataUrlRegex_test url) then image_invalid "Invalid image format"
      else
        match nth_error (split 44 url) 1 with
        | None | Some [] => image_invalid "Invalid image data"
        | Some base64Data =>
            if 4 * MAX_IMAGE_SIZE <? Z.of_nat (List.length base64Data) * 3
            then image_invalid "Image too large (max 10MB)"
            else image_valid
        end
  end.

(** The code units that [trim] removes: the white space and line
    terminators of ECMAScript. *)
Definition is_white_space (c : N) : bool :=
  existsb (N.eqb c)
    [9; 10; 11; 12; 13; 32; 160; 5760; 8232; 8233; 8239; 8287; 12288; 65279]%N
  || ((8192 <=? c) && (c <=? 8202))%N.

Fixpoint trim_start (s : js_string) : js_string :=
  match s with
  | [] => []
  | c :: r => if is_white_space c then trim_start r else s
  end.

(** [s.trim()] *)
Definition trim (s : js_string) : js_string :=
  rev (trim_start (rev (trim_start s))).

(** [/[<>]/] *)
Definition is_angle_bracket (c : N) : bool := ((c =? 60) || (c =? 62))%N.

(** [sanitizeInput(input)] for an input that is a string or absent. *)
Definition sanitizeInput (input : option js_string) : js_string :=
  match input with
  | None | Some [] => []
  | Some s =>
      firstn 1000 (trim (filter (fun c => negb (is_angle_bracket c)) s))
  end.

Definition knownErrors : list (string * string) :=
  [ ("Invalid API key", "Authentication failed");
    ("No authorization header", "Authentication required");
    ("Insufficient credits", "Insufficient credits");
    ("Invalid image data", "Invalid image data");
    ("Image too large", "Image too large (max 10MB)");
    ("Rate limit exceeded", "Too many requests, please try again later") ]%string.

(** [sanitizeError(error)], from [error.message]. *)
Definition sanitizeError (error_message : option js_string) : string :=
  match find (fun entry =>
                match error_message with
                | None | Some [] => false
                | Some m => includes (units (fst entry)) m
                end) knownErrors with
  | Some entry => snd entry
  | None => "An error occurred processing your request"
  end.

(** ** Sample data *)

(** A subscription grant of [r] credits, none used, that expires at instant
    1000. *)
Definition sample_purchase (i u : uuid) (r : Z) (st : payment_state)
    (created : timestamp) : purchase :=
  {| Purchase.id := i; Purchase.user_id := u; Purchase.subscription_id := None;
     Purchase.credits := r; Purchase.remaining_credits := r;
     Purchase.stripe_checkout_session_id := None;
     Purchase.purchase_type := kind_subscription;
     Purchase.expires_at := Some 1000; Purchase.payment_status := st;
     Purchase.created_at := created |}.

(** An environment where the store works, the clock stands at 10 and the
    inference service rejects every call with status 429. *)
Definition rejecting : env :=
  {| clock := fun _ => 10;
     store_fails := fun _ => false;
     openai := fun _ => rejected (Some 429%nat);
     timer_fires := fun _ => false |}.

(** An environment where the clock stands at 10 and the store fails at the
    operations of the ticks listed, and at no other. *)
Definition failing_at (ticks : list nat) : env :=
  {| clock := fun _ => 10;
     store_fails := fun i => existsb (Nat.eqb i) ticks;
     openai := openai (calm 10);
     timer_fires := fun _ => false |}.

(** A purchase of user 7 that belongs to subscription 3. *)
Definition subscribed_purchase (r : Z) (st : payment_state) : purchase :=
  {| Purchase.id := 1; Purchase.user_id := 7; Purchase.subscription_id := Some 3%nat;
     Purchase.credits := 200; Purchase.remaining_credits := r;
     Purchase.stripe_checkout_session_id := None;
     Purchase.purchase_type := kind_subscription;
     Purchase.expires_at := Some 1000; Purchase.payment_status := st;
     Purchase.created_at := 5 |}.


(** Two requests to [analyze-batch]: each runs up to its lookup of the
    purchase to charge, then the first writes. *)
Definition stale_read_schedule : list nat :=
  [0; 0; 0; 0; 0; 1; 1; 1; 1; 1; 0]%nat.

Definition sample_settings : settings :=
  {| PRO_CREDITS_PER_MONTH := 200; PRO_VALIDITY_DAYS := 30; TOPUP_CREDITS := 100;
     STRIPE_PRICE_ID := Some "price_1"%string |}.

(** User 7 with one active subscription and its first grant. *)
Definition subscribed_db : db :=
  {| users := [ {| User.id := 7; User.tier_of := pro;
                   User.stripe_customer_id := Some "cus_1"%string |} ];
     subscriptions :=
       [ {| Subscription.id := 3; Subscription.user_id := 7;
            Subscription.stripe_subscription_id := "sub_1";
            Subscription.status := active;
            Subscription.current_period_start := 0;
            Subscription.current_period_end := 1000;
            Subscription.credits_per_period := 200 |} ];
     purchases := [subscribed_purchase 200 completed];
     subscription_history := [] |}.

Definition renewal_invoice : invoice :=
  {| invoice_id := "in_1"; invoice_subscription := Some "sub_1"%string;
     billing_reason := "subscription_cycle"; period_end := 2 |}.



(** User 7 before any payment. *)
Definition new_user_db : db :=
  {| users := [ {| User.id := 7; User.tier_of := free;
                   User.stripe_customer_id := None |} ];
     subscriptions := []; purchases := []; subscription_history := [] |}.

(** A purchase of 5 credits whose payment is pending, and a newer, paid
    purchase of 10 credits. *)
Definition pending_then_paid : list purchase :=
  [sample_purchase 1 7 5 pending 5; sample_purchase 2 7 10 completed 6].

(** The older purchase holds 1 credit, the newer one 10; the newer one comes
    first in the table. *)
Definition two_purchases : list purchase :=
  [sample_purchase 2 7 10 completed 6; sample_purchase 1 7 1 completed 5].


(** An environment where nothing fails and the clock shows 10 for the first
    three operations and 2000 from then on. *)
Definition slow_inference : env :=
  {| clock := fun i => if (i <? 3)%nat then 10 else 2000;
     store_fails := fun _ => false;
     openai := openai (calm 10);
     timer_fires := fun _ => false |}.

(** Two purchases of user 7 with one credit each: the older one expires at
    instant 1000, the newer one at 5000. *)
Definition expiring_purchases : list purchase :=
  [ sample_purchase 1 7 1 completed 5;
    {| Purchase.id := 2; Purchase.user_id := 7; Purchase.subscription_id := None;
       Purchase.credits := 1; Purchase.remaining_credits := 1;
       Purchase.stripe_checkout_session_id := None;
       Purchase.purchase_type := kind_topup;
       Purchase.expires_at := Some 5000; Purchase.payment_status := completed;
       Purchase.created_at := 6 |} ].



(** [toUpperCase] on ASCII letters. *)
Definition upper_ascii (s : string) : string :=
  string_of_list_ascii
    (map (fun c => let n := nat_of_ascii c in
                   if ((97 <=? n) && (n <=? 122))%nat
                   then ascii_of_nat (n - 32) else c)
       (list_ascii_of_string s)).

(** Three requests to the [use_credits] version of [analyze], each moving
    one operation at a time in turn. *)
Definition round_robin : list nat :=
  List.concat (repeat [0; 1; 2]%nat 10).


(** * Theorems *)

Unset Implicit Arguments.

Lemma exec_trace e X (o : op X) w :
  trace (snd (exec e o w)) = trace w ++ [Event o (fst (exec e o w))].
Proof.
  unfold exec. destruct (exec_op e o w) as [[x tbl] usage]. reflexivity.
Qed.

Lemma new_events_app w w' t :
  trace w' = trace w ++ t -> new_events w w' = t.
Proof.
  intros H. unfold new_events. rewrite H.
  rewrite skipn_app, skipn_all, Nat.sub_diag. reflexivity.
Qed.

Section Paths.
Context {S : Type}.
Variable possible : forall X, op X -> X -> Prop.
Variable watch : S -> event -> option S.
Variable accept : S -> response -> Prop.
Variable Inv : world -> Prop.
Variable e : env.
Hypothesis exec_possible :
  forall X (o : op X) w, Inv w -> possible X o (fst (exec e o w)).
Hypothesis exec_inv :
  forall X (o : op X) w, Inv w -> Inv (snd (exec e o w)).

Lemma run_on_all_paths (p : prog response) :
  forall s w, Inv w -> on_all_paths possible watch accept s p ->
  exists t s',
    trace (snd (run e p w)) = trace w ++ t
    /\ observe watch s t = Some s'
    /\ accept s' (fst (run e p w))
    /\ Inv (snd (run e p w)).
Proof.
  induction p as [r | X o k IH]; intros s w HI Hp; simpl in *.
  - exists [], s. rewrite app_nil_r. auto.
  - pose proof (exec_trace e X o w) as Ht.
    pose proof (exec_possible X o w HI) as Hx.
    pose proof (exec_inv X o w HI) as HI'.
    destruct (exec e o w) as [x w1]; simpl in *.
    specialize (Hp x Hx).
    destruct (watch s (Event o x)) as [s1 |] eqn:Hw; [| contradiction].
    destruct (IH x s1 w1 HI' Hp) as (t & s' & Et & Eo & Ha & HI2).
    exists (Event o x :: t), s'. simpl. rewrite Hw.
    repeat split; auto.
    rewrite Et, Ht, <- app_assoc. reflexivity.
Qed.
End Paths.


Lemma exec_frame e X (o : op X) w :
  is_write (Event o (fst (exec e o w))) = false ->
  credit_purchases (snd (exec e o w)) = credit_purchases w.
Proof.
  unfold exec. destruct o; cbn; try discriminate; intros _;
    destruct (store_fails e (tick w)); reflexivity.
Qed.

Lemma run_trace e (p : prog response) :
  forall w, exists t,
    trace (snd (run e p w)) = trace w ++ t
    /\ (existsb is_write t = false ->
        credit_purchases (snd (run e p w)) = credit_purchases w).
Proof.
  induction p as [r | X o k IH]; intros w; simpl.
  - exists []. rewrite app_nil_r. auto.
  - pose proof (exec_trace e X o w) as Ht.
    pose proof (exec_frame e X o w) as Hf.
    destruct (exec e o w) as [x w1]; simpl in *.
    destruct (IH x w1) as (t & Et & Hk).
    exists (Event o x :: t). split.
    + rewrite Et, Ht, <- app_assoc. reflexivity.
    + simpl. intros H. apply orb_false_iff in H as [H1 H2].
      rewrite (Hk H2). auto.
Qed.

Lemma run_frame e (p : prog response) w :
  existsb is_write (new_events w (snd (run e p w))) = false ->
  credit_purchases (snd (run e p w)) = credit_purchases w.
Proof.
  destruct (run_trace e p w) as (t & Et & H).
  rewrite (@new_events_app _ _ _ Et). exact H.
Qed.

(** The timer of [analyze]: the handler does what it does without the
    timer, and the client is answered 504 exactly when the timer has fired
    during one of the operations of the request. *)
Lemma exec_tick e X (o : op X) w : tick (snd (exec e o w)) = S (tick w).
Proof.
  unfold exec. destruct (exec_op e o w) as [[x tbl] usage]. reflexivity.
Qed.

Lemma run_tick e (p : prog response) :
  forall w, (tick w <= tick (snd (run e p w)))%nat.
Proof.
  induction p as [r | X o k IH]; intros w; simpl; [lia |].
  pose proof (exec_tick e X o w) as Ht.
  destruct (exec e o w) as [x w1]; simpl in *.
  specialize (IH x w1). lia.
Qed.

Lemma run_with_timer_run e (p : prog response) :
  forall f w,
    snd (run_with_timer e f p w) = snd (run e p w)
    /\ fst (run_with_timer e f p w)
       = if f || timer_fired e w (snd (run e p w))
         then timeout_response else fst (run e p w).
Proof.
  induction p as [r | X o k IH]; intros f w; simpl.
  - unfold timer_fired. rewrite Nat.sub_diag. simpl. rewrite orb_false_r. auto.
  - pose proof (exec_tick e X o w) as Ht.
    destruct (exec e o w) as [x w1]; simpl in *.
    destruct (IH x (f || timer_fires e (tick w)) w1) as [Hs Hf].
    split; [exact Hs |]. rewrite Hf.
    pose proof (run_tick e (k x) w1) as Hle.
    unfold timer_fired. rewrite Ht in *.
    replace (tick (snd (run e (k x) w1)) - tick w)%nat
      with (S (tick (snd (run e (k x) w1)) - S (tick w)))%nat by lia.
    simpl. rewrite orb_assoc. reflexivity.
Qed.

(** What the monitor of the inference call guarantees of a trace. *)
Lemma observe_compute_once t :
  forall s s', observe watch_compute s t = Some s' ->
  resolved_before s || rejected_before s = true ->
  existsb compute_rejected t = false.
Proof.
  induction t as [| ev t IH]; intros s s' H Hs; simpl in *; auto.
  unfold watch_compute in H. unfold compute_rejected at 1.
  destruct (is_write ev) eqn:Hw.
  - destruct (resolved_before s && negb (rejected_before s)); [| discriminate].
    rewrite (IH _ _ H Hs).
    unfold is_write in Hw. destruct (event_kind ev); simpl in *; auto; discriminate.
  - destruct (kind_eqb (event_kind ev) k_compute).
    + rewrite Hs in H. discriminate.
    + simpl. eauto.
Qed.

Lemma observe_compute_writes t :
  forall s s', observe watch_compute s t = Some s' ->
  writes_follow_compute (resolved_before s) t = true
  /\ (rejected_before s = true \/ existsb compute_rejected t = true ->
      existsb is_write t = false).
Proof.
  induction t as [| ev t IH]; intros s s' H; simpl in *; auto.
  unfold watch_compute in H.
  destruct (is_write ev) eqn:Hw; simpl.
  - destruct (resolved_before s) eqn:Hr, (rejected_before s) eqn:Hj;
      simpl in H; try discriminate.
    destruct (IH _ _ H) as [A B]. rewrite Hr in A. simpl. split; auto.
    intros [C | C]; [discriminate |].
    assert (existsb compute_rejected t = false) as D.
    { eapply observe_compute_once; eauto. rewrite Hr. reflexivity. }
    assert (compute_rejected ev = false) as F.
    { unfold compute_rejected. unfold is_write in Hw.
      destruct (event_kind ev); simpl in *; auto; discriminate. }
    rewrite F, D in C. discriminate.
  - unfold compute_resolved, compute_rejected.
    destruct (kind_eqb (event_kind ev) k_compute) eqn:Hk; simpl.
    + destruct (resolved_before s) eqn:Hr, (rejected_before s) eqn:Hj;
        simpl in H; try discriminate.
      destruct (IH _ _ H) as [A B]. simpl in *. split; auto.
      intros [C | C]; [discriminate |].
      destruct (event_failed ev); simpl in *; auto.
    + destruct (IH _ _ H) as [A B]. rewrite orb_false_r. split; auto.
Qed.

Ltac walk :=
  repeat first
    [ progress cbn
    | match goal with
      | |- forall _, _ => intro
      | |- True => exact I
      | |- context [match ?x with _ => _ end] => destruct x eqn:?
      end ].

Lemma analyze_compute_paths key uid :
  on_all_paths anything watch_compute (fun _ _ => True) not_yet (analyze key uid).
Proof.
  unfold analyze, check_before_compute, log_and_respond.
  destruct (truthy key); walk.
Qed.

Lemma analyze_rpc_compute_paths key uid :
  on_all_paths anything watch_compute (fun _ _ => True) not_yet (analyze_rpc key uid).
Proof.
  unfold analyze_rpc, check_before_compute, log_and_respond.
  destruct (truthy key); walk.
Qed.

(** The usage rows of [analyze-batch] under a monitor that the insert of a
    usage row leaves in its state. *)
Lemma log_usage_rows_paths {S : Type} (possible : forall X, op X -> X -> Prop)
    (watch : S -> event -> option S) (accept : S -> response -> Prop)
    (s : S) responses u k :
  (forall x, watch s (Event (insert_api_usage u) x) = Some s) ->
  accept s (catch_block None) ->
  on_all_paths possible watch accept s k ->
  on_all_paths possible watch accept s (log_usage_rows responses u k).
Proof.
  intros Hw Hc Hk.
  induction responses as [| [text |] responses IH]; cbn [log_usage_rows]; auto.
  cbn [on_all_paths]. intros x _. rewrite Hw. exact IH.
Qed.

Lemma log_usage_rows_after_compute responses u k :
  on_all_paths anything watch_compute (fun _ _ => True) computed k ->
  on_all_paths anything watch_compute (fun _ _ => True) computed
    (log_usage_rows responses u k).
Proof.
  intros Hk. apply log_usage_rows_paths; auto.
Qed.

Lemma deduct_batch_after_compute fuel uid now len results k :
  on_all_paths anything watch_compute (fun _ _ => True) computed k ->
  forall n,
  on_all_paths anything watch_compute (fun _ _ => True) computed
    (deduct_batch fuel uid now len results n k).
Proof.
  intros Hk. induction fuel as [| fuel IH]; intros n; simpl.
  - destruct (n <=? 0); simpl; auto.
  - destruct (n <=? 0); simpl; auto.
    intros [p | err] _; simpl; auto.
    intros [err |] _; simpl; auto.
    apply log_usage_rows_after_compute. apply IH.
Qed.

Lemma analyze_batch_compute_paths n key uid :
  on_all_paths anything watch_compute (fun _ _ => True) not_yet
    (analyze_batch n key uid).
Proof.
  unfold analyze_batch.
  destruct (truthy key).
  - simpl. intros [results | st] _; simpl; auto.
    apply log_usage_rows_after_compute. simpl. auto.
  - simpl. intros now _. simpl. intros r _.
    destruct (available_of r <? Z.of_nat n); simpl; auto.
    intros [results | st] _; simpl; auto.
    intros now' _. apply deduct_batch_after_compute.
    simpl. auto.
Qed.

Lemma exec_anything e X (o : op X) (w : world) :
  (fun _ : world => True) w -> anything o (fst (exec e o w)).
Proof. intros _. exact I. Qed.

(** C5.  In [analyze] (both versions) and in [analyze-batch], whatever the
    store, the clock and the inference service do: every operation that can
    write [credit_purchases] comes after the inference call has resolved;
    and when the inference call rejects (it failed, timed out or threw), the
    request ends without any such operation and leaves every purchase as it
    was. *)
Theorem deduction_only_after_compute :
  forall (e : env) (w : world) (key : option string) (uid : uuid) (n : nat),
    Forall (fun h : prog response =>
      let t := new_events w (snd (run e h w)) in
      writes_follow_compute false t = true
      /\ (existsb compute_rejected t = true ->
          existsb is_write t = false
          /\ credit_purchases (snd (run e h w)) = credit_purchases w))
      [analyze key uid; analyze_rpc key uid; analyze_batch n key uid].
Proof.
  intros e w key uid n.
  assert (forall h,
    on_all_paths anything watch_compute (fun _ _ => True) not_yet h ->
    let t := new_events w (snd (run e h w)) in
    writes_follow_compute false t = true
    /\ (existsb compute_rejected t = true ->
        existsb is_write t = false
        /\ credit_purchases (snd (run e h w)) = credit_purchases w)) as H.
  { intros h Hp.
    destruct (@run_on_all_paths _ anything watch_compute (fun _ _ => True)
                (fun _ => True) e (exec_anything e) (fun _ _ _ _ => I)
                h not_yet w I Hp) as (t & s' & Et & Eo & _).
    pose proof (run_frame e h w) as Hf.
    rewrite (@new_events_app _ _ _ Et) in *. simpl.
    destruct (observe_compute_writes _ _ _ Eo) as [A B]. split; auto. }
  constructor; [exact (H _ (analyze_compute_paths key uid)) |].
  constructor; [exact (H _ (analyze_rpc_compute_paths key uid)) |].
  constructor; [exact (H _ (analyze_batch_compute_paths n key uid)) |].
  constructor.
Qed.

(** A concrete instance: the inference service rejects, the purchase keeps
    its credit. *)
Lemma deduction_only_after_compute_witness :
  credit_purchases (snd (run rejecting (analyze None 7) (initial [sample_purchase 1 7 1 completed 5])))
  = [sample_purchase 1 7 1 completed 5].
Proof.
  pose proof (deduction_only_after_compute rejecting
                (initial [sample_purchase 1 7 1 completed 5]) None 7 1) as H.
  apply Forall_inv in H. destruct H as [_ H].
  apply H. reflexivity.
Defined.

Lemma observe_kinds t :
  forall s s', observe watch_kinds s t = Some s' -> s' = s ++ map event_kind t.
Proof.
  induction t as [| ev t IH]; intros s s' H; simpl in *.
  - inversion H. rewrite app_nil_r. reflexivity.
  - apply IH in H. rewrite H, <- app_assoc. reflexivity.
Qed.

Lemma is_write_kinds t :
  existsb is_write t = existsb writes_purchases (map event_kind t).
Proof.
  induction t as [| ev t IH]; simpl; auto. rewrite IH. reflexivity.
Qed.

Lemma no_write_in_logs n :
  existsb writes_purchases (repeat k_log n) = false.
Proof. induction n; simpl; auto. Qed.

Lemma catch_block_status st :
  status (catch_block st) = 429%nat \/ status (catch_block st) = 500%nat.
Proof.
  unfold catch_block.
  destruct (status_is st 429); [left; reflexivity |].
  destruct (status_is st 401); right; reflexivity.
Qed.

Lemma catch_block_not_402 st : status (catch_block st) <> 402%nat.
Proof. destruct (catch_block_status st) as [H | H]; rewrite H; discriminate. Qed.

Lemma log_usage_rows_own_key n u responses :
  forall rows,
    (rows + List.length responses <= n)%nat ->
    on_all_paths anything watch_kinds
      (fun ks r => own_key_batch_kinds n ks /\ status r <> 402%nat)
      (k_compute :: repeat k_log rows)
      (log_usage_rows responses u (Ret (respond_ok None))).
Proof.
  induction responses as [| [text |] responses IH]; intros rows Hle;
    cbn [log_usage_rows on_all_paths List.length] in *.
  - split; [| discriminate]. exists rows. split; [lia | reflexivity].
  - intros x _. cbn [watch_kinds event_kind kind_of].
    change ((k_compute :: repeat k_log rows) ++ [k_log])
      with (k_compute :: (repeat k_log rows ++ [k_log])).
    rewrite <- repeat_cons.
    apply (IH (S rows)). lia.
  - split; [| apply catch_block_not_402]. exists rows. split; [lia | reflexivity].
Qed.

Lemma analyze_own_key_paths key uid :
  truthy key = true ->
  on_all_paths anything watch_kinds
    (fun ks r => own_key_kinds ks /\ status r <> 402%nat) [] (analyze key uid).
Proof.
  intros Hk. unfold analyze, check_before_compute, log_and_respond, own_key_kinds.
  rewrite Hk. simpl.
  intros [results | st] _; simpl.
  - destruct (content (results 0%nat)); simpl.
    + intros logError _ now _ updatedPurchases _.
      split; [right; reflexivity | discriminate].
    + split; [left; reflexivity | discriminate].
  - split; [left; reflexivity | apply catch_block_not_402].
Qed.

Lemma analyze_rpc_own_key_paths key uid :
  truthy key = true ->
  on_all_paths anything watch_kinds
    (fun ks r => own_key_kinds ks /\ status r <> 402%nat) [] (analyze_rpc key uid).
Proof.
  intros Hk. unfold analyze_rpc, check_before_compute, log_and_respond, own_key_kinds.
  rewrite Hk. simpl.
  intros [results | st] _; simpl.
  - destruct (content (results 0%nat)); simpl.
    + intros logError _ now _ updatedPurchases _.
      split; [right; reflexivity | discriminate].
    + split; [left; reflexivity | discriminate].
  - split; [left; reflexivity | apply catch_block_not_402].
Qed.

Lemma analyze_batch_own_key_paths n key uid :
  truthy key = true ->
  on_all_paths anything watch_kinds
    (fun ks r => own_key_batch_kinds n ks /\ status r <> 402%nat) []
    (analyze_batch n key uid).
Proof.
  intros Hk. unfold analyze_batch.
  rewrite Hk. simpl.
  intros [results | st] _; simpl.
  - apply (log_usage_rows_own_key n _ _ 0%nat).
    rewrite length_map, length_seq. lia.
  - split; [| apply catch_block_not_402].
    exists 0%nat. split; [lia | reflexivity].
Qed.

Lemma own_key_kinds_no_write ks :
  own_key_kinds ks -> existsb writes_purchases ks = false.
Proof. intros [-> | ->]; reflexivity. Qed.

Lemma own_key_batch_kinds_no_write n ks :
  own_key_batch_kinds n ks -> existsb writes_purchases ks = false.
Proof. intros (rows & _ & ->). simpl. apply no_write_in_logs. Qed.

(** C10.  When the request carries the caller's own API key, [analyze]
    (both versions) and [analyze-batch] leave [credit_purchases] exactly as
    it was, never answer 402, and perform no operation on the ledger other
    than, in [analyze], the read of the balance that the response reports:
    no credit check before or after the inference call, no lookup of a
    purchase to charge, no update. *)
Theorem own_key_leaves_ledger :
  forall (e : env) (w : world) (key : option string) (uid : uuid) (n : nat),
    truthy key = true ->
    (credit_purchases (snd (run e (analyze key uid) w)) = credit_purchases w
     /\ status (fst (run e (analyze key uid) w)) <> 402%nat
     /\ own_key_kinds
          (map event_kind (new_events w (snd (run e (analyze key uid) w)))))
    /\ (credit_purchases (snd (run e (analyze_rpc key uid) w)) = credit_purchases w
        /\ status (fst (run e (analyze_rpc key uid) w)) <> 402%nat
        /\ own_key_kinds
             (map event_kind (new_events w (snd (run e (analyze_rpc key uid) w)))))
    /\ (credit_purchases (snd (run e (analyze_batch n key uid) w))
        = credit_purchases w
        /\ status (fst (run e (analyze_batch n key uid) w)) <> 402%nat
        /\ own_key_batch_kinds n
             (map event_kind
                (new_events w (snd (run e (analyze_batch n key uid) w))))).
Proof.
  intros e w key uid n Hk.
  assert (forall (P : list op_kind -> Prop) h,
    (forall ks, P ks -> existsb writes_purchases ks = false) ->
    on_all_paths anything watch_kinds
      (fun ks r => P ks /\ status r <> 402%nat) [] h ->
    credit_purchases (snd (run e h w)) = credit_purchases w
    /\ status (fst (run e h w)) <> 402%nat
    /\ P (map event_kind (new_events w (snd (run e h w))))) as H.
  { intros P h HP Hp.
    destruct (@run_on_all_paths _ anything watch_kinds _
                (fun _ => True) e (exec_anything e) (fun _ _ _ _ => I)
                h [] w I Hp) as (t & s' & Et & Eo & [Ha Hs] & _).
    apply observe_kinds in Eo. simpl in Eo. subst s'.
    pose proof (run_frame e h w) as Hf.
    rewrite (@new_events_app _ _ _ Et) in *.
    repeat split; auto.
    apply Hf. rewrite is_write_kinds. auto. }
  split; [| split].
  - exact (H own_key_kinds _ own_key_kinds_no_write
             (analyze_own_key_paths key uid Hk)).
  - exact (H own_key_kinds _ own_key_kinds_no_write
             (analyze_rpc_own_key_paths key uid Hk)).
  - exact (H (own_key_batch_kinds n) _ (own_key_batch_kinds_no_write n)
             (analyze_batch_own_key_paths n key uid Hk)).
Qed.

Lemma own_key_leaves_ledger_witness :
  credit_purchases
    (snd (run (calm 10) (analyze_batch 2 (Some "sk-own"%string) 7)
            (initial [sample_purchase 1 7 1 completed 5])))
  = [sample_purchase 1 7 1 completed 5].
Proof.
  apply (own_key_leaves_ledger (calm 10)
           (initial [sample_purchase 1 7 1 completed 5])
           (Some "sk-own"%string) 7 2).
  reflexivity.
Defined.

(** ** The handlers at concrete requests *)

(** C8.  A request to [analyze] paid from credits: purchase 1 of
    subscription 3 loses its credit, and the usage row written for the
    request names neither the purchase nor the subscription.  The loop
    assigns the block-local [purchaseId] and [subscriptionId]; the row is
    written from the outer pair, which is still null. *)
Theorem analyze_usage_row_has_no_purchase :
  let w' := snd (run (calm 10) (analyze None 7)
                   (initial [subscribed_purchase 1 completed])) in
  status (fst (run (calm 10) (analyze None 7)
                 (initial [subscribed_purchase 1 completed]))) = 200%nat
  /\ credit_purchases w' = [subscribed_purchase 0 completed]
  /\ api_usage w'
     = [ {| Usage.user_id := 7; Usage.purchase_id := None;
            Usage.subscription_id := None; Usage.credits_used := 1;
            Usage.api_key_used := false |} ].
Proof. repeat split. Qed.

(** The same purchase charged by [analyze-batch] for one image: the usage
    row names the purchase and the subscription. *)
Lemma analyze_batch_usage_row_names_purchase :
  api_usage (snd (run (calm 10) (analyze_batch 1 None 7)
                    (initial [subscribed_purchase 1 completed])))
  = [ {| Usage.user_id := 7; Usage.purchase_id := Some 1%nat;
         Usage.subscription_id := Some 3%nat; Usage.credits_used := 1;
         Usage.api_key_used := false |} ].
Proof. reflexivity. Qed.

(** The same request to the version of [analyze] that calls [use_credits]:
    [use_credits] raises at the query of its loop, the request is answered
    500 after the inference call, the purchase keeps its credit and no
    usage row is written. *)
Lemma analyze_rpc_completed_purchase :
  let served := run (calm 10) (analyze_rpc None 7)
                  (initial [subscribed_purchase 1 completed]) in
  status (fst served) = 500%nat
  /\ credit_purchases (snd served) = [subscribed_purchase 1 completed]
  /\ api_usage (snd served) = []
  /\ existsb compute_resolved (trace (snd served)) = true.
Proof. repeat split. Qed.

(** The version of [analyze] that calls [use_credits], on a purchase whose
    payment is still pending: its own credit check lets the request
    through, [use_credits] refuses, and the request is answered 500 after
    the inference call. *)
Lemma analyze_rpc_pending_purchase :
  fst (run (calm 10) (analyze_rpc None 7)
         (initial [subscribed_purchase 200 pending]))
  = respond 500 "Failed to process credits. Please try again." None.
Proof. reflexivity. Qed.

(** C4.  A purchase whose payment is still pending: [handleGetCredits]
    reports its 200 credits as available, [get_available_credits] reports
    none. *)
Theorem credits_balance_counts_pending :
  fst (run (calm 10) (handleGetCredits 7)
         (initial [subscribed_purchase 200 pending]))
  = respond_ok (Some 200)
  /\ get_available_credits [subscribed_purchase 200 pending] 7 10 = returned 0.
Proof. split; reflexivity. Qed.

(** C9.  On a purchase whose payment is still pending, the optimistic-lock
    loop of [analyze] succeeds and takes a credit, while [use_credits]
    answers that credits are insufficient and takes none. *)
Theorem consume_implementations_diverge :
  (status (fst (run (calm 10) (analyze None 7)
                  (initial [subscribed_purchase 200 pending]))) = 200%nat
   /\ credit_purchases (snd (run (calm 10) (analyze None 7)
                              (initial [subscribed_purchase 200 pending])))
      = [subscribed_purchase 199 pending])
  /\ (fst (use_credits [subscribed_purchase 200 pending] 7 1 false 10)
      = returned {| success := false; message := "Insufficient credits";
                    purchase_id := None; subscription_id := None |}
      /\ snd (use_credits [subscribed_purchase 200 pending] 7 1 false 10)
         = [subscribed_purchase 200 pending]).
Proof. repeat split. Qed.

(** C6.  Two requests to [analyze-batch] of the same user, one for two
    images and one for one image, both read the purchase at 5 credits.  The
    first writes 3; the second then writes 4: [remaining_credits] of the row
    goes up, and the two requests, both answered 200, have taken one credit
    for three images. *)
Theorem batch_write_raises_remaining :
  let pool := [analyze_batch 2 None 7; analyze_batch 1 None 7] in
  let w0 := initial [subscribed_purchase 5 completed] in
  credit_purchases (snd (interleave (calm 10) stale_read_schedule pool w0))
  = [subscribed_purchase 3 completed]
  /\ credit_purchases
       (snd (interleave (calm 10) (stale_read_schedule ++ [1%nat]) pool w0))
     = [subscribed_purchase 4 completed]
  /\ map finished
       (fst (interleave (calm 10)
               (stale_read_schedule ++ [1; 0; 0; 0; 1; 1]%nat) pool w0))
     = [Some (respond_ok (Some 4)); Some (respond_ok (Some 4))].
Proof. repeat split. Qed.


(** C7, as stated, fails.  The store is unavailable at the credit check
    that [analyze] makes after the inference call (its fifth operation),
    and the timer does not fire: the request is answered 402, insufficient
    credits, although the user has 4 credits. *)
Lemma check_failure_answers_402 :
  fst (run_with_timer (failing_at [4%nat]) false (analyze None 7)
         (initial [subscribed_purchase 4 completed]))
  = respond 402 "Insufficient credits. Please add more credits to continue."
      (Some 0).
Proof. reflexivity. Qed.


(** ** Replayed webhook events *)

Lemma has_user_update_user uid f d u :
  (forall r, User.id (f r) = User.id r) ->
  has_user (update_user uid f d) u = has_user d u.
Proof.
  intros Hf. unfold has_user, update_user. simpl.
  induction (users d) as [| r l IH]; simpl; auto.
  rewrite IH. destruct (User.id r =? uid)%nat; [rewrite Hf |]; reflexivity.
Qed.

(** The two outcomes of the insert of a subscription row. *)
Lemma insert_subscription_outcome d acc uid sub cust price now pe c :
  match insert_subscription d acc uid sub cust price now pe c with
  | raised _ => subscription_refused d acc uid sub cust price = true
  | returned (row, d') =>
      subscription_refused d acc uid sub cust price = false
      /\ users d' = users d
      /\ subscriptions d' = subscriptions d ++ [row]
      /\ purchases d' = purchases d
      /\ subscription_history d' = subscription_history d
      /\ sub = Some (Subscription.stripe_subscription_id row)
      /\ Subscription.id row = fresh_uuid (map Subscription.id (subscriptions d))
      /\ Subscription.user_id row = uid
      /\ Subscription.status row = active
      /\ Subscription.current_period_start row = now
      /\ Subscription.current_period_end row = pe
      /\ Subscription.credits_per_period row = c
  end.
Proof.
  unfold insert_subscription, subscription_refused, ref_taken.
  destruct acc; [| reflexivity]. cbn [negb orb].
  destruct sub as [ref |], cust as [cu |], price as [pr |]; try reflexivity.
  destruct (existsb _ (subscriptions d)); [reflexivity |].
  destruct (has_user d uid); [| reflexivity].
  cbn. repeat split; reflexivity.
Qed.

Lemma insert_subscription_refused d acc uid sub cust price now pe c :
  subscription_refused d acc uid sub cust price = true ->
  exists code, insert_subscription d acc uid sub cust price now pe c = raised code.
Proof.
  intros H.
  pose proof (insert_subscription_outcome d acc uid sub cust price now pe c) as Ho.
  destruct (insert_subscription d acc uid sub cust price now pe c)
    as [[row d'] | code]; [| exists code; reflexivity].
  destruct Ho as [Ho _]. congruence.
Qed.

Lemma insert_subscription_accepted d acc uid sub cust price now pe c row d' :
  insert_subscription d acc uid sub cust price now pe c = returned (row, d') ->
  users d' = users d
  /\ subscriptions d' = subscriptions d ++ [row]
  /\ purchases d' = purchases d
  /\ subscription_history d' = subscription_history d
  /\ sub = Some (Subscription.stripe_subscription_id row)
  /\ has_user d uid = true.
Proof.
  intros H.
  pose proof (insert_subscription_outcome d acc uid sub cust price now pe c) as Ho.
  rewrite H in Ho.
  destruct Ho as (Hr & Hu & Hs & Hp & Hh & Hsub & _).
  repeat split; auto.
  unfold subscription_refused in Hr. rewrite Hsub in Hr.
  destruct acc; [| discriminate]. cbn [negb orb] in Hr.
  destruct cust, price; try discriminate.
  apply orb_false_iff in Hr as [_ Hr].
  destruct (has_user d uid); [reflexivity | discriminate].
Qed.

Lemma insert_purchase_tables d uid sid amount cs kind ex now :
  users (insert_purchase d uid sid amount cs kind ex now) = users d
  /\ subscriptions (insert_purchase d uid sid amount cs kind ex now)
     = subscriptions d
  /\ subscription_history (insert_purchase d uid sid amount cs kind ex now)
     = subscription_history d.
Proof.
  unfold insert_purchase.
  destruct (has_user d uid && has_subscription d sid); simpl; auto.
Qed.

Lemma insert_history_tables d sid uid ty ev :
  users (insert_history d sid uid ty ev) = users d
  /\ subscriptions (insert_history d sid uid ty ev) = subscriptions d
  /\ purchases (insert_history d sid uid ty ev) = purchases d.
Proof.
  unfold insert_history.
  destruct (_ || _); simpl; auto.
Qed.

Lemma subscriptions_insert_history d sid uid ty ev :
  subscriptions (insert_history d sid uid ty ev) = subscriptions d.
Proof. apply insert_history_tables. Qed.

Lemma purchases_insert_history d sid uid ty ev :
  purchases (insert_history d sid uid ty ev) = purchases d.
Proof. apply insert_history_tables. Qed.

Lemma subscriptions_insert_purchase d uid sid amount cs kind ex now :
  subscriptions (insert_purchase d uid sid amount cs kind ex now)
  = subscriptions d.
Proof. apply insert_purchase_tables. Qed.



Lemma set_tier_id t r : User.id (set_tier t r) = User.id r.
Proof. reflexivity. Qed.

Lemma has_user_same_users d d' u :
  users d' = users d -> has_user d' u = has_user d u.
Proof. unfold has_user. intros ->. reflexivity. Qed.

Lemma ref_taken_same d d' ref :
  subscriptions d' = subscriptions d -> ref_taken d' ref = ref_taken d ref.
Proof. unfold ref_taken. intros ->. reflexivity. Qed.

Lemma ref_taken_last d row :
  ref_taken
    {| users := users d; subscriptions := subscriptions d ++ [row];
       purchases := purchases d; subscription_history := subscription_history d |}
    (Subscription.stripe_subscription_id row) = true.
Proof.
  unfold ref_taken. simpl. rewrite existsb_app. simpl.
  rewrite String.eqb_refl. simpl. apply orb_true_r.
Qed.










(** ** Store failures *)

Lemma observe_failures to402 to500 t :
  forall s s', observe (watch_failures to402 to500) s t = Some s' ->
  seen_402 s' = seen_402 s || existsb to402 t
  /\ seen_500 s' = (seen_500 s + count_events to500 t)%nat.
Proof.
  induction t as [| ev t IH]; intros s s' H; simpl in *.
  - inversion H; subst. rewrite orb_false_r. unfold count_events. simpl.
    split; [reflexivity | lia].
  - apply IH in H as [A B]. simpl in *. rewrite A, B, orb_assoc.
    split; auto. unfold count_events. simpl.
    destruct (to500 ev); simpl; lia.
Qed.

Ltac answered :=
  repeat match goal with
         | |- context [is_down ?x] => is_var x; destruct x as [? | []]
         end;
  unfold failures_answered; simpl in *;
  split; intros; solve [reflexivity | discriminate | lia].

Ltac walk_failures :=
  repeat first
    [ progress cbn
    | match goal with
      | |- forall _, _ => intro
      | |- failures_answered _ _ _ => answered
      | |- context [match ?x with _ => _ end] => destruct x eqn:?
      end ].

Lemma analyze_failure_paths key uid :
  on_all_paths anything (watch_failures check_down failed_write)
    (failures_answered 3) no_failure (analyze key uid).
Proof.
  unfold analyze, check_before_compute, log_and_respond.
  destruct (truthy key); walk_failures.
Qed.

Lemma analyze_rpc_failure_paths key uid :
  on_all_paths anything (watch_failures check_down failed_write)
    (failures_answered 1) no_failure (analyze_rpc key uid).
Proof.
  unfold analyze_rpc, check_before_compute, log_and_respond.
  destruct (truthy key); walk_failures.
Qed.

Lemma handleGetCredits_failure_paths uid :
  on_all_paths anything (watch_failures nothing balance_read_failed)
    (failures_answered 1) no_failure (handleGetCredits uid).
Proof.
  unfold handleGetCredits. walk_failures.
Qed.

Lemma log_usage_rows_failures to402 to500 thr s responses u k :
  (forall x, to402 (Event (insert_api_usage u) x) = false) ->
  (forall x, to500 (Event (insert_api_usage u) x) = false) ->
  failures_answered thr s (catch_block None) ->
  on_all_paths anything (watch_failures to402 to500) (failures_answered thr) s k ->
  on_all_paths anything (watch_failures to402 to500) (failures_answered thr) s
    (log_usage_rows responses u k).
Proof.
  intros H4 H5 Hc Hk. apply log_usage_rows_paths; auto.
  intros x. unfold watch_failures. rewrite H4, H5, orb_false_r, Nat.add_0_r.
  destruct s. reflexivity.
Qed.

Lemma deduct_batch_failures fuel uid now len results k :
  on_all_paths anything (watch_failures lookup_down failed_write)
    (failures_answered 1) no_failure k ->
  forall n,
  on_all_paths anything (watch_failures lookup_down failed_write)
    (failures_answered 1) no_failure (deduct_batch fuel uid now len results n k).
Proof.
  intros Hk. induction fuel as [| fuel IH]; intros n; simpl.
  - destruct (n <=? 0); simpl; auto. answered.
  - destruct (n <=? 0); simpl; auto.
    intros [p | err] _; cbn.
    + intros [err |] _; cbn.
      * answered.
      * apply log_usage_rows_failures; auto. answered.
    + destruct err; answered.
Qed.

Lemma analyze_batch_failure_paths n key uid :
  on_all_paths anything (watch_failures lookup_down failed_write)
    (failures_answered 1) no_failure (analyze_batch n key uid).
Proof.
  unfold analyze_batch.
  destruct (truthy key).
  - cbn. intros [results | st] _; cbn.
    + apply log_usage_rows_failures; auto; answered.
    + answered.
  - cbn. intros now _. cbn. intros r _; cbn.
    destruct (available_of r <? Z.of_nat n); cbn; [answered |].
    intros [results | st] _; cbn; [| answered].
    intros now' _; cbn. apply deduct_batch_failures.
    cbn. intros r' _. answered.
Qed.

(** C7, as amended.  What a store error is answered with, whatever else
    happens during the request:
    - in [analyze], a store error at the credit check that follows the
      inference call, or at the lookup of the purchase to charge, is
      answered 402, and the third refused or failed conditional update is
      answered 500, unless the timer of the request has fired by then: the
      client has then been answered 504;
    - in the [use_credits] version, which has no timer, a store error at
      the credit check that follows the inference call is answered 402, and
      an error of the [use_credits] call is answered 500;
    - in [analyze-batch], a store error at the lookup of the purchase to
      charge is answered 402, and an error of the update that deducts is
      answered 500;
    - in [handleGetCredits], an error of either query on
      [credit_purchases] is answered 500. *)
Theorem store_failure_statuses :
  forall (e : env) (w : world) (key : option string) (uid : uuid) (n : nat),
    (let served := run_with_timer e false (analyze key uid) w in
     (existsb check_down (new_events w (snd served)) = true ->
      status (fst served)
      = if timer_fired e w (snd served) then 504%nat else 402%nat)
     /\ ((3 <= count_events failed_write (new_events w (snd served)))%nat ->
         status (fst served)
         = if timer_fired e w (snd served) then 504%nat else 500%nat))
    /\ ((existsb check_down (new_events w (snd (run e (analyze_rpc key uid) w)))
         = true ->
         status (fst (run e (analyze_rpc key uid) w)) = 402%nat)
        /\ ((1 <= count_events failed_write
                    (new_events w (snd (run e (analyze_rpc key uid) w))))%nat ->
            status (fst (run e (analyze_rpc key uid) w)) = 500%nat))
    /\ ((existsb lookup_down
           (new_events w (snd (run e (analyze_batch n key uid) w))) = true ->
         status (fst (run e (analyze_batch n key uid) w)) = 402%nat)
        /\ ((1 <= count_events failed_write
                    (new_events w (snd (run e (analyze_batch n key uid) w))))%nat ->
            status (fst (run e (analyze_batch n key uid) w)) = 500%nat))
    /\ ((1 <= count_events balance_read_failed
                (new_events w (snd (run e (handleGetCredits uid) w))))%nat ->
        status (fst (run e (handleGetCredits uid) w)) = 500%nat).
Proof.
  intros e w key uid n.
  assert (forall to402 to500 thr h,
    on_all_paths anything (watch_failures to402 to500)
      (failures_answered thr) no_failure h ->
    (existsb to402 (new_events w (snd (run e h w))) = true ->
     status (fst (run e h w)) = 402%nat)
    /\ ((thr <= count_events to500 (new_events w (snd (run e h w))))%nat ->
        status (fst (run e h w)) = 500%nat)) as H.
  { intros to402 to500 thr h Hp.
    destruct (@run_on_all_paths _ anything (watch_failures to402 to500)
                (failures_answered thr) (fun _ => True) e (exec_anything e)
                (fun _ _ _ _ => I) h no_failure w I Hp)
      as (t & s' & Et & Eo & [Ha Hb] & _).
    apply observe_failures in Eo as [E4 E5]. simpl in E4, E5.
    rewrite (@new_events_app _ _ _ Et).
    rewrite <- E4, <- E5. split; assumption. }
  split.
  { destruct (run_with_timer_run e (analyze key uid) false w) as [Es Ef].
    cbv zeta. rewrite Es, Ef. cbn [orb].
    destruct (H _ _ _ _ (analyze_failure_paths key uid)) as [H4 H5].
    destruct (timer_fired e w (snd (run e (analyze key uid) w)));
      split; auto. }
  split; [exact (H _ _ _ _ (analyze_rpc_failure_paths key uid)) |].
  split; [exact (H _ _ _ _ (analyze_batch_failure_paths n key uid)) |].
  exact (proj2 (H _ _ _ _ (handleGetCredits_failure_paths uid))).
Qed.

(** The store is unavailable when the [use_credits] version calls
    [use_credits] (its sixth operation): the request is answered 500. *)
Lemma store_failure_statuses_witness :
  status (fst (run (failing_at [5%nat]) (analyze_rpc None 7)
                 (initial [subscribed_purchase 4 completed]))) = 500%nat.
Proof.
  apply (store_failure_statuses (failing_at [5%nat])
           (initial [subscribed_purchase 4 completed]) None 7 1).
  vm_compute. apply le_n.
Defined.

(** ** FIFO deduction *)

Lemma reduce_remaining_sum rows : reduce_remaining rows = sum_remaining rows.
Proof.
  unfold reduce_remaining, sum_remaining.
  assert (forall a, fold_left (fun sum p => sum + remaining_credits p) rows a
                    = a + fold_right (fun p acc => remaining_credits p + acc) 0 rows)
    as H.
  { induction rows as [| p rows IH]; intros a; simpl; [lia |].
    rewrite IH. lia. }
  rewrite H. lia.
Qed.

Lemma id_set_remaining v p :
  Purchase.id (Purchase.set_remaining v p) = Purchase.id p.
Proof. reflexivity. Qed.

Lemma same_id_same_row tbl p q :
  NoDup (map Purchase.id tbl) -> In p tbl -> In q tbl ->
  Purchase.id p = Purchase.id q -> p = q.
Proof.
  induction tbl as [| r tbl IH]; simpl; intros Hn Hp Hq E; [contradiction |].
  inversion Hn as [| ? ? Hnot Hn']; subst.
  destruct Hp as [-> | Hp], Hq as [-> | Hq]; auto.
  - exfalso. apply Hnot. rewrite E. apply in_map. exact Hq.
  - exfalso. apply Hnot. rewrite <- E. apply in_map. exact Hp.
Qed.

Lemma remaining_of_in tbl p :
  NoDup (map Purchase.id tbl) -> In p tbl ->
  remaining_of tbl (Purchase.id p) = remaining_credits p.
Proof.
  induction tbl as [| r tbl IH]; simpl; intros Hn Hp; [contradiction |].
  inversion Hn as [| ? ? Hnot Hn']; subst.
  destruct (Purchase.id r =? Purchase.id p)%nat eqn:E.
  - apply Nat.eqb_eq in E. destruct Hp as [-> | Hp]; auto.
    exfalso. apply Hnot. rewrite E. apply in_map. exact Hp.
  - destruct Hp as [-> | Hp]; [rewrite Nat.eqb_refl in E; discriminate | auto].
Qed.

Lemma update_by_id_ids pid f tbl :
  map Purchase.id (update_by_id pid f tbl) = map Purchase.id tbl.
Proof.
  unfold update_by_id. rewrite map_map. apply map_ext.
  intros p. destruct (Purchase.id p =? pid)%nat; reflexivity.
Qed.

Lemma update_by_id_rows pid f tbl :
  map (Purchase.set_remaining 0) (update_by_id pid f tbl)
  = map (Purchase.set_remaining 0) tbl.
Proof.
  unfold update_by_id. rewrite map_map. apply map_ext.
  intros p. destruct (Purchase.id p =? pid)%nat; reflexivity.
Qed.

Lemma update_by_id_absent pid f tbl :
  ~ In pid (map Purchase.id tbl) -> update_by_id pid f tbl = tbl.
Proof.
  induction tbl as [| r tbl IH]; simpl; intros H; auto.
  destruct (Purchase.id r =? pid)%nat eqn:E.
  - apply Nat.eqb_eq in E. exfalso. apply H. left. exact E.
  - f_equal. apply IH. intros C. apply H. right. exact C.
Qed.

Lemma update_by_id_const m f tbl :
  NoDup (map Purchase.id tbl) -> In m tbl ->
  update_by_id (Purchase.id m) f tbl
  = update_by_id (Purchase.id m) (fun _ => f m) tbl.
Proof.
  intros Hn Hm. unfold update_by_id. apply map_ext_in.
  intros p Hp. destruct (Purchase.id p =? Purchase.id m)%nat eqn:E; auto.
  apply Nat.eqb_eq in E.
  rewrite (same_id_same_row tbl p m Hn Hp Hm E). reflexivity.
Qed.

Lemma remaining_of_update_other pid v tbl j :
  j <> pid ->
  remaining_of (update_by_id pid (fun _ => v) tbl) j = remaining_of tbl j.
Proof.
  intros Hj. induction tbl as [| r tbl IH]; simpl; auto.
  destruct (Purchase.id r =? pid)%nat eqn:E; simpl.
  - apply Nat.eqb_eq in E.
    destruct (Purchase.id r =? j)%nat eqn:F; auto.
    apply Nat.eqb_eq in F. congruence.
  - rewrite IH. reflexivity.
Qed.

Lemma remaining_of_update_same m v tbl :
  In m tbl ->
  remaining_of (update_by_id (Purchase.id m) (fun _ => v) tbl) (Purchase.id m) = v.
Proof.
  induction tbl as [| r tbl IH]; simpl; intros Hm; [contradiction |].
  destruct (Purchase.id r =? Purchase.id m)%nat eqn:E; simpl.
  - rewrite E. reflexivity.
  - rewrite E. destruct Hm as [-> | Hm]; auto.
    rewrite Nat.eqb_refl in E. discriminate.
Qed.

Lemma sum_remaining_update m v tbl :
  NoDup (map Purchase.id tbl) -> In m tbl ->
  sum_remaining (update_by_id (Purchase.id m) (fun _ => v) tbl)
  = sum_remaining tbl - remaining_credits m + v.
Proof.
  induction tbl as [| r tbl IH]; simpl; intros Hn Hm; [contradiction |].
  inversion Hn as [| ? ? Hnot Hn']; subst.
  destruct (Purchase.id r =? Purchase.id m)%nat eqn:E; simpl.
  - apply Nat.eqb_eq in E.
    assert (r = m) as ->.
    { destruct Hm as [-> | Hm]; auto.
      exfalso. apply Hnot. rewrite E. apply in_map. exact Hm. }
    rewrite update_by_id_absent by exact Hnot.
    fold (sum_remaining tbl). lia.
  - destruct Hm as [-> | Hm]; [rewrite Nat.eqb_refl in E; discriminate |].
    fold (sum_remaining (update_by_id (Purchase.id m) (fun _ => v) tbl)).
    fold (sum_remaining tbl). rewrite IH by assumption. lia.
Qed.

Lemma in_update_other pid f tbl p :
  In p tbl -> Purchase.id p <> pid -> In p (update_by_id pid f tbl).
Proof.
  intros Hp Hne. unfold update_by_id. apply in_map_iff.
  exists p. split; auto.
  destruct (Purchase.id p =? pid)%nat eqn:E; auto.
  apply Nat.eqb_eq in E. contradiction.
Qed.

Lemma in_update_same m f tbl :
  In m tbl ->
  In (Purchase.set_remaining (f m) m) (update_by_id (Purchase.id m) f tbl).
Proof.
  intros Hm. unfold update_by_id. apply in_map_iff.
  exists m. rewrite Nat.eqb_refl. auto.
Qed.

Lemma in_update_inv pid f tbl q :
  In q (update_by_id pid f tbl) ->
  (In q tbl /\ Purchase.id q <> pid)
  \/ (exists p, In p tbl /\ Purchase.id p = pid
                /\ q = Purchase.set_remaining (f p) p).
Proof.
  unfold update_by_id. intros H. apply in_map_iff in H as (p & E & Hp).
  destruct (Purchase.id p =? pid)%nat eqn:F.
  - apply Nat.eqb_eq in F. right. exists p. auto.
  - apply Nat.eqb_neq in F. left. subst q. auto.
Qed.

Lemma insert_by_created_at_perm p l :
  Permutation (insert_by_created_at p l) (p :: l).
Proof.
  induction l as [| q l IH]; simpl; auto.
  destruct (created_at p <=? created_at q); auto.
  rewrite IH. apply perm_swap.
Qed.

Lemma order_by_created_at_perm l : Permutation (order_by_created_at l) l.
Proof.
  induction l as [| p l IH]; simpl; auto.
  rewrite insert_by_created_at_perm. auto.
Qed.

Lemma insert_by_created_at_sorted p l :
  StronglySorted older_or_same l ->
  StronglySorted older_or_same (insert_by_created_at p l).
Proof.
  induction l as [| q l IH]; simpl; intros Hs.
  - constructor; auto.
  - inversion Hs as [| ? ? Hl Hq]; subst.
    destruct (created_at p <=? created_at q) eqn:E.
    + apply Z.leb_le in E. constructor; auto.
      constructor; auto.
      eapply Forall_impl; [| exact Hq].
      unfold older_or_same. intros a Ha. lia.
    + apply Z.leb_gt in E. constructor; auto.
      eapply Permutation_Forall.
      * symmetry. apply insert_by_created_at_perm.
      * constructor; auto. unfold older_or_same. lia.
Qed.

Lemma order_by_created_at_sorted l :
  StronglySorted older_or_same (order_by_created_at l).
Proof.
  induction l as [| p l IH]; simpl.
  - constructor.
  - apply insert_by_created_at_sorted. exact IH.
Qed.

Lemma sum_remaining_perm l l' :
  Permutation l l' -> sum_remaining l = sum_remaining l'.
Proof.
  unfold sum_remaining.
  induction 1; simpl; lia.
Qed.


Lemma oldest_is_oldest_active act tbl m :
  oldest (filter act tbl) = data m -> oldest_active act m tbl.
Proof.
  unfold oldest. intros H.
  pose proof (order_by_created_at_perm (filter act tbl)) as Hp.
  pose proof (order_by_created_at_sorted (filter act tbl)) as Hs.
  destruct (order_by_created_at (filter act tbl)) as [| m' rest];
    [discriminate |].
  inversion H; subst m'.
  assert (In m (filter act tbl)) as Hm.
  { eapply Permutation_in; [exact Hp | left; reflexivity]. }
  apply filter_In in Hm as [Hm Ha].
  repeat split; auto.
  intros q Hq Hqa.
  assert (In q (m :: rest)) as Hq'.
  { eapply Permutation_in; [symmetry; exact Hp |].
    apply filter_In. auto. }
  inversion Hs as [| ? ? _ Hall]; subst.
  destruct Hq' as [<- | Hq']; [lia |].
  rewrite Forall_forall in Hall. apply Hall. exact Hq'.
Qed.

Lemma oldest_none l e : oldest l = error e -> l = [].
Proof.
  unfold oldest. intros H.
  pose proof (order_by_created_at_perm l) as Hp.
  destruct (order_by_created_at l); [| discriminate].
  apply Permutation_nil in Hp. exact Hp.
Qed.

Section Fifo.
Variable act : purchase -> bool.
Hypothesis act_positive : forall p, act p = true -> 0 < remaining_credits p.
Hypothesis act_zero : forall p, act (Purchase.set_remaining 0 p) = false.

Lemma fifo_last_step tbl m n :
  NoDup (map Purchase.id tbl) -> oldest_active act m tbl ->
  0 < n <= remaining_credits m ->
  fifo_consumed act n tbl
    (update_by_id (Purchase.id m) (fun _ => remaining_credits m - n) tbl).
Proof.
  intros Hn (Hm & Ha & Hmin) Hle.
  assert (forall p, In p tbl -> Purchase.id p <> Purchase.id m ->
            remaining_of (update_by_id (Purchase.id m)
                            (fun _ => remaining_credits m - n) tbl)
              (Purchase.id p) = remaining_credits p) as Hother.
  { intros p Hp Hne. rewrite remaining_of_update_other by exact Hne.
    apply remaining_of_in; assumption. }
  constructor.
  - apply update_by_id_rows.
  - rewrite sum_remaining_update by assumption. lia.
  - intros p Hp Hpa. apply Hother; auto.
    intros E. rewrite (same_id_same_row tbl p m Hn Hp Hm E) in Hpa. congruence.
  - intros p Hp Hpa.
    destruct (Nat.eq_dec (Purchase.id p) (Purchase.id m)) as [E | E].
    + rewrite E, remaining_of_update_same by assumption.
      rewrite (same_id_same_row tbl p m Hn Hp Hm E). lia.
    + rewrite Hother by assumption. apply act_positive in Hpa. lia.
  - intros p q Hp Hq Hpa Hqa Hlt Hdec.
    destruct (Nat.eq_dec (Purchase.id q) (Purchase.id m)) as [E | E].
    + rewrite (same_id_same_row tbl q m Hn Hq Hm E) in Hlt.
      specialize (Hmin p Hp Hpa). lia.
    + rewrite Hother in Hdec by assumption. lia.
Qed.

Lemma fifo_more_step tbl m n tbl' :
  NoDup (map Purchase.id tbl) -> oldest_active act m tbl ->
  remaining_credits m < n ->
  fifo_consumed act (n - remaining_credits m)
    (update_by_id (Purchase.id m) (fun _ => 0) tbl) tbl' ->
  fifo_consumed act n tbl tbl'.
Proof.
  intros Hn (Hm & Ha & Hmin) Hlt [Hrows Htot Hkept Hbnd Hfifo].
  assert (remaining_of tbl' (Purchase.id m) = 0) as Hzero.
  { rewrite <- (id_set_remaining 0 m). rewrite Hkept; auto.
    apply (in_update_same m (fun _ => 0) tbl Hm). }
  assert (forall p, In p tbl -> Purchase.id p <> Purchase.id m ->
            In p (update_by_id (Purchase.id m) (fun _ => 0) tbl)) as Hin.
  { intros p Hp Hne. apply in_update_other; assumption. }
  constructor.
  - rewrite Hrows. apply update_by_id_rows.
  - rewrite Htot, sum_remaining_update by assumption. lia.
  - intros p Hp Hpa. apply Hkept; auto. apply Hin; auto.
    intros E. rewrite (same_id_same_row tbl p m Hn Hp Hm E) in Hpa. congruence.
  - intros p Hp Hpa.
    destruct (Nat.eq_dec (Purchase.id p) (Purchase.id m)) as [E | E].
    + rewrite E, Hzero. rewrite (same_id_same_row tbl p m Hn Hp Hm E).
      apply act_positive in Ha. lia.
    + apply Hbnd; auto.
  - intros p q Hp Hq Hpa Hqa Hc Hdec.
    destruct (Nat.eq_dec (Purchase.id p) (Purchase.id m)) as [E | E];
      [rewrite E; exact Hzero |].
    destruct (Nat.eq_dec (Purchase.id q) (Purchase.id m)) as [F | F].
    + rewrite (same_id_same_row tbl q m Hn Hq Hm F) in Hc.
      specialize (Hmin p Hp Hpa). lia.
    + apply (Hfifo p q); auto.
Qed.

Lemma sum_active_zeroed tbl m :
  NoDup (map Purchase.id tbl) -> In m tbl -> act m = true ->
  sum_remaining (filter act (update_by_id (Purchase.id m) (fun _ => 0) tbl))
  = sum_remaining (filter act tbl) - remaining_credits m.
Proof.
  induction tbl as [| r tbl IH]; simpl; intros Hn Hm Ha; [contradiction |].
  inversion Hn as [| ? ? Hnot Hn']; subst.
  destruct (Purchase.id r =? Purchase.id m)%nat eqn:E.
  - apply Nat.eqb_eq in E.
    assert (r = m) as ->.
    { destruct Hm as [-> | Hm]; auto.
      exfalso. apply Hnot. rewrite E. apply in_map. exact Hm. }
    rewrite act_zero, Ha. rewrite update_by_id_absent by exact Hnot.
    simpl. fold (sum_remaining (filter act tbl)). lia.
  - destruct Hm as [-> | Hm]; [rewrite Nat.eqb_refl in E; discriminate |].
    destruct (act r); simpl;
      fold (sum_remaining (filter act
              (update_by_id (Purchase.id m) (fun _ => 0) tbl)));
      fold (sum_remaining (filter act tbl));
      rewrite IH by assumption; lia.
Qed.
End Fifo.

Lemma sql_active_positive uid now p :
  sql_active uid now p = true -> 0 < remaining_credits p.
Proof.
  unfold sql_active. intros H.
  apply andb_true_iff in H as [_ H]. apply Z.ltb_lt in H. exact H.
Qed.

Lemma sql_active_zero uid now p :
  sql_active uid now (Purchase.set_remaining 0 p) = false.
Proof. unfold sql_active. simpl. apply andb_false_r. Qed.

Lemma js_active_positive uid now p :
  js_active uid now p = true -> 0 < remaining_credits p.
Proof.
  unfold js_active. intros H.
  apply andb_true_iff in H as [H _]. apply andb_true_iff in H as [_ H].
  apply Z.ltb_lt in H. exact H.
Qed.

Lemma js_active_zero uid now p :
  js_active uid now (Purchase.set_remaining 0 p) = false.
Proof. unfold js_active. simpl. rewrite andb_false_r. reflexivity. Qed.

Section StoreUp.
Variable e : env.
Hypothesis store_up : forall i, store_fails e i = false.

Lemma run_select_oldest uid now (k : reply purchase -> prog response) w :
  exists w1,
    run e (Vis (select_oldest uid now) k) w
    = run e (k (oldest (filter (js_active uid now) (credit_purchases w)))) w1
    /\ credit_purchases w1 = credit_purchases w.
Proof.
  simpl. unfold exec. simpl. rewrite store_up.
  eexists. split; reflexivity.
Qed.

Lemma run_update_remaining pid v (k : option db_error -> prog response) w :
  exists w1,
    run e (Vis (update_remaining pid v) k) w = run e (k None) w1
    /\ credit_purchases w1
       = update_by_id pid (fun _ => v) (credit_purchases w).
Proof.
  simpl. unfold exec. simpl. rewrite store_up.
  eexists. split; reflexivity.
Qed.

Lemma run_log_usage_rows responses u (k : prog response) :
  Forall (fun r : option string => r <> None) responses ->
  forall w, exists w1,
    run e (log_usage_rows responses u k) w = run e k w1
    /\ credit_purchases w1 = credit_purchases w.
Proof.
  induction 1 as [| [text |] responses Hr Hrs IH]; intros w;
    cbn [log_usage_rows]; [exists w; auto | | congruence].
  cbn [run]. unfold exec. simpl. rewrite store_up.
  match goal with |- context [run e _ ?w0] =>
    destruct (IH w0) as (w1 & E & Hw) end.
  exists w1. split; [exact E | exact Hw].
Qed.

Lemma responses_charged_text len (results : nat -> completion) a b :
  (forall i, content (results i) <> None) ->
  Forall (fun r : option string => r <> None) (responses_charged len results a b).
Proof.
  intros H. unfold responses_charged. apply Forall_map, Forall_forall.
  intros i _. apply H.
Qed.

(** The loop of [analyze-batch] on a sufficient balance, when every reply
    has a text: it reaches the rest of the handler, and has taken the
    credits oldest first. *)
Lemma deduct_batch_fifo uid now len (results : nat -> completion)
    (k : prog response) fuel :
  (forall i, content (results i) <> None) ->
  forall n w,
    (Z.to_nat n <= fuel)%nat ->
    NoDup (map Purchase.id (credit_purchases w)) ->
    0 < n <= sum_remaining (filter (js_active uid now) (credit_purchases w)) ->
    exists w',
      run e (deduct_batch fuel uid now len results n k) w = run e k w'
      /\ fifo_consumed (js_active uid now) n (credit_purchases w)
           (credit_purchases w').
Proof.
  intros Htext.
  induction fuel as [| fuel IH]; intros n w Hfuel Hn Hle; [lia |].
  cbn [deduct_batch].
  destruct (n <=? 0) eqn:E0; [apply Z.leb_le in E0; lia |].
  match goal with |- context [run e (Vis (select_oldest uid now) ?k0) w] =>
    destruct (run_select_oldest uid now k0 w) as (w1 & E1 & T1) end.
  rewrite E1. clear E1.
  destruct (oldest (filter (js_active uid now) (credit_purchases w)))
    as [m | err] eqn:Eo.
  2: { apply oldest_none in Eo. rewrite Eo in Hle. simpl in Hle. lia. }
  apply oldest_is_oldest_active in Eo.
  pose proof Eo as (Hm & Ha & Hmin).
  pose proof (js_active_positive uid now m Ha) as Hpos.
  match goal with |- context [run e (Vis (update_remaining ?pid ?v) ?k0) w1] =>
    destruct (run_update_remaining pid v k0 w1) as (w2 & E2 & T2) end.
  rewrite E2. clear E2. rewrite T1 in T2.
  match goal with |- context [run e (log_usage_rows ?j ?u ?k0) w2] =>
    destruct (run_log_usage_rows j u k0 (responses_charged_text _ _ _ _ Htext) w2)
      as (w3 & E3 & T3) end.
  rewrite E3. clear E3. rewrite T2 in T3.
  destruct (Z.le_gt_cases n (remaining_credits m)) as [Hcase | Hcase].
  - rewrite Z.min_l in * by exact Hcase.
    rewrite Z.sub_diag.
    exists w3. split.
    + destruct fuel; reflexivity.
    + rewrite T3.
      apply (fifo_last_step (js_active uid now) (js_active_positive uid now));
        auto. lia.
  - rewrite Z.min_r in * by lia.
    rewrite Z.sub_diag in T3.
    destruct (IH (n - remaining_credits m) w3) as (w' & E' & F').
    + lia.
    + rewrite T3, update_by_id_ids. exact Hn.
    + rewrite T3.
      rewrite (sum_active_zeroed (js_active uid now) (js_active_zero uid now))
        by assumption.
      lia.
    + exists w'. split; [exact E' |].
      apply (fifo_more_step (js_active uid now) (js_active_positive uid now)
               (js_active_zero uid now) _ m); auto.
      rewrite <- T3. exact F'.
Qed.
End StoreUp.

Lemma sum_over_ext (f g : purchase -> Z) l :
  (forall p, In p l -> f p = g p) ->
  fold_right (fun p acc => f p + acc) 0 l
  = fold_right (fun p acc => g p + acc) 0 l.
Proof.
  induction l as [| r l IH]; simpl; intros H; auto.
  rewrite H by (left; reflexivity). rewrite IH; auto.
Qed.

(** From the characterisation to the two-purchase case. *)
Lemma sum_remaining_by_id tbl' :
  forall tbl,
    map (Purchase.set_remaining 0) tbl' = map (Purchase.set_remaining 0) tbl ->
    NoDup (map Purchase.id tbl) ->
    sum_remaining tbl'
    = fold_right (fun p acc => remaining_of tbl' (Purchase.id p) + acc) 0 tbl.
Proof.
  induction tbl' as [| r' tbl' IH]; intros [| r tbl] E Hn; cbn [map] in E;
    try discriminate; auto.
  pose proof (f_equal (@tl _) E) as Et. cbn [tl] in Et.
  pose proof (f_equal (fun l => map Purchase.id l) E) as Eid.
  cbn [map] in Eid. rewrite !id_set_remaining in Eid.
  injection Eid as Eid _.
  inversion Hn as [| ? ? Hnot Hn']; subst.
  cbn [sum_remaining fold_right remaining_of].
  rewrite Eid, Nat.eqb_refl. f_equal.
  fold (sum_remaining tbl'). rewrite (IH tbl Et Hn').
  apply sum_over_ext.
  intros p Hp.
  destruct (Purchase.id r =? Purchase.id p)%nat eqn:F; auto.
  apply Nat.eqb_eq in F. exfalso. apply Hnot. rewrite F. apply in_map. exact Hp.
Qed.

Lemma sum_over_two (g : purchase -> Z) tbl a b :
  NoDup (map Purchase.id tbl) -> In a tbl -> In b tbl ->
  Purchase.id a <> Purchase.id b ->
  (forall p, In p tbl -> Purchase.id p <> Purchase.id a ->
             Purchase.id p <> Purchase.id b -> g p = 0) ->
  fold_right (fun p acc => g p + acc) 0 tbl = g a + g b.
Proof.
  assert (forall l c, ~ In (Purchase.id c) (map Purchase.id l) ->
            (forall p, In p l -> Purchase.id p <> Purchase.id c -> g p = 0) ->
            fold_right (fun p acc => g p + acc) 0 l = 0) as Hnone.
  { induction l as [| r l IH]; simpl; intros c Hc Hz; auto.
    rewrite (IH c); auto. rewrite Hz; auto. }
  assert (forall l c, NoDup (map Purchase.id l) -> In c l ->
            (forall p, In p l -> Purchase.id p <> Purchase.id c -> g p = 0) ->
            fold_right (fun p acc => g p + acc) 0 l = g c) as Hone.
  { induction l as [| r l IH]; simpl; intros c Hn Hc Hz; [contradiction |].
    inversion Hn as [| ? ? Hnot Hn']; subst.
    destruct Hc as [-> | Hc].
    - rewrite (Hnone l c); auto. lia.
    - rewrite (IH c); auto. rewrite Hz; auto.
      intros E. apply Hnot. rewrite E. apply in_map. exact Hc. }
  induction tbl as [| r tbl IH]; simpl; intros Hn Ha Hb Hne Hz; [contradiction |].
  inversion Hn as [| ? ? Hnot Hn']; subst.
  destruct Ha as [-> | Ha], Hb as [-> | Hb].
  - congruence.
  - rewrite (Hone tbl b); auto.
    intros p Hp Hpb. apply Hz; auto.
    intros E. apply Hnot. rewrite <- E. apply in_map. exact Hp.
  - rewrite (Hone tbl a); auto; [lia |].
    intros p Hp Hpa. apply Hz; auto.
    intros E. apply Hnot. rewrite <- E. apply in_map. exact Hp.
  - rewrite IH; auto. rewrite Hz; auto.
    + intros E. apply Hnot. rewrite E. apply in_map. exact Ha.
    + intros E. apply Hnot. rewrite E. apply in_map. exact Hb.
Qed.

Lemma sum_remaining_fold tbl :
  sum_remaining tbl = fold_right (fun p acc => remaining_credits p + acc) 0 tbl.
Proof. reflexivity. Qed.

Lemma sum_over_sub (f g : purchase -> Z) l :
  fold_right (fun p acc => (f p - g p) + acc) 0 l
  = fold_right (fun p acc => f p + acc) 0 l
    - fold_right (fun p acc => g p + acc) 0 l.
Proof. induction l as [| r l IH]; simpl; lia. Qed.

Lemma fifo_crosses_boundary act n tbl tbl' :
  NoDup (map Purchase.id tbl) ->
  fifo_consumed act n tbl tbl' -> boundary_crossed act n tbl tbl'.
Proof.
  intros Hn [Hrows Htot Hkept Hbnd Hfifo] P1 P2 H1 H2 A1 A2 Honly Hc Hle.
  assert (Purchase.id P1 <> Purchase.id P2) as Hne.
  { intros E. rewrite (same_id_same_row tbl P1 P2 Hn H1 H2 E) in Hc. lia. }
  pose proof (sum_remaining_by_id tbl' tbl Hrows Hn) as Hsum.
  pose proof (sum_over_two
                (fun p => remaining_credits p - remaining_of tbl' (Purchase.id p))
                tbl P1 P2 Hn H1 H2 Hne) as Htwo.
  cbv beta in Htwo.
  rewrite sum_over_sub, <- sum_remaining_fold, <- Hsum, Htot in Htwo.
  assert (remaining_credits P1 - remaining_of tbl' (Purchase.id P1)
          + (remaining_credits P2 - remaining_of tbl' (Purchase.id P2)) = n)
    as Hn'.
  { rewrite <- Htwo; [lia |].
    intros p Hp Hp1 Hp2.
    destruct (act p) eqn:Ap.
    - destruct (Honly p Hp Ap) as [-> | ->]; congruence.
    - rewrite (Hkept p Hp Ap). lia. }
  pose proof (Hbnd P1 H1 A1) as B1. pose proof (Hbnd P2 H2 A2) as B2.
  assert (remaining_of tbl' (Purchase.id P1) = 0) as Z1.
  { apply (Hfifo P1 P2); auto. lia. }
  split; [exact Z1 | lia].
Qed.

(** Where every purchase that the handler's filter selects is a paid one,
    the loop of [analyze-batch] does consume as the specification says: run
    without interference from a table with distinct row ids, with the store
    up and a text in every reply, on a balance that covers [n], it reaches
    the rest of the handler and has taken exactly [n] credits in total from
    the rows selected, in ascending [created_at] order, crossing from a
    purchase to the next when the older one does not cover [n]. *)
Lemma batch_loop_is_fifo :
  forall (tbl : list purchase) (uid : uuid) (now : timestamp) (n : Z),
    NoDup (map Purchase.id tbl) -> 0 < n ->
    n <= sum_remaining (filter (js_active uid now) tbl) ->
    forall (e : env) (w : world) (len : nat) (results : nat -> completion)
           (k : prog response),
      (forall i, store_fails e i = false) ->
      (forall i, content (results i) <> None) ->
      credit_purchases w = tbl ->
      exists w',
        run e (deduct_batch (Z.to_nat n) uid now len results n k) w = run e k w'
        /\ fifo_consumed (js_active uid now) n tbl (credit_purchases w')
        /\ boundary_crossed (js_active uid now) n tbl (credit_purchases w').
Proof.
  intros tbl uid now n Hn Hpos Hle e w len results k Hup Htext <-.
  destruct (deduct_batch_fifo e Hup uid now len results k (Z.to_nat n) Htext n w)
    as (w' & E & Hf); auto.
  exists w'. split; [exact E |].
  split; [exact Hf | apply fifo_crosses_boundary; assumption].
Qed.

(** The example of the specification: 1 credit in the older purchase, 10 in
    the newer one, 3 images charged by [analyze-batch]: 0 and 8 are left. *)
Lemma batch_loop_crosses_boundary :
  map remaining_credits
    (credit_purchases (snd (run (calm 10) (analyze_batch 3 None 7)
                              (initial two_purchases))))
  = [8; 0].
Proof. reflexivity. Qed.

(** C2.  Neither implementation consumes as the claim says.  [use_credits]
    on the example of the specification (1 credit in the older purchase, 10
    in the newer one, 3 to consume) raises 42702 at the query of its loop
    and takes nothing: both purchases are as they were.  The loop of
    [analyze-batch], asked for 3 credits by a user whose older purchase is
    still pending and whose newer purchase is paid, takes the 3 credits
    from the pending purchase, which is not eligible, and leaves the paid
    one untouched; the request is answered 200. *)
Theorem consume_is_not_fifo_over_eligible :
  use_credits two_purchases 7 3 false 10 = (raised "42702"%string, two_purchases)
  /\ (let served := run (calm 10) (analyze_batch 3 None 7)
                      (initial pending_then_paid) in
      status (fst served) = 200%nat
      /\ map payment_status (credit_purchases (snd served))
         = [pending; completed]
      /\ map remaining_credits pending_then_paid = [5; 10]
      /\ map remaining_credits (credit_purchases (snd served)) = [2; 10]).
Proof. repeat split. Qed.

(** ** Concurrent requests under the optimistic lock *)














Lemma cas_absent pid expected newv tbl :
  ~ In pid (map Purchase.id tbl) ->
  filter (cas_matches pid expected) tbl = []
  /\ map (fun p => if cas_matches pid expected p
                   then Purchase.set_remaining newv p else p) tbl = tbl.
Proof.
  induction tbl as [| r tbl IH]; simpl; intros H; auto.
  assert (cas_matches pid expected r = false) as E.
  { unfold cas_matches. destruct (Purchase.id r =? pid)%nat eqn:F; auto.
    apply Nat.eqb_eq in F. exfalso. apply H. left. exact F. }
  rewrite E. destruct IH as [A B]; [intros C; apply H; right; exact C |].
  rewrite A, B. auto.
Qed.

(** With distinct ids, the conditional update matches no row, or the one
    row [pid], which then holds the value expected. *)
Lemma cas_table pid expected newv tbl :
  NoDup (map Purchase.id tbl) ->
  (filter (cas_matches pid expected) tbl = []
   /\ map (fun p => if cas_matches pid expected p
                    then Purchase.set_remaining newv p else p) tbl = tbl)
  \/ (exists q,
        filter (cas_matches pid expected) tbl = [q]
        /\ In q tbl /\ Purchase.id q = pid /\ remaining_credits q = expected
        /\ map (fun p => if cas_matches pid expected p
                         then Purchase.set_remaining newv p else p) tbl
           = update_by_id pid (fun _ => newv) tbl).
Proof.
  induction tbl as [| r tbl IH]; intros Hn; [left; auto |].
  inversion Hn as [| ? ? Hnot Hn']; subst. cbn [filter map].
  destruct (cas_matches pid expected r) eqn:E.
  - right. exists r. unfold cas_matches in E.
    apply andb_true_iff in E as [Ei Er].
    apply Nat.eqb_eq in Ei. apply Z.eqb_eq in Er.
    rewrite Ei in Hnot.
    destruct (cas_absent pid expected newv tbl Hnot) as [A B].
    rewrite A, B. cbn [update_by_id map]. rewrite Ei, Nat.eqb_refl.
    fold (update_by_id pid (fun _ => newv) tbl).
    rewrite update_by_id_absent by exact Hnot.
    repeat split; auto. left. reflexivity.
  - destruct (IH Hn') as [[A B] | (q & A & Hq & Ei & Er & B)].
    + left. rewrite A, B. auto.
    + right. exists q. rewrite A, B. cbn [update_by_id map].
      fold (update_by_id pid (fun _ => newv) tbl).
      destruct (Purchase.id r =? pid)%nat eqn:F.
      * apply Nat.eqb_eq in F. exfalso. apply Hnot. rewrite F, <- Ei.
        apply in_map. exact Hq.
      * repeat split; auto. right. exact Hq.
Qed.






















(** ** The fuel of the batch loop *)

Lemma exec_lookup_positive e X (o : op X) (w : world) :
  (fun _ : world => True) w -> lookup_positive o (fst (exec e o w)).
Proof.
  intros _. unfold exec. destruct o; cbn; try exact I.
  destruct (store_fails e (tick w)); cbn; [exact I |].
  destruct (oldest (filter (js_active uid now) (credit_purchases w)))
    as [p | err] eqn:E; [| exact I].
  apply oldest_is_oldest_active in E as (_ & Ha & _).
  eapply js_active_positive. exact Ha.
Qed.

Lemma log_usage_rows_fuel responses u k :
  on_all_paths lookup_positive watch_all not_out_of_fuel tt k ->
  on_all_paths lookup_positive watch_all not_out_of_fuel tt
    (log_usage_rows responses u k).
Proof.
  intros Hk. apply log_usage_rows_paths; auto. discriminate.
Qed.

Lemma deduct_batch_fuel uid now len results k fuel :
  on_all_paths lookup_positive watch_all not_out_of_fuel tt k ->
  forall n,
    (Z.to_nat n <= fuel)%nat ->
    on_all_paths lookup_positive watch_all not_out_of_fuel tt
      (deduct_batch fuel uid now len results n k).
Proof.
  intros Hk. induction fuel as [| fuel IH]; intros n Hf; cbn [deduct_batch];
    destruct (n <=? 0) eqn:E; auto; apply Z.leb_gt in E; [lia |].
  cbn. intros [p | err] Hp; cbn; [| discriminate].
  intros [err |] _; cbn; [discriminate |].
  apply log_usage_rows_fuel. apply IH. lia.
Qed.

(** The loop of [analyze-batch] never uses up its fuel: every request gets
    a response of the handler. *)
Lemma analyze_batch_fuel e w n key uid :
  status (fst (run e (analyze_batch n key uid) w)) <> 0%nat.
Proof.
  assert (on_all_paths lookup_positive watch_all not_out_of_fuel tt
            (analyze_batch n key uid)) as Hp.
  { assert (forall st, status (catch_block st) <> 0%nat) as Hc.
    { intros st. destruct (catch_block_status st) as [H | H]; rewrite H;
        discriminate. }
    unfold analyze_batch. destruct (truthy key); cbn.
    - intros [results | st] _; cbn; [| apply Hc].
      apply log_usage_rows_fuel. cbn. discriminate.
    - intros now _. cbn. intros r _.
      destruct (available_of r <? Z.of_nat n); cbn; [discriminate |].
      intros [results | st] _; cbn; [| apply Hc].
      intros now' _. apply deduct_batch_fuel; [| lia].
      cbn. intros r' _. discriminate. }
  destruct (@run_on_all_paths _ lookup_positive watch_all not_out_of_fuel
              (fun _ => True) e (exec_lookup_positive e) (fun _ _ _ _ => I)
              _ tt w I Hp) as (t & s' & _ & _ & Ha & _).
  exact Ha.
Qed.

(** ** Where the handlers and the database functions agree *)

Lemma filters_agree (f g : purchase -> bool) tbl :
  (forall p, In p tbl -> f p = g p) -> filter f tbl = filter g tbl.
Proof. intros H. apply filter_ext_in. exact H. Qed.

(** On a table where every purchase is paid, [handleGetCredits] reports
    the sum that [get_available_credits] computes, which that function
    returns when an [INTEGER] can hold it. *)
Lemma handleGetCredits_on_completed e w uid :
  store_fails e (S (tick w)) = false ->
  store_fails e (S (S (tick w))) = false ->
  (forall p, In p (credit_purchases w) -> is_completed p = true) ->
  fst (run e (handleGetCredits uid) w)
  = respond_ok (Some (sum_remaining
                        (filter (sql_active uid (clock e (tick w)))
                           (credit_purchases w))))
  /\ (sum_remaining (filter (sql_active uid (clock e (tick w)))
                       (credit_purchases w)) <= INTEGER_MAX ->
      get_available_credits (credit_purchases w) uid (clock e (tick w))
      = returned (sum_remaining
                    (filter (sql_active uid (clock e (tick w)))
                       (credit_purchases w)))).
Proof.
  intros H1 H2 Hc. split.
  2: { intros Hle. unfold get_available_credits, sum_into_INTEGER.
       destruct (INTEGER_MAX <? _) eqn:E; [apply Z.ltb_lt in E; lia | reflexivity]. }
  unfold handleGetCredits.
  cbn. unfold exec. cbn. rewrite H1. cbn. rewrite H2. cbn.
  rewrite (filters_agree (sql_active uid (clock e (tick w)))
             (js_active_strict uid (clock e (tick w)))).
  - rewrite reduce_remaining_sum.
    destruct (filter (js_active_strict uid (clock e (tick w)))
                (credit_purchases w)); reflexivity.
  - intros p Hp. unfold sql_active, js_active_strict.
    rewrite (Hc p Hp), andb_true_r. reflexivity.
Qed.

(** ** Rate limiting *)

Lemma store_get_set_same key v m : store_get key (store_set key v m) = Some v.
Proof.
  induction m as [|[k v0] m IH]; simpl.
  - rewrite String.eqb_refl. reflexivity.
  - destruct (String.eqb k key) eqn:E; simpl; rewrite E; auto.
Qed.

Lemma store_get_set_other key k v m :
  k <> key -> store_get k (store_set key v m) = store_get k m.
Proof.
  intros Hk. induction m as [|[k0 v0] m IH]; simpl.
  - destruct (String.eqb key k) eqn:E; auto.
    apply String.eqb_eq in E. congruence.
  - destruct (String.eqb k0 key) eqn:E; simpl.
    + apply String.eqb_eq in E. subst k0.
      destruct (String.eqb key k) eqn:E'; auto.
      apply String.eqb_eq in E'. congruence.
    + destruct (String.eqb k0 k); auto.
Qed.

Lemma store_set_keys key v m :
  NoDup (map fst m) -> NoDup (map fst (store_set key v m)).
Proof.
  induction m as [|[k v0] m IH]; simpl; intros Hn.
  - constructor; [simpl; tauto | constructor].
  - inversion Hn as [|? ? Hnot Hrest]; subst.
    destruct (String.eqb k key) eqn:E; simpl.
    + constructor; assumption.
    + constructor; [|auto].
      intros Hin. apply Hnot. clear - Hin E.
      induction m as [|[k1 v1] m IH]; simpl in *.
      * destruct Hin as [Hin|[]]. subst. rewrite String.eqb_refl in E. discriminate.
      * destruct (String.eqb k1 key); simpl in Hin; tauto.
Qed.

Lemma filter_window_twice ws (l : list Z) :
  filter (fun t => ws <? t) (filter (fun t => ws <? t) l)
  = filter (fun t => ws <? t) l.
Proof.
  induction l as [|t l IH]; simpl; auto.
  destruct (ws <? t) eqn:E; simpl; [rewrite E|]; congruence.
Qed.

Lemma store_get_clean_up_absent ws k m :
  ~ In k (map fst m) -> store_get k (clean_up ws m) = None.
Proof.
  unfold clean_up. induction m as [|[k0 v0] m IH]; simpl; intros Hn; auto.
  destruct (negb _); simpl; [|tauto].
  destruct (String.eqb k0 k) eqn:E; [|tauto].
  apply String.eqb_eq in E. tauto.
Qed.

Lemma recorded_clean_up ws k m :
  NoDup (map fst m) ->
  recorded k (clean_up ws m) = filter (fun t => ws <? t) (recorded k m).
Proof.
  unfold recorded. induction m as [|[k0 v0] m IH]; simpl; intros Hn; auto.
  inversion Hn as [|? ? Hnot Hrest]; subst.
  unfold clean_up in *. simpl.
  destruct (filter (fun t => ws <? t) v0) as [|t f] eqn:F; simpl.
  - destruct (String.eqb k0 k) eqn:E; [|auto].
    apply String.eqb_eq in E. subst k0.
    fold (clean_up ws m). rewrite (store_get_clean_up_absent ws k m Hnot).
    congruence.
  - destruct (String.eqb k0 k) eqn:E; [congruence | auto].
Qed.

Lemma recorded_clean_up_kept ws k m :
  filter (fun t => ws <? t) (recorded k m) <> [] ->
  recorded k (clean_up ws m) = filter (fun t => ws <? t) (recorded k m).
Proof.
  unfold recorded, clean_up. induction m as [|[k0 v0] m IH]; simpl; intros Hne; auto.
  destruct (String.eqb k0 k) eqn:E.
  - destruct (filter (fun t => ws <? t) v0) as [|t f] eqn:F; [congruence|].
    simpl. rewrite E. reflexivity.
  - destruct (negb _); simpl; [rewrite E|]; auto.
Qed.

Lemma clean_up_keys ws m : NoDup (map fst m) -> NoDup (map fst (clean_up ws m)).
Proof.
  unfold clean_up. induction m as [|[k v] m IH]; simpl; intros Hn; [constructor|].
  inversion Hn as [|? ? Hnot Hrest]; subst.
  destruct (negb _); simpl; [|auto].
  constructor; [|auto].
  intros Hin. apply Hnot. clear - Hin.
  induction m as [|[k1 v1] m IH]; simpl in *; [tauto|].
  destruct (negb _); simpl in Hin; tauto.
Qed.

(** What a call leaves recorded for its own key. *)
Lemma rateLimit_recorded store userId endpoint now cleaning :
  let key := (userId ++ ":" ++ endpoint)%string in
  let recent := filter (fun t => now - 60000 <? t) (recorded key store) in
  recorded key (snd (rateLimit store userId endpoint now cleaning))
  = if allowed (fst (rateLimit store userId endpoint now cleaning))
    then recent ++ [now] else recorded key store.
Proof.
  intros key recent. unfold rateLimit. fold key. fold recent.
  destruct (MAX_REQUESTS_PER_MINUTE <=? List.length recent)%nat; simpl; auto.
  assert (Hf : filter (fun t => now - 60000 <? t) (recent ++ [now]) = recent ++ [now]).
  { rewrite filter_app. unfold recent at 1. rewrite filter_window_twice.
    simpl. replace (now - 60000 <? now) with true by (symmetry; apply Z.ltb_lt; lia).
    reflexivity. }
  assert (Hg : recorded key (store_set key (recent ++ [now]) store) = recent ++ [now]).
  { unfold recorded. rewrite store_get_set_same. reflexivity. }
  destruct cleaning; auto.
  rewrite recorded_clean_up_kept; rewrite Hg, Hf; auto.
  destruct recent; discriminate.
Qed.

(** X1.  A request beyond the limit is refused without being counted: when
    [rateLimit] answers [allowed: false] the store is left as it was, the
    key already has 30 requests in the last minute, and [retryAfter] is at
    least one second (and at most 60 when no recorded instant is in the
    future). *)
Theorem rateLimit_refusal :
  forall store userId endpoint now cleaning,
    let key := (userId ++ ":" ++ endpoint)%string in
    let r := rateLimit store userId endpoint now cleaning in
    allowed (fst r) = false ->
    snd r = store
    /\ (30 <= List.length (filter (fun t => (now - 60000 <? t)%Z)
                             (recorded key store)))%nat
    /\ exists s, retryAfter (fst r) = Some s /\ 1 <= s
         /\ (Forall (fun t => t <= now) (recorded key store) -> s <= 60).
Proof.
  intros store userId endpoint now cleaning key r. subst r.
  unfold rateLimit. fold key.
  set (recent := filter (fun t => now - 60000 <? t) (recorded key store)).
  destruct (MAX_REQUESTS_PER_MINUTE <=? List.length recent)%nat eqn:E;
    simpl; [intros _ | discriminate].
  apply Nat.leb_le in E. unfold MAX_REQUESTS_PER_MINUTE in E.
  split; [reflexivity | split; [exact E|]].
  eexists. split; [reflexivity|].
  destruct recent as [|t0 rest] eqn:R; [simpl in E; lia|]. simpl hd.
  assert (Hin : In t0 recent) by (rewrite R; left; reflexivity).
  unfold recent in Hin. apply filter_In in Hin. destruct Hin as [Hin Hw].
  apply Z.ltb_lt in Hw. unfold ceil_div.
  split.
  - assert (- (t0 + 60000 - now) / 1000 < 0)
      by (apply Z.div_lt_upper_bound; lia). lia.
  - intros Hall. rewrite Forall_forall in Hall. specialize (Hall _ Hin).
    assert (- 60 <= - (t0 + 60000 - now) / 1000)
      by (apply Z.div_le_lower_bound; lia). lia.
Qed.

Lemma rateLimit_refusal_witness :
  snd (rateLimit [("u:analyze"%string, repeat 5 30)] "u" "analyze" 1000 true)
  = [("u:analyze"%string, repeat 5 30)].
Proof.
  apply (rateLimit_refusal [("u:analyze"%string, repeat 5 30)] "u" "analyze"
           1000 true).
  reflexivity.
Defined.

(** X2.  A request that is let through is counted: the key then holds the
    requests of the last minute followed by this one, at most 30 in all and
    none older than a minute, whether or not the call cleans the store. *)
Theorem rateLimit_counts_allowed :
  forall store userId endpoint now cleaning,
    let key := (userId ++ ":" ++ endpoint)%string in
    let r := rateLimit store userId endpoint now cleaning in
    allowed (fst r) = true ->
    recorded key (snd r)
    = filter (fun t => now - 60000 <? t) (recorded key store) ++ [now]
    /\ (List.length (recorded key (snd r)) <= 30)%nat
    /\ Forall (fun t => now - 60000 < t) (recorded key (snd r)).
Proof.
  intros store userId endpoint now cleaning key r Hr. subst r.
  pose proof (rateLimit_recorded store userId endpoint now cleaning) as Hrec.
  cbv zeta in Hrec. fold key in Hrec. rewrite Hr in Hrec.
  rewrite Hrec. split; [reflexivity|].
  unfold rateLimit in Hr. fold key in Hr.
  destruct (MAX_REQUESTS_PER_MINUTE <=? _)%nat eqn:E; [discriminate|].
  apply Nat.leb_gt in E. unfold MAX_REQUESTS_PER_MINUTE in E.
  split.
  - rewrite length_app. simpl. lia.
  - apply Forall_app. split.
    + apply Forall_forall. intros t Ht. apply filter_In in Ht.
      apply Z.ltb_lt. tauto.
    + constructor; [lia | constructor].
Qed.

Lemma rateLimit_counts_allowed_witness :
  recorded "u:analyze" (snd (rateLimit [("u:analyze"%string, [5; 70000])] "u"
                               "analyze" 70001 true))
  = [70000; 70001].
Proof.
  apply (rateLimit_counts_allowed [("u:analyze"%string, [5; 70000])] "u"
           "analyze" 70001 true).
  reflexivity.
Defined.

(** X3.  Keys do not interfere: a call for one key leaves every other key
    with the requests it had in the last minute (all its requests, when the
    call does not clean the store), and the keys of the store stay
    distinct. *)
Theorem rateLimit_other_keys :
  forall store userId endpoint now cleaning other,
    NoDup (map fst store) ->
    other <> (userId ++ ":" ++ endpoint)%string ->
    let store' := snd (rateLimit store userId endpoint now cleaning) in
    NoDup (map fst store')
    /\ filter (fun t => now - 60000 <? t) (recorded other store')
       = filter (fun t => now - 60000 <? t) (recorded other store)
    /\ (cleaning = false -> recorded other store' = recorded other store).
Proof.
  intros store userId endpoint now cleaning other Hn Hother store'.
  subst store'. unfold rateLimit.
  set (key := (userId ++ ":" ++ endpoint)%string) in *.
  set (recent := filter (fun t => now - 60000 <? t) (recorded key store)).
  destruct (MAX_REQUESTS_PER_MINUTE <=? List.length recent)%nat; simpl;
    [auto|].
  assert (Hset : recorded other (store_set key (recent ++ [now]) store)
                 = recorded other store).
  { unfold recorded. rewrite store_get_set_other by assumption. reflexivity. }
  pose proof (store_set_keys key (recent ++ [now]) store Hn) as Hn'.
  destruct cleaning.
  - split; [apply clean_up_keys; assumption|].
    split; [|discriminate].
    rewrite recorded_clean_up by assumption.
    rewrite filter_window_twice, Hset. reflexivity.
  - rewrite Hset. auto.
Qed.

Lemma rateLimit_other_keys_witness :
  recorded "v:analyze"
    (snd (rateLimit [("v:analyze"%string, [990])] "u" "analyze" 1000 false))
  = [990].
Proof.
  apply (rateLimit_other_keys [("v:analyze"%string, [990])] "u" "analyze" 1000
           false "v:analyze").
  - repeat constructor. simpl. tauto.
  - discriminate.
  - reflexivity.
Defined.

Lemma rate_limited_window userId endpoint calls :
  forall store,
    let key := (userId ++ ":" ++ endpoint)%string in
    (forall t t', In t (recorded key store ++ map fst calls) ->
                  In t' (map fst calls) -> t' - 60000 < t) ->
    fst (rate_limited store userId endpoint calls)
    = map (fun i => (List.length (recorded key store) + i <? 30)%nat)
        (seq 0 (List.length calls)).
Proof.
  induction calls as [|[now cleaning] calls IH]; intros store key Hw;
    [reflexivity|].
  cbn [rate_limited].
  pose proof (rateLimit_recorded store userId endpoint now cleaning) as Hrec.
  cbv zeta in Hrec. fold key in Hrec.
  assert (Hall : filter (fun t => now - 60000 <? t) (recorded key store)
                 = recorded key store).
  { apply forallb_filter_id. apply forallb_forall. intros t Ht.
    apply Z.ltb_lt. apply Hw; [apply in_or_app; tauto | left; reflexivity]. }
  rewrite Hall in Hrec.
  assert (Hal : allowed (fst (rateLimit store userId endpoint now cleaning))
                = (List.length (recorded key store) + 0 <? 30)%nat).
  { unfold rateLimit. fold key. rewrite Hall. rewrite Nat.add_0_r.
    unfold MAX_REQUESTS_PER_MINUTE.
    destruct (30 <=? List.length (recorded key store))%nat eqn:E; simpl.
    - symmetry. apply Nat.ltb_ge. apply Nat.leb_le. exact E.
    - symmetry. apply Nat.ltb_lt. apply Nat.leb_gt. exact E. }
  destruct (rateLimit store userId endpoint now cleaning) as [r store1].
  simpl in Hrec, Hal.
  specialize (IH store1). cbv zeta in IH. fold key in IH.
  destruct (rate_limited store1 userId endpoint calls) as [rs store2].
  simpl in IH. cbn [fst List.length seq map]. rewrite Hal. f_equal.
  rewrite IH.
  - rewrite <- seq_shift, map_map. apply map_ext_in. intros i _.
    rewrite Hrec. rewrite Hal.
    destruct (List.length (recorded key store) + 0 <? 30)%nat eqn:E.
    + rewrite length_app. simpl. f_equal. lia.
    + apply Nat.ltb_ge in E.
      transitivity false; [apply Nat.ltb_ge | symmetry; apply Nat.ltb_ge]; lia.
  - intros t t' Ht Ht'. apply Hw; [|right; exact Ht'].
    rewrite Hrec in Ht. apply in_app_or in Ht. apply in_or_app.
    destruct Ht as [Ht|Ht]; [|right; right; exact Ht].
    destruct (allowed r); [|left; exact Ht].
    apply in_app_or in Ht. destruct Ht as [Ht|[Ht|[]]];
      [left; exact Ht | right; left; exact Ht].
Qed.

(** X4.  The limit under a burst: when a key has nothing recorded and a
    user's requests to an endpoint all fall within one minute of each
    other, the first 30 are let through and every later one is refused,
    whatever the clean-up draws. *)
Theorem rateLimit_burst :
  forall store userId endpoint calls,
    recorded (userId ++ ":" ++ endpoint)%string store = [] ->
    (forall t t', In t (map fst calls) -> In t' (map fst calls) ->
                  t' - 60000 < t) ->
    fst (rate_limited store userId endpoint calls)
    = map (fun i => (i <? 30)%nat) (seq 0 (List.length calls)).
Proof.
  intros store userId endpoint calls Hempty Hw.
  pose proof (rate_limited_window userId endpoint calls store) as H.
  cbv zeta in H. rewrite Hempty in H. simpl in H. apply H. exact Hw.
Qed.

Lemma rateLimit_burst_witness :
  fst (rate_limited [] "u" "analyze"
         (map (fun i => (Z.of_nat i, false)) (seq 0 32)))
  = map (fun i => (i <? 30)%nat) (seq 0 32).
Proof.
  apply (rateLimit_burst [] "u" "analyze"
           (map (fun i => (Z.of_nat i, false)) (seq 0 32))).
  - reflexivity.
  - intros t t' Ht Ht'. rewrite map_map in Ht, Ht'.
    apply in_map_iff in Ht. apply in_map_iff in Ht'.
    destruct Ht as [i [Hi Hin]]. destruct Ht' as [j [Hj Hjn]].
    apply in_seq in Hin. apply in_seq in Hjn. simpl in Hi, Hj. lia.
Defined.

(** ** Image data URLs *)

Lemma starts_with_app p r : starts_with p (p ++ r) = true.
Proof.
  induction p as [|c p IH]; simpl; [reflexivity|].
  rewrite N.eqb_refl. exact IH.
Qed.

Lemma starts_with_inv p :
  forall s, starts_with p s = true -> exists r, s = p ++ r.
Proof.
  induction p as [|c p IH]; intros s H; simpl in *.
  - exists s. reflexivity.
  - destruct s as [|d s]; [discriminate|].
    apply andb_prop in H. destruct H as [Hc Hp].
    apply N.eqb_eq in Hc. subst d.
    destruct (IH s Hp) as [r Hr]. exists r. congruence.
Qed.

Lemma split_first_segment sep s :
  exists payload rest tl,
    split sep s = payload :: tl /\ s = payload ++ rest
    /\ ~ In sep payload /\ (rest = [] \/ hd_error rest = Some sep).
Proof.
  induction s as [|c s IH]; simpl.
  - exists [], [], []. simpl. tauto.
  - destruct (c =? sep)%N eqn:E.
    + apply N.eqb_eq in E. subst c.
      exists [], (sep :: s), (split sep s). simpl. tauto.
    + apply N.eqb_neq in E.
      destruct IH as [payload [rest [tl [Hs [Happ [Hno Hrest]]]]]].
      rewrite Hs. exists (c :: payload), rest, tl.
      simpl. split; [reflexivity|]. split; [congruence|].
      split; [|exact Hrest]. intros [H|H]; [congruence | tauto].
Qed.

Lemma split_segment sep payload rest :
  ~ In sep payload -> (rest = [] \/ hd_error rest = Some sep) ->
  hd_error (split sep (payload ++ rest)) = Some payload.
Proof.
  intros Hno Hrest. induction payload as [|c payload IH]; simpl.
  - destruct Hrest as [Hr|Hr]; [subst; reflexivity|].
    destruct rest as [|d rest]; [discriminate|].
    simpl in Hr. injection Hr as Hd. subst d. simpl.
    rewrite N.eqb_refl. reflexivity.
  - simpl in Hno.
    destruct (c =? sep)%N eqn:E; [apply N.eqb_eq in E; tauto|].
    assert (Hno' : ~ In sep payload) by tauto.
    specialize (IH Hno').
    destruct (split sep (payload ++ rest)) as [|x xs]; [discriminate|].
    simpl in IH. injection IH as Hx. subst x. reflexivity.
Qed.

Lemma split_after_prefix format r :
  In format image_formats ->
  nth_error (split 44 (data_url_prefix format ++ r)) 1
  = hd_error (split 44 r)
  /\ data_url_prefix format ++ r <> [].
Proof.
  intros Hin. unfold image_formats in Hin. simpl in Hin.
  destruct Hin as [H|[H|[H|[H|[]]]]]; subst format;
    (split; [|discriminate]); cbn;
    destruct (split 44 r); reflexivity.
Qed.

Lemma validateImageData_string url :
  url <> [] ->
  validateImageData (Some url)
  = if negb (dataUrlRegex_test url) then image_invalid "Invalid image format"
    else match nth_error (split 44 url) 1 with
         | None | Some [] => image_invalid "Invalid image data"
         | Some base64Data =>
             if 4 * MAX_IMAGE_SIZE <? Z.of_nat (List.length base64Data) * 3
             then image_invalid "Image too large (max 10MB)"
             else image_valid
         end.
Proof. destruct url; [congruence | reflexivity]. Qed.

Lemma validateImageData_accepts format payload rest :
  In format image_formats ->
  payload <> [] -> ~ In 44%N payload ->
  rest = [] \/ hd_error rest = Some 44%N ->
  Z.of_nat (List.length payload) * 3 <= 4 * MAX_IMAGE_SIZE ->
  validateImageData (Some (data_url_prefix format ++ payload ++ rest))
  = image_valid.
Proof.
  intros Hin Hne Hno Hrest Hsize.
  destruct (split_after_prefix format (payload ++ rest) Hin) as [Hnth Hcons].
  rewrite (validateImageData_string _ Hcons).
  assert (Ht : dataUrlRegex_test (data_url_prefix format ++ payload ++ rest) = true).
  { unfold dataUrlRegex_test. apply existsb_exists. exists format.
    split; [exact Hin | apply starts_with_app]. }
  rewrite Ht. simpl negb. cbv iota.
  rewrite Hnth, (split_segment 44 payload rest Hno Hrest).
  destruct payload as [|d payload]; [congruence|].
  replace (4 * MAX_IMAGE_SIZE <? Z.of_nat (List.length (d :: payload)) * 3)
    with false by (symmetry; apply Z.ltb_ge; exact Hsize).
  reflexivity.
Qed.

Lemma validateImageData_accepted url :
  validateImageData (Some url) = image_valid ->
  exists format payload rest,
    In format image_formats
    /\ url = data_url_prefix format ++ payload ++ rest
    /\ payload <> [] /\ ~ In 44%N payload
    /\ (rest = [] \/ hd_error rest = Some 44%N)
    /\ Z.of_nat (List.length payload) * 3 <= 4 * MAX_IMAGE_SIZE.
Proof.
  destruct url as [|c0 url0] eqn:U; [discriminate|].
  rewrite <- U. rewrite validateImageData_string by (rewrite U; discriminate).
  clear U c0 url0.
  destruct (dataUrlRegex_test url) eqn:Ht; simpl negb; cbv iota;
    [|discriminate].
  unfold dataUrlRegex_test in Ht. apply existsb_exists in Ht.
  destruct Ht as [format [Hin Hp]].
  apply starts_with_inv in Hp. destruct Hp as [r Hr]. subst url.
  destruct (split_after_prefix format r Hin) as [Hnth _]. rewrite Hnth.
  destruct (split_first_segment 44 r) as [payload [rest [tl [Hs [Happ [Hno Hrest]]]]]].
  rewrite Hs. simpl hd_error.
  destruct payload as [|d payload]; [discriminate|].
  destruct (4 * MAX_IMAGE_SIZE <? _) eqn:Hsize; [discriminate|]. intros _.
  exists format, (d :: payload), rest.
  apply Z.ltb_ge in Hsize.
  repeat split; try assumption; try discriminate. congruence.
Qed.

(** X5.  The data URLs that [validateImageData] accepts are exactly those
    made of [data:image/], one of the four formats, [;base64,], and a
    payload that is not empty, holds no comma, is at most
    4 * 10 MB / 3 code units long, and is followed by nothing or by a
    comma and any text. *)
Theorem validateImageData_accepts_exactly :
  forall url,
    validateImageData (Some url) = image_valid <->
    exists format payload rest,
      In format image_formats
      /\ url = data_url_prefix format ++ payload ++ rest
      /\ payload <> [] /\ ~ In 44%N payload
      /\ (rest = [] \/ hd_error rest = Some 44%N)
      /\ Z.of_nat (List.length payload) * 3 <= 4 * MAX_IMAGE_SIZE.
Proof.
  intros url. split; [apply validateImageData_accepted|].
  intros [format [payload [rest [Hin [Hurl [Hne [Hno [Hrest Hsize]]]]]]]].
  subst url. apply validateImageData_accepts; assumption.
Qed.

(** X6.  The size limit covers the payload up to its first comma only: an
    accepted data URL stays accepted when a comma and any text, of any
    length, are appended to it. *)
Theorem validateImageData_ignores_tail :
  forall url tail,
    validateImageData (Some url) = image_valid ->
    validateImageData (Some (url ++ 44%N :: tail)) = image_valid.
Proof.
  intros url tail H. apply validateImageData_accepted in H.
  destruct H as [format [payload [rest [Hin [Hurl [Hne [Hno [Hrest Hsize]]]]]]]].
  subst url. rewrite <- !app_assoc.
  apply validateImageData_accepts; try assumption.
  right. destruct Hrest as [Hr|Hr]; [subst; reflexivity|].
  destruct rest; [discriminate | exact Hr].
Qed.

Lemma validateImageData_ignores_tail_witness :
  validateImageData
    (Some (units "data:image/png;base64,AAAA" ++ 44%N :: repeat 65%N 50))
  = image_valid.
Proof.
  apply (validateImageData_ignores_tail (units "data:image/png;base64,AAAA")
           (repeat 65%N 50)).
  reflexivity.
Defined.

(** ** Sanitized text *)

Lemma trim_start_incl s c : In c (trim_start s) -> In c s.
Proof.
  induction s as [|d s IH]; simpl; [tauto|].
  destruct (is_white_space d); simpl; tauto.
Qed.

Lemma trim_incl s c : In c (trim s) -> In c s.
Proof.
  unfold trim. intros H. apply in_rev in H. apply trim_start_incl in H.
  apply in_rev in H. apply trim_start_incl in H. exact H.
Qed.

Lemma trim_start_head s c r :
  trim_start s = c :: r -> is_white_space c = false.
Proof.
  induction s as [|d s IH]; simpl; [discriminate|].
  destruct (is_white_space d) eqn:E; [exact IH|].
  intros H. injection H as Hd _. congruence.
Qed.

Lemma trim_start_last l c :
  is_white_space c = false ->
  exists l', trim_start (l ++ [c]) = l' ++ [c].
Proof.
  intros Hc. induction l as [|d l IH]; simpl.
  - rewrite Hc. exists []. reflexivity.
  - destruct (is_white_space d); [exact IH|].
    exists (d :: l). reflexivity.
Qed.

Lemma trim_head s c r : trim s = c :: r -> is_white_space c = false.
Proof.
  unfold trim. destruct (trim_start s) as [|d t] eqn:T; [discriminate|].
  pose proof (trim_start_head s d t T) as Hd.
  simpl rev. destruct (trim_start_last (rev t) d Hd) as [l' Hl'].
  rewrite Hl', rev_app_distr. simpl. intros H. injection H as Hc _. congruence.
Qed.

Lemma trim_start_clean s :
  match s with
  | c :: _ => is_white_space c = false
  | [] => True
  end -> trim_start s = s.
Proof. destruct s as [|c s]; simpl; intros H; [|rewrite H]; reflexivity. Qed.

Lemma sanitizeInput_string s :
  s <> [] ->
  sanitizeInput (Some s)
  = firstn 1000 (trim (filter (fun c => negb (is_angle_bracket c)) s)).
Proof. destruct s; [congruence | reflexivity]. Qed.

Lemma firstn_incl (l : js_string) n c : In c (firstn n l) -> In c l.
Proof.
  revert l. induction n as [|n IH]; intros [|d l]; simpl; try tauto.
  intros [H|H]; [left; exact H | right; apply IH; exact H].
Qed.

Lemma firstn_head (l : js_string) n c r :
  firstn n l = c :: r -> exists t, l = c :: t.
Proof.
  destruct n as [|n]; destruct l as [|d l]; simpl; try discriminate.
  intros H. injection H as Hd _. subst d. exists l. reflexivity.
Qed.

(** X7.  Whatever it is given, [sanitizeInput] returns at most 1000 code
    units, none of them an angle bracket, all of them taken from the input,
    and not starting with white space. *)
Theorem sanitizeInput_output :
  forall input,
    (List.length (sanitizeInput input) <= 1000)%nat
    /\ Forall (fun c => c <> 60%N /\ c <> 62%N
                        /\ exists s, input = Some s /\ In c s)
         (sanitizeInput input)
    /\ (forall c r, sanitizeInput input = c :: r -> is_white_space c = false).
Proof.
  intros [[|c0 s0]|];
    try (change (sanitizeInput (Some [])) with (@nil N);
         split; [simpl; lia | split; [constructor | discriminate]]);
    try (change (sanitizeInput None) with (@nil N);
         split; [simpl; lia | split; [constructor | discriminate]]).
  rewrite sanitizeInput_string by discriminate.
  set (s := c0 :: s0).
  set (clean := filter (fun c => negb (is_angle_bracket c)) s).
  split; [apply firstn_le_length|]. split.
  - apply Forall_forall. intros c Hc.
    assert (Hf : In c clean) by (apply trim_incl; eapply firstn_incl; exact Hc).
    unfold clean in Hf. apply filter_In in Hf. destruct Hf as [Hin Hb].
    unfold is_angle_bracket in Hb. apply negb_true_iff in Hb.
    apply orb_false_iff in Hb. destruct Hb as [H1 H2].
    apply N.eqb_neq in H1. apply N.eqb_neq in H2.
    repeat split; try assumption. exists s. auto.
  - intros c r H. apply firstn_head in H. destruct H as [t T].
    exact (trim_head clean c t T).
Qed.

(** X8.  Text that is already clean passes unchanged: a string of at most
    1000 code units without angle brackets whose first and last code units
    (the same one, in a string of one unit) are not white space is what
    [sanitizeInput] returns for it. *)
Theorem sanitizeInput_keeps_clean_text :
  forall s : js_string,
    (List.length s <= 1000)%nat ->
    Forall (fun c => is_angle_bracket c = false) s ->
    is_white_space (hd 0%N s) = false ->
    is_white_space (last s 0%N) = false ->
    sanitizeInput (Some s) = s.
Proof.
  intros s Hlen Hclean Hf Hl.
  destruct s as [| c r] eqn:Es; [reflexivity |]. rewrite <- Es in *.
  rewrite sanitizeInput_string by (rewrite Es; discriminate).
  assert (Hfilter : filter (fun c => negb (is_angle_bracket c)) s = s).
  { apply forallb_filter_id. apply forallb_forall. intros d Hd.
    rewrite Forall_forall in Hclean. rewrite (Hclean d Hd). reflexivity. }
  rewrite Hfilter. unfold trim.
  rewrite (trim_start_clean s) by (rewrite Es in *; exact Hf).
  rewrite (trim_start_clean (rev s)).
  - rewrite rev_involutive. apply firstn_all2. exact Hlen.
  - destruct (rev s) as [| d t] eqn:Er; [exact I |].
    apply (f_equal (@rev N)) in Er. rewrite rev_involutive in Er.
    cbn [rev] in Er. rewrite Er, last_last in Hl. exact Hl.
Qed.

Lemma sanitizeInput_keeps_clean_text_witness :
  sanitizeInput (Some (units "nice post")) = units "nice post"
  /\ sanitizeInput (Some (units "k")) = units "k".
Proof.
  split.
  - apply (sanitizeInput_keeps_clean_text (units "nice post"));
      try reflexivity.
    + simpl. lia.
    + repeat constructor.
  - apply (sanitizeInput_keeps_clean_text (units "k")); try reflexivity.
    + simpl. lia.
    + repeat constructor.
Defined.

(** X9.  [sanitizeError] never passes the text of an error on: what it
    returns is one of its six fixed answers or the generic one. *)
Theorem sanitizeError_answers :
  forall error_message,
    In (sanitizeError error_message)
      ("An error occurred processing your request"%string
       :: map snd knownErrors).
Proof.
  intros m. unfold sanitizeError.
  destruct (find _ knownErrors) as [entry|] eqn:F.
  - apply find_some in F. right. apply in_map. tauto.
  - left. reflexivity.
Qed.

(** ** [decrement_credit] *)

Lemma find_by_id tbl pid :
  match find (fun p => (Purchase.id p =? pid)%nat) tbl with
  | Some row => In row tbl /\ Purchase.id row = pid
  | None => ~ In pid (map Purchase.id tbl)
  end.
Proof.
  destruct (find _ tbl) as [row|] eqn:F.
  - apply find_some in F. destruct F as [Hin Hid].
    apply Nat.eqb_eq in Hid. auto.
  - intros Hin. apply in_map_iff in Hin. destruct Hin as [p [Hp Hin]].
    pose proof (find_none _ _ F p Hin) as Hn. simpl in Hn.
    apply Nat.eqb_neq in Hn. congruence.
Qed.

Lemma remaining_of_absent tbl pid :
  ~ In pid (map Purchase.id tbl) -> remaining_of tbl pid = 0.
Proof.
  induction tbl as [|p tbl IH]; simpl; intros Hn; [reflexivity|].
  destruct (Purchase.id p =? pid)%nat eqn:E.
  - apply Nat.eqb_eq in E. tauto.
  - apply IH. tauto.
Qed.

(** X10.  [decrement_credit], called with an [amount] that is not [NULL]
    on a table with distinct ids, either takes [amount] from the one row it
    names, leaving that row between 0 and [INTEGER_MAX] and every other row
    as it was, or fails and leaves the table unchanged; it fails exactly
    when the row is missing, or holds fewer than [amount] credits, or would
    be left with more than an [INTEGER] can hold (an [amount] far below
    0). *)
Theorem decrement_credit_outcome :
  forall tbl pid amount,
    NoDup (map Purchase.id tbl) ->
    let r := decrement_credit tbl pid amount in
    if decrement_success (fst r) then
      In pid (map Purchase.id tbl)
      /\ decrement_remaining (fst r) = Some (remaining_of tbl pid - amount)
      /\ remaining_of (snd r) pid = remaining_of tbl pid - amount
      /\ 0 <= remaining_of (snd r) pid <= INTEGER_MAX
      /\ (forall j, j <> pid -> remaining_of (snd r) j = remaining_of tbl j)
      /\ sum_remaining (snd r) = sum_remaining tbl - amount
      /\ map (Purchase.set_remaining 0) (snd r)
         = map (Purchase.set_remaining 0) tbl
    else
      snd r = tbl
      /\ (~ In pid (map Purchase.id tbl)
          \/ remaining_of tbl pid < amount
          \/ INTEGER_MAX < remaining_of tbl pid - amount).
Proof.
  intros tbl pid amount Hn r. subst r. unfold decrement_credit.
  pose proof (find_by_id tbl pid) as Hf.
  destruct (find _ tbl) as [row|]; simpl; [|auto].
  destruct Hf as [Hin Hid]. subst pid.
  pose proof (remaining_of_in tbl row Hn Hin) as Hr.
  destruct (remaining_credits row <? amount) eqn:E; simpl.
  - apply Z.ltb_lt in E. split; [reflexivity | right; left; lia].
  - apply Z.ltb_ge in E.
    destruct (INTEGER_MAX <? remaining_credits row - amount) eqn:Eo; simpl.
    + apply Z.ltb_lt in Eo. split; [reflexivity | right; right; lia].
    + apply Z.ltb_ge in Eo.
      rewrite (update_by_id_const row (fun p => remaining_credits p - amount)
                 tbl Hn Hin).
      rewrite Hr.
      split; [apply in_map; exact Hin|]. split; [reflexivity|].
      split; [apply remaining_of_update_same; exact Hin|].
      split; [rewrite remaining_of_update_same by exact Hin; lia|].
      split; [intros j Hj; apply remaining_of_update_other; exact Hj|].
      split; [rewrite sum_remaining_update by assumption; lia|].
      apply update_by_id_rows.
Qed.

(** 3 credits taken from the purchase that holds 10; 3 asked of the
    purchase that holds 1; and the purchase that holds 10 asked for an
    amount that would leave it above [INTEGER_MAX]. *)
Lemma decrement_credit_outcome_witness :
  remaining_of (snd (decrement_credit two_purchases 2 3)) 2 = 7
  /\ snd (decrement_credit two_purchases 1 3) = two_purchases
  /\ snd (decrement_credit two_purchases 2 (-2147483647)) = two_purchases.
Proof.
  assert (NoDup (map Purchase.id two_purchases)) as Hn
    by (repeat constructor; simpl; intuition discriminate).
  split; [| split].
  - apply (decrement_credit_outcome two_purchases 2 3 Hn).
  - apply (decrement_credit_outcome two_purchases 1 3 Hn).
  - apply (decrement_credit_outcome two_purchases 2 (-2147483647) Hn).
Defined.

(** ** The balance after a deduction *)

Lemma set_remaining_same p :
  Purchase.set_remaining (remaining_credits p) p = p.
Proof. destruct p. reflexivity. Qed.

Lemma same_row_but_remaining p q :
  Purchase.set_remaining 0 q = Purchase.set_remaining 0 p ->
  q = Purchase.set_remaining (remaining_credits q) p.
Proof.
  destruct p, q. unfold Purchase.set_remaining. simpl.
  intros H. injection H as -> -> -> -> -> -> -> -> ->. reflexivity.
Qed.

Lemma map_cons_eq (A B : Type) (f : A -> B) a b l l' :
  map f (a :: l) = map f (b :: l') -> f a = f b /\ map f l = map f l'.
Proof. simpl. intros H. injection H as H1 H2. auto. Qed.

Lemma rows_by_id tbl' :
  forall tbl,
    map (Purchase.set_remaining 0) tbl' = map (Purchase.set_remaining 0) tbl ->
    NoDup (map Purchase.id tbl) ->
    tbl' = map (fun p => Purchase.set_remaining
                           (remaining_of tbl' (Purchase.id p)) p) tbl.
Proof.
  induction tbl' as [|q tbl' IH]; intros [|p tbl] Hs Hn;
    try discriminate; [reflexivity|].
  apply map_cons_eq in Hs. destruct Hs as [Hq Hs].
  inversion Hn as [|? ? Hnot Hrest]; subst.
  pose proof (same_row_but_remaining p q Hq) as Hq'.
  assert (Hid : Purchase.id q = Purchase.id p)
    by (rewrite Hq'; apply id_set_remaining).
  cbn [map remaining_of]. rewrite Hid, Nat.eqb_refl. f_equal; [exact Hq'|].
  rewrite (IH tbl Hs Hrest) at 1. apply map_ext_in. intros a Ha.
  destruct (Purchase.id p =? Purchase.id a)%nat eqn:E; [|reflexivity].
  apply Nat.eqb_eq in E. exfalso. apply Hnot. rewrite E.
  apply in_map. exact Ha.
Qed.

Lemma sum_remaining_cons p l :
  sum_remaining (p :: l) = remaining_credits p + sum_remaining l.
Proof. reflexivity. Qed.

Lemma remaining_set_remaining v p :
  remaining_credits (Purchase.set_remaining v p) = v.
Proof. reflexivity. Qed.

Section Balance.
Variable act : purchase -> bool.
Hypothesis act_zero : forall p, act (Purchase.set_remaining 0 p) = false.
Hypothesis act_keep :
  forall v p, act p = true -> 0 < v -> act (Purchase.set_remaining v p) = true.

Lemma inactive_part (r : purchase -> Z) l :
  (forall p, In p l -> act p = false -> r p = remaining_credits p) ->
  (forall p, In p l -> act p = true -> 0 <= r p) ->
  sum_remaining (map (fun p => Purchase.set_remaining (r p) p) l)
  - sum_remaining (filter act (map (fun p => Purchase.set_remaining (r p) p) l))
  = sum_remaining l - sum_remaining (filter act l).
Proof.
  induction l as [|p l IH]; intros Hk Hb; [reflexivity|].
  assert (IH' := IH (fun q Hq => Hk q (or_intror Hq))
                    (fun q Hq => Hb q (or_intror Hq))).
  cbn [map filter]. destruct (act p) eqn:A.
  - assert (0 <= r p) by (apply Hb; [left; reflexivity | exact A]).
    destruct (Z.eq_dec (r p) 0) as [Hz|Hz].
    + rewrite Hz, act_zero.
      rewrite !sum_remaining_cons, remaining_set_remaining. lia.
    + rewrite act_keep by (auto; lia).
      rewrite !sum_remaining_cons, remaining_set_remaining. lia.
  - rewrite (Hk p (or_introl eq_refl) A), set_remaining_same, A.
    rewrite !sum_remaining_cons. lia.
Qed.

(** After a FIFO deduction of [n] credits the selected rows hold [n]
    credits less. *)
Lemma fifo_consumed_balance n tbl tbl' :
  NoDup (map Purchase.id tbl) -> fifo_consumed act n tbl tbl' ->
  sum_remaining (filter act tbl') = sum_remaining (filter act tbl) - n.
Proof.
  intros Hn [Hrows Htotal Hothers Hbounds _].
  pose proof (rows_by_id tbl' tbl Hrows Hn) as Hmap.
  pose proof (inactive_part (fun p => remaining_of tbl' (Purchase.id p)) tbl
                Hothers (fun p Hp Ha => proj1 (Hbounds p Hp Ha))) as Hpart.
  cbv beta in Hpart. rewrite <- Hmap in Hpart. lia.
Qed.
End Balance.

Lemma sql_active_keep uid now v p :
  sql_active uid now p = true -> 0 < v ->
  sql_active uid now (Purchase.set_remaining v p) = true.
Proof.
  unfold sql_active, gt_expires_at, is_completed. destruct p; simpl.
  intros H Hv. apply andb_prop in H. destruct H as [H _]. rewrite H.
  apply Z.ltb_lt. exact Hv.
Qed.

Lemma js_active_keep uid now v p :
  js_active uid now p = true -> 0 < v ->
  js_active uid now (Purchase.set_remaining v p) = true.
Proof.
  unfold js_active, expires_null_or_gt. destruct p; simpl.
  intros H Hv. apply andb_prop in H. destruct H as [H He].
  apply andb_prop in H. destruct H as [Hu _]. rewrite Hu, He.
  replace (0 <? v) with true by (symmetry; apply Z.ltb_lt; exact Hv).
  reflexivity.
Qed.

(** ** The two database functions *)

Lemma sum_sql_active_nonneg uid now tbl :
  0 <= sum_remaining (filter (sql_active uid now) tbl).
Proof.
  induction tbl as [| p tbl IH]; simpl; [lia |].
  destruct (sql_active uid now p) eqn:A; [| exact IH].
  apply sql_active_positive in A. rewrite sum_remaining_cons. lia.
Qed.

(** X11.  [use_credits] never takes a credit.  It leaves the table as it
    was on every call; it returns a row that reports success for the
    caller's own key only; and a call without that key that finds the
    credits it is asked for (the paid, unexpired purchases of the user hold
    at least [n], and no more than an [INTEGER] can hold) raises 42702
    instead of taking them. *)
Theorem use_credits_leaves_table :
  forall tbl uid n key now,
    snd (use_credits tbl uid n key now) = tbl
    /\ ((exists r, fst (use_credits tbl uid n key now) = returned r
                   /\ success r = true)
        <-> key = true)
    /\ (key = false ->
        n <= sum_remaining (filter (sql_active uid now) tbl) <= INTEGER_MAX ->
        fst (use_credits tbl uid n key now) = raised "42702"%string).
Proof.
  intros tbl uid n key now. unfold use_credits, sum_into_INTEGER.
  destruct key; cbn.
  { split; [reflexivity |]. split; [| discriminate].
    split; [reflexivity |]. intros _. eexists. split; reflexivity. }
  destruct (INTEGER_MAX <? sum_remaining (filter (sql_active uid now) tbl))
    eqn:Eo; cbn.
  { apply Z.ltb_lt in Eo. split; [reflexivity |].
    split; [split; [intros (r & H & _); discriminate | discriminate] |].
    intros _ H. lia. }
  destruct (sum_remaining (filter (sql_active uid now) tbl) <? n) eqn:E; cbn.
  - apply Z.ltb_lt in E. split; [reflexivity |].
    split; [split; [| discriminate] |].
    + intros (r & H & Hs). inversion H; subst r. discriminate.
    + intros _ H. lia.
  - split; [reflexivity |].
    split; [split; [intros (r & H & _); discriminate | discriminate] |].
    reflexivity.
Qed.

(** X12.  [get_available_credits] returns what the paid, unexpired
    purchases of the user hold, a value from 0 to [INTEGER_MAX], or raises
    22003 when they hold more than that; a purchase that is pending or
    failed, has expired, holds nothing or belongs to another user counts
    for nothing, whatever it holds. *)
Theorem get_available_credits_outcome :
  forall tbl uid now,
    match get_available_credits tbl uid now with
    | returned v =>
        v = sum_remaining (filter (sql_active uid now) tbl)
        /\ 0 <= v <= INTEGER_MAX
    | raised sqlstate =>
        sqlstate = "22003"%string
        /\ INTEGER_MAX < sum_remaining (filter (sql_active uid now) tbl)
    end
    /\ (forall p,
          Purchase.user_id p <> uid \/ payment_status p <> completed
          \/ remaining_credits p <= 0
          \/ match expires_at p with
             | Some expiry => expiry <= now
             | None => True
             end ->
          get_available_credits (tbl ++ [p]) uid now
          = get_available_credits tbl uid now).
Proof.
  intros tbl uid now. unfold get_available_credits, sum_into_INTEGER. split.
  - pose proof (sum_sql_active_nonneg uid now tbl) as Hpos.
    destruct (INTEGER_MAX <? sum_remaining (filter (sql_active uid now) tbl))
      eqn:E.
    + apply Z.ltb_lt in E. auto.
    + apply Z.ltb_ge in E. split; [reflexivity | lia].
  - intros p Hp.
    assert (sql_active uid now p = false) as A.
    { unfold sql_active, gt_expires_at, is_completed.
      destruct Hp as [H | [H | [H | H]]].
      - apply Nat.eqb_neq in H. rewrite H. reflexivity.
      - destruct (payment_status p); try congruence;
          rewrite ?andb_false_r; reflexivity.
      - apply Z.ltb_ge in H. rewrite H. apply andb_false_r.
      - destruct (expires_at p) as [expiry |].
        + apply Z.ltb_ge in H. rewrite H. rewrite andb_false_r. reflexivity.
        + rewrite andb_false_r. reflexivity. }
    rewrite filter_app. cbn [filter]. rewrite A, app_nil_r. reflexivity.
Qed.

Lemma get_available_credits_outcome_witness :
  get_available_credits (two_purchases ++ [sample_purchase 3 7 50 pending 4]) 7 10
  = returned 11.
Proof.
  rewrite (proj2 (get_available_credits_outcome two_purchases 7 10)
             (sample_purchase 3 7 50 pending 4)).
  - reflexivity.
  - right. left. discriminate.
Defined.

(** ** A request served alone *)

Section ActiveSum.
Variable act : purchase -> bool.
Hypothesis act_zero : forall p, act (Purchase.set_remaining 0 p) = false.
Hypothesis act_keep :
  forall v p, act p = true -> 0 < v -> act (Purchase.set_remaining v p) = true.

Lemma sum_active_update tbl m v :
  NoDup (map Purchase.id tbl) -> In m tbl -> act m = true -> 0 <= v ->
  sum_remaining (filter act (update_by_id (Purchase.id m) (fun _ => v) tbl))
  = sum_remaining (filter act tbl) - remaining_credits m + v.
Proof.
  induction tbl as [|r tbl IH]; simpl; intros Hn Hm Ha Hv; [contradiction|].
  inversion Hn as [|? ? Hnot Hn']; subst.
  destruct (Purchase.id r =? Purchase.id m)%nat eqn:E.
  - apply Nat.eqb_eq in E.
    assert (r = m) as ->.
    { destruct Hm as [-> | Hm]; auto.
      exfalso. apply Hnot. rewrite E. apply in_map. exact Hm. }
    rewrite Ha. fold (update_by_id (Purchase.id m) (fun _ => v) tbl).
    rewrite update_by_id_absent by exact Hnot.
    destruct (Z.eq_dec v 0) as [-> | Hz].
    + rewrite act_zero, sum_remaining_cons. lia.
    + rewrite act_keep by (auto; lia).
      rewrite !sum_remaining_cons, remaining_set_remaining. lia.
  - destruct Hm as [-> | Hm]; [rewrite Nat.eqb_refl in E; discriminate|].
    fold (update_by_id (Purchase.id m) (fun _ => v) tbl).
    destruct (act r); rewrite ?sum_remaining_cons, IH by assumption; lia.
Qed.
End ActiveSum.

Lemma sum_active_unchanged (act : purchase -> bool) tbl m v :
  NoDup (map Purchase.id tbl) -> In m tbl ->
  act m = false -> act (Purchase.set_remaining v m) = false ->
  sum_remaining (filter act (update_by_id (Purchase.id m) (fun _ => v) tbl))
  = sum_remaining (filter act tbl).
Proof.
  induction tbl as [|r tbl IH]; simpl; intros Hn Hm Ha Hv; [contradiction|].
  inversion Hn as [|? ? Hnot Hn']; subst.
  fold (update_by_id (Purchase.id m) (fun _ => v) tbl).
  destruct (Purchase.id r =? Purchase.id m)%nat eqn:E.
  - apply Nat.eqb_eq in E.
    assert (r = m) as ->.
    { destruct Hm as [-> | Hm]; auto.
      exfalso. apply Hnot. rewrite E. apply in_map. exact Hm. }
    rewrite Ha, Hv. rewrite update_by_id_absent by exact Hnot. reflexivity.
  - destruct Hm as [-> | Hm]; [rewrite Nat.eqb_refl in E; discriminate|].
    destruct (act r); rewrite ?sum_remaining_cons, IH by assumption; lia.
Qed.

Lemma sum_filter_le (f g : purchase -> bool) tbl :
  (forall p, In p tbl -> f p = true -> g p = true) ->
  (forall p, In p tbl -> g p = true -> 0 <= remaining_credits p) ->
  sum_remaining (filter f tbl) <= sum_remaining (filter g tbl).
Proof.
  induction tbl as [|p tbl IH]; intros Hfg Hg; simpl; [lia|].
  assert (IH' := IH (fun q Hq => Hfg q (or_intror Hq))
                    (fun q Hq => Hg q (or_intror Hq))).
  pose proof (Hfg p (or_introl eq_refl)) as Hp.
  pose proof (Hg p (or_introl eq_refl)) as Hp'.
  destruct (f p); destruct (g p); rewrite ?sum_remaining_cons;
    try specialize (Hp eq_refl); try specialize (Hp' eq_refl);
    try discriminate; lia.
Qed.

Lemma js_active_strict_active uid now p :
  js_active_strict uid now p = true -> js_active uid now p = true.
Proof.
  unfold js_active_strict, js_active, gt_expires_at, expires_null_or_gt.
  destruct (Purchase.user_id p =? uid)%nat; simpl; [|discriminate].
  destruct (expires_at p); [|discriminate].
  destruct (now <? t); simpl; [|discriminate].
  intros ->. reflexivity.
Qed.

Lemma sql_active_strict uid now p :
  sql_active uid now p = true -> js_active_strict uid now p = true.
Proof.
  unfold sql_active, js_active_strict.
  destruct (Purchase.user_id p =? uid)%nat; simpl; [|discriminate].
  destruct (gt_expires_at now p); simpl; [|discriminate].
  destruct (is_completed p); simpl; [tauto | discriminate].
Qed.

Lemma js_active_strict_zero uid now p :
  js_active_strict uid now (Purchase.set_remaining 0 p) = false.
Proof.
  unfold js_active_strict. simpl. apply andb_false_r.
Qed.

Lemma js_active_strict_keep uid now v p :
  js_active_strict uid now p = true -> 0 < v ->
  js_active_strict uid now (Purchase.set_remaining v p) = true.
Proof.
  unfold js_active_strict, gt_expires_at. destruct p; simpl.
  intros H Hv. apply andb_prop in H. destruct H as [H _]. rewrite H.
  apply Z.ltb_lt. exact Hv.
Qed.

Lemma run_Vis e X (o : op X) (k : X -> prog response) w :
  run e (Vis o k) w = run e (k (fst (exec e o w))) (snd (exec e o w)).
Proof. simpl. destruct (exec e o w). reflexivity. Qed.

Section ServedAlone.
Variable e : env.
Hypothesis store_up : forall i, store_fails e i = false.

Lemma served_new_Date (k : timestamp -> prog response) w :
  exists w1,
    run e (Vis new_Date k) w = run e (k (clock e (tick w))) w1
    /\ credit_purchases w1 = credit_purchases w
    /\ api_usage w1 = api_usage w /\ tick w1 = S (tick w).
Proof. eexists. split; [reflexivity | cbn; auto]. Qed.

Lemma served_chat_completions n (k : ai_reply -> prog response) w :
  exists w1,
    run e (Vis (chat_completions n) k) w = run e (k (openai e (tick w))) w1
    /\ credit_purchases w1 = credit_purchases w
    /\ api_usage w1 = api_usage w /\ tick w1 = S (tick w).
Proof. eexists. split; [reflexivity | cbn; auto]. Qed.

Lemma served_select_active uid now (k : reply (list purchase) -> prog response) w :
  exists w1,
    run e (Vis (select_active uid now) k) w
    = run e (k (data (filter (js_active uid now) (credit_purchases w)))) w1
    /\ credit_purchases w1 = credit_purchases w
    /\ api_usage w1 = api_usage w /\ tick w1 = S (tick w).
Proof.
  eexists. split; [cbn [run]; unfold exec; cbn [exec_op]; rewrite store_up;
                   reflexivity | cbn; auto].
Qed.

Lemma served_select_active_strict uid now
    (k : reply (list purchase) -> prog response) w :
  exists w1,
    run e (Vis (select_active_strict uid now) k) w
    = run e (k (data (filter (js_active_strict uid now) (credit_purchases w)))) w1
    /\ credit_purchases w1 = credit_purchases w
    /\ api_usage w1 = api_usage w /\ tick w1 = S (tick w).
Proof.
  eexists. split; [cbn [run]; unfold exec; cbn [exec_op]; rewrite store_up;
                   reflexivity | cbn; auto].
Qed.

Lemma served_select_oldest uid now (k : reply purchase -> prog response) w :
  exists w1,
    run e (Vis (select_oldest uid now) k) w
    = run e (k (oldest (filter (js_active uid now) (credit_purchases w)))) w1
    /\ credit_purchases w1 = credit_purchases w
    /\ api_usage w1 = api_usage w /\ tick w1 = S (tick w).
Proof.
  eexists. split; [cbn [run]; unfold exec; cbn [exec_op]; rewrite store_up;
                   reflexivity | cbn; auto].
Qed.

Lemma served_update_remaining pid v (k : option db_error -> prog response) w :
  exists w1,
    run e (Vis (update_remaining pid v) k) w = run e (k None) w1
    /\ credit_purchases w1 = update_by_id pid (fun _ => v) (credit_purchases w)
    /\ api_usage w1 = api_usage w /\ tick w1 = S (tick w).
Proof.
  eexists. split; [cbn [run]; unfold exec; cbn [exec_op]; rewrite store_up;
                   reflexivity | cbn; auto].
Qed.

Lemma served_insert_api_usage u (k : option db_error -> prog response) w :
  exists w1,
    run e (Vis (insert_api_usage u) k) w = run e (k None) w1
    /\ credit_purchases w1 = credit_purchases w
    /\ api_usage w1 = api_usage w ++ [u] /\ tick w1 = S (tick w).
Proof.
  eexists. split; [cbn [run]; unfold exec; cbn [exec_op]; rewrite store_up;
                   reflexivity | cbn; auto].
Qed.

Lemma served_update_if_unchanged m v (k : reply purchase -> prog response) w :
  NoDup (map Purchase.id (credit_purchases w)) -> In m (credit_purchases w) ->
  exists w1,
    run e (Vis (update_if_unchanged (Purchase.id m) (remaining_credits m) v) k) w
    = run e (k (data (Purchase.set_remaining v m))) w1
    /\ credit_purchases w1
       = update_by_id (Purchase.id m) (fun _ => v) (credit_purchases w)
    /\ api_usage w1 = api_usage w /\ tick w1 = S (tick w).
Proof.
  intros Hn Hm.
  destruct (cas_table (Purchase.id m) (remaining_credits m) v
              (credit_purchases w) Hn)
    as [[A _] | (q & A & Hq & Ei & Er & B)].
  { exfalso.
    assert (In m (filter (cas_matches (Purchase.id m) (remaining_credits m))
                    (credit_purchases w))) as C.
    { apply filter_In. split; auto. unfold cas_matches.
      rewrite Nat.eqb_refl, Z.eqb_refl. reflexivity. }
    rewrite A in C. exact C. }
  assert (q = m) by (apply (same_id_same_row _ q m Hn Hq Hm Ei)). subst q.
  eexists. split; [cbn [run]; unfold exec; cbn [exec_op]; rewrite store_up;
                   rewrite A, B; reflexivity | cbn; auto].
Qed.

Lemma served_log_usage_rows responses u (k : prog response) :
  Forall (fun r : option string => r <> None) responses ->
  forall w, exists w1,
    run e (log_usage_rows responses u k) w = run e k w1
    /\ credit_purchases w1 = credit_purchases w
    /\ api_usage w1 = api_usage w ++ repeat u (List.length responses).
Proof.
  induction 1 as [| [text |] responses Hr Hrs IH]; intros w;
    cbn [log_usage_rows List.length repeat]; [| | congruence].
  - exists w. rewrite app_nil_r. auto.
  - destruct (served_insert_api_usage u
                (fun _ => log_usage_rows responses u k) w)
      as (w1 & E1 & T1 & U1 & _).
    destruct (IH w1) as (w2 & E2 & T2 & U2).
    exists w2. rewrite E1, E2. split; [reflexivity|].
    split; [congruence|]. rewrite U2, U1, <- app_assoc. reflexivity.
Qed.

(** The last part of [analyze] served alone, for a reply with a text. *)
Lemma served_log_and_respond uid pid sid text key w :
  exists w1,
    run e (log_and_respond uid pid sid (Some text) key) w
    = (respond_ok
         (Some (sum_remaining
                  (filter (js_active_strict uid (clock e (S (tick w))))
                     (credit_purchases w)))), w1)
    /\ credit_purchases w1 = credit_purchases w
    /\ api_usage w1
       = api_usage w
         ++ [ {| Usage.user_id := uid; Usage.purchase_id := pid;
                 Usage.subscription_id := sid; Usage.credits_used := 1;
                 Usage.api_key_used := key |} ]
    /\ tick w1 = S (S (S (tick w))).
Proof.
  unfold log_and_respond.
  destruct (served_insert_api_usage
              {| Usage.user_id := uid; Usage.purchase_id := pid;
                 Usage.subscription_id := sid; Usage.credits_used := 1;
                 Usage.api_key_used := key |}
              (fun _ => now <- new_Date ;;
                        updatedPurchases <- select_active_strict uid now ;;
                        Ret (respond_ok (Some (available_of updatedPurchases)))) w)
    as (w1 & E1 & T1 & U1 & K1).
  rewrite E1.
  destruct (served_new_Date
              (fun now => updatedPurchases <- select_active_strict uid now ;;
                          Ret (respond_ok (Some (available_of updatedPurchases)))) w1)
    as (w2 & E2 & T2 & U2 & K2).
  rewrite E2.
  destruct (served_select_active_strict uid (clock e (tick w1))
              (fun updatedPurchases =>
                 Ret (respond_ok (Some (available_of updatedPurchases)))) w2)
    as (w3 & E3 & T3 & U3 & K3).
  rewrite E3. exists w3. cbn [run available_of].
  rewrite reduce_remaining_sum, T2, T1, K1.
  split; [reflexivity|]. split; [congruence |]. split; congruence.
Qed.
End ServedAlone.

Ltac serve_with e Hup :=
  let w1 := fresh "w" in
  let E := fresh "E" in
  let T := fresh "T" in
  let U := fresh "U" in
  let K := fresh "K" in
  lazymatch goal with
  | |- context [run e (Vis new_Date ?k) ?w] =>
      destruct (served_new_Date e k w) as (w1 & E & T & U & K)
  | |- context [run e (Vis (chat_completions ?n) ?k) ?w] =>
      destruct (served_chat_completions e n k w) as (w1 & E & T & U & K)
  | |- context [run e (Vis (select_active ?uid ?now) ?k) ?w] =>
      destruct (served_select_active e Hup uid now k w) as (w1 & E & T & U & K)
  | |- context [run e (Vis (select_active_strict ?uid ?now) ?k) ?w] =>
      destruct (served_select_active_strict e Hup uid now k w)
        as (w1 & E & T & U & K)
  | |- context [run e (Vis (select_oldest ?uid ?now) ?k) ?w] =>
      destruct (served_select_oldest e Hup uid now k w) as (w1 & E & T & U & K)
  | |- context [run e (Vis (update_remaining ?pid ?v) ?k) ?w] =>
      destruct (served_update_remaining e Hup pid v k w) as (w1 & E & T & U & K)
  | |- context [run e (Vis (insert_api_usage ?u) ?k) ?w] =>
      destruct (served_insert_api_usage e Hup u k w) as (w1 & E & T & U & K)
  end;
  rewrite E; clear E; cbv beta.

Ltac tables :=
  repeat match goal with
         | H : credit_purchases ?a = _ |- context [credit_purchases ?a] =>
             rewrite H
         | H : tick ?a = _ |- context [tick ?a] => rewrite H
         end.

Ltac serve_cas e Hup :=
  let w1 := fresh "w" in
  let E := fresh "E" in
  let T := fresh "T" in
  let U := fresh "U" in
  let K := fresh "K" in
  lazymatch goal with
  | |- context [run e (Vis (update_if_unchanged (Purchase.id ?m)
                              (remaining_credits ?m) ?v) ?k) ?w] =>
      destruct (served_update_if_unchanged e Hup m v k w)
        as (w1 & E & T & U & K); [tables; assumption | tables; assumption |]
  end;
  rewrite E; clear E; cbv beta iota.

Lemma timer_fired_never e w w' :
  (forall i, timer_fires e i = false) -> timer_fired e w w' = false.
Proof.
  intros H. unfold timer_fired.
  induction (seq (tick w) (tick w' - tick w)) as [| i l IH]; simpl; auto.
  rewrite H, IH. reflexivity.
Qed.

(** X13.  [analyze] served alone, with the store up, the clock at [t] and
    the inference call resolving with a text, for a user whose first credit
    check counts at least one credit: the handler takes exactly one credit,
    from the oldest purchase that the second check selects, and writes one
    usage row (naming no purchase).  It does so whether or not its timer
    fires: the client is answered 504 if the timer has fired during the
    request, and otherwise 200 with the balance of the first check less the
    credit taken (less nothing when the purchase charged has no expiry,
    which the first check does not count). *)
Theorem analyze_serves_one_credit :
  forall e w key uid t,
    (forall i, store_fails e i = false) ->
    (forall i, clock e i = t) ->
    (exists results text,
        openai e (S (S (tick w))) = resolved results
        /\ content (results 0%nat) = Some text) ->
    truthy key = false ->
    NoDup (map Purchase.id (credit_purchases w)) ->
    1 <= sum_remaining (filter (js_active_strict uid t) (credit_purchases w)) ->
    exists m w',
      oldest_active (js_active uid t) m (credit_purchases w)
      /\ run_with_timer e false (analyze key uid) w
         = (if timer_fired e w w' then timeout_response
            else respond_ok
                   (Some (sum_remaining (filter (js_active_strict uid t)
                                           (credit_purchases w))
                          - if gt_expires_at t m then 1 else 0)), w')
      /\ credit_purchases w'
         = update_by_id (Purchase.id m) (fun _ => remaining_credits m - 1)
             (credit_purchases w)
      /\ api_usage w'
         = api_usage w
           ++ [ {| Usage.user_id := uid; Usage.purchase_id := None;
                   Usage.subscription_id := None; Usage.credits_used := 1;
                   Usage.api_key_used := false |} ].
Proof.
  intros e w key uid t Hup Hclock (results & text & Hai & Htext) Hkey Hn Hbal.
  cut (exists m w',
         oldest_active (js_active uid t) m (credit_purchases w)
         /\ run e (analyze key uid) w
            = (respond_ok
                 (Some (sum_remaining (filter (js_active_strict uid t)
                                         (credit_purchases w))
                        - if gt_expires_at t m then 1 else 0)), w')
         /\ credit_purchases w'
            = update_by_id (Purchase.id m) (fun _ => remaining_credits m - 1)
                (credit_purchases w)
         /\ api_usage w'
            = api_usage w
              ++ [ {| Usage.user_id := uid; Usage.purchase_id := None;
                      Usage.subscription_id := None; Usage.credits_used := 1;
                      Usage.api_key_used := false |} ]).
  { intros (m & w' & Hold & Erun & Ht & Hu). exists m, w'.
    destruct (run_with_timer_run e (analyze key uid) false w) as [Es Ef].
    rewrite Erun in Es, Ef. cbn [fst snd orb] in Es, Ef.
    split; [exact Hold |]. split; [| split; assumption].
    rewrite (surjective_pairing (run_with_timer e false (analyze key uid) w)).
    rewrite Es, Ef. reflexivity. }
  assert (Hjs : 1 <= sum_remaining (filter (js_active uid t) (credit_purchases w))).
  { eapply Z.le_trans; [exact Hbal|]. apply sum_filter_le.
    - intros p _. apply js_active_strict_active.
    - intros p _ Hp. apply js_active_positive in Hp. lia. }
  destruct (oldest (filter (js_active uid t) (credit_purchases w)))
    as [m | err] eqn:Eo.
  2: { apply oldest_none in Eo. rewrite Eo in Hjs. simpl in Hjs. lia. }
  pose proof (oldest_is_oldest_active _ _ _ Eo) as Hold.
  destruct Hold as (Hm & Ha & Hmin).
  pose proof (js_active_positive uid t m Ha) as Hpos.
  exists m.
  unfold analyze. rewrite Hkey. unfold check_before_compute.
  serve_with e Hup. serve_with e Hup. rewrite Hclock in *.
  cbn [available_of]. rewrite reduce_remaining_sum. tables.
  replace (sum_remaining (filter (js_active_strict uid t) (credit_purchases w)) =? 0)
    with false by (symmetry; apply Z.eqb_neq; lia).
  replace (sum_remaining (filter (js_active_strict uid t) (credit_purchases w)) <? 1)
    with false by (symmetry; apply Z.ltb_ge; lia).
  cbn [orb].
  serve_with e Hup. tables. rewrite Hai, Htext.
  serve_with e Hup. serve_with e Hup. rewrite Hclock.
  cbn [is_error available_of orb]. rewrite reduce_remaining_sum. tables.
  replace (sum_remaining (filter (js_active uid t) (credit_purchases w)) <? 1)
    with false by (symmetry; apply Z.ltb_ge; lia).
  cbn [deduct_with_retries].
  serve_with e Hup. tables. rewrite Eo.
  serve_cas e Hup.
  destruct (served_log_and_respond e Hup uid None None text false w6)
    as (w7 & E7 & T7 & U7 & _).
  rewrite E7, Hclock. exists w7. rewrite T7. tables.
  split; [repeat split; assumption|].
  split; [|split; congruence].
  f_equal. f_equal. f_equal.
  destruct (gt_expires_at t m) eqn:G.
  - assert (Hs : js_active_strict uid t m = true).
    { unfold js_active_strict. unfold js_active in Ha.
      apply andb_prop in Ha. destruct Ha as [Ha _].
      apply andb_prop in Ha. destruct Ha as [Hu Hr].
      rewrite Hu, G, Hr. reflexivity. }
    rewrite (sum_active_update (js_active_strict uid t)
               (js_active_strict_zero uid t) (js_active_strict_keep uid t)
               (credit_purchases w) m (remaining_credits m - 1) Hn Hm Hs)
      by lia.
    lia.
  - rewrite (sum_active_unchanged (js_active_strict uid t)
               (credit_purchases w) m (remaining_credits m - 1) Hn Hm).
    + lia.
    + unfold js_active_strict. rewrite G. rewrite andb_false_r. reflexivity.
    + unfold js_active_strict.
      replace (gt_expires_at t (Purchase.set_remaining (remaining_credits m - 1) m))
        with (gt_expires_at t m) by (destruct m; reflexivity).
      rewrite G. rewrite andb_false_r. reflexivity.
Qed.

(** User 7 with 1 credit in the older purchase and 10 in the newer one, no
    timer firing: the older purchase is charged and the response reports 10
    credits. *)
Lemma analyze_serves_one_credit_witness :
  exists m w',
    oldest_active (js_active 7 10) m (credit_purchases (initial two_purchases))
    /\ run_with_timer (calm 10) false (analyze None 7) (initial two_purchases)
       = (if timer_fired (calm 10) (initial two_purchases) w'
          then timeout_response
          else respond_ok
                 (Some (sum_remaining
                          (filter (js_active_strict 7 10)
                             (credit_purchases (initial two_purchases)))
                        - if gt_expires_at 10 m then 1 else 0)), w')
    /\ credit_purchases w'
       = update_by_id (Purchase.id m) (fun _ => remaining_credits m - 1)
           (credit_purchases (initial two_purchases))
    /\ api_usage w'
       = api_usage (initial two_purchases)
         ++ [ {| Usage.user_id := 7; Usage.purchase_id := None;
                 Usage.subscription_id := None; Usage.credits_used := 1;
                 Usage.api_key_used := false |} ].
Proof.
  apply (analyze_serves_one_credit (calm 10) (initial two_purchases) None 7%nat 10).
  - reflexivity.
  - reflexivity.
  - eexists. eexists. split; reflexivity.
  - reflexivity.
  - repeat constructor; simpl; intuition discriminate.
  - vm_compute. discriminate.
Defined.

Lemma use_credits_table tbl uid n key now :
  snd (use_credits tbl uid n key now) = tbl.
Proof.
  unfold use_credits. destruct key; [reflexivity |].
  destruct (sum_into_INTEGER (filter (sql_active uid now) tbl)) as [v | code];
    [| reflexivity].
  destruct (v <? n); reflexivity.
Qed.

Lemma use_credits_no_success tbl uid n now r :
  fst (use_credits tbl uid n false now) = returned r -> success r = false.
Proof.
  unfold use_credits.
  destruct (sum_into_INTEGER (filter (sql_active uid now) tbl)) as [v | code];
    [| discriminate].
  destruct (v <? n); [| discriminate].
  cbn. intros H. inversion H. reflexivity.
Qed.

Lemma exec_rpc_refuses e X (o : op X) w : rpc_refuses o (fst (exec e o w)).
Proof.
  unfold exec. destruct o; cbn; try exact I.
  destruct (store_fails e (tick w)); cbn; [exact I |].
  destruct (use_credits (credit_purchases w) uid n api_key_used (clock e (tick w)))
    as [[r | code] tbl'] eqn:E; cbn; [| exact I].
  intros ->. apply (use_credits_no_success (credit_purchases w) uid n
                      (clock e (tick w))).
  rewrite E. reflexivity.
Qed.

(** One operation of a request that keeps to [watch_unserved]. *)
Lemma exec_unserved e X (o : op X) (k : X -> prog response) w :
  unserved (Vis o k) ->
  unserved (k (fst (exec e o w)))
  /\ credit_purchases (snd (exec e o w)) = credit_purchases w
  /\ api_usage (snd (exec e o w)) = api_usage w.
Proof.
  unfold unserved. cbn [on_all_paths]. intros Hp.
  specialize (Hp _ (exec_rpc_refuses e X o w)).
  destruct o; cbn [watch_unserved] in Hp; try contradiction;
    try (split; [exact Hp |]; unfold exec; cbn;
         destruct (store_fails e (tick w)); cbn; auto; fail).
  destruct api_key_used; [contradiction |].
  split; [exact Hp |]. unfold exec. cbn -[use_credits].
  destruct (store_fails e (tick w)); cbn -[use_credits]; [auto |].
  pose proof (use_credits_table (credit_purchases w) uid n false
                (clock e (tick w))) as Ht.
  destruct (use_credits (credit_purchases w) uid n false (clock e (tick w)))
    as [[r | code] tbl']; cbn in *; auto.
Qed.

Lemma run_unserved e (p : prog response) :
  forall w, unserved p ->
    credit_purchases (snd (run e p w)) = credit_purchases w
    /\ api_usage (snd (run e p w)) = api_usage w
    /\ status (fst (run e p w)) <> 200%nat.
Proof.
  induction p as [r | X o k IH]; intros w Hp; [cbn; auto |].
  destruct (exec_unserved e X o k w Hp) as (Hk & Ht & Hu).
  rewrite run_Vis.
  destruct (IH _ (snd (exec e o w)) Hk) as (A & B & C).
  rewrite A, B, Ht, Hu. auto.
Qed.

Lemma catch_block_not_ok st : status (catch_block st) <> 200%nat.
Proof. destruct (catch_block_status st) as [H | H]; rewrite H; discriminate. Qed.

Lemma analyze_rpc_unserved key uid :
  truthy key = false -> unserved (analyze_rpc key uid).
Proof.
  intros Hk. unfold unserved, analyze_rpc, check_before_compute.
  rewrite Hk. cbn.
  intros now _. cbn. intros r _.
  destruct ((available_of r =? 0) || (available_of r <? 1)); cbn;
    [discriminate |].
  intros [results | st] _; cbn; [| apply catch_block_not_ok].
  intros now' _. cbn. intros r' _.
  destruct (is_error r' || (available_of r' <? 1)); cbn; [discriminate |].
  intros [[| r0 l] | err] Hr; cbn; try discriminate.
  rewrite (Hr eq_refl). discriminate.
Qed.

(** X14.  The [use_credits] version of [analyze] serves no request from
    credits.  Whatever the store, the clock and the inference service do, a
    request without the caller's own key leaves every purchase as it was,
    writes no usage row and is not answered 200.  In particular, with the
    store up, the clock at [t], the inference call resolving, and paid,
    unexpired credits at hand (at least 1, no more than an [INTEGER] can
    hold), the request is answered 500: it gets as far as [use_credits],
    which raises. *)
Theorem analyze_rpc_serves_no_credit :
  forall e w key uid t,
    truthy key = false ->
    (credit_purchases (snd (run e (analyze_rpc key uid) w)) = credit_purchases w
     /\ api_usage (snd (run e (analyze_rpc key uid) w)) = api_usage w
     /\ status (fst (run e (analyze_rpc key uid) w)) <> 200%nat)
    /\ ((forall i, store_fails e i = false) ->
        (forall i, clock e i = t) ->
        (exists results, openai e (S (S (tick w))) = resolved results) ->
        1 <= sum_remaining (filter (sql_active uid t) (credit_purchases w))
          <= INTEGER_MAX ->
        status (fst (run e (analyze_rpc key uid) w)) = 500%nat).
Proof.
  intros e w key uid t Hkey. split.
  { apply run_unserved. apply analyze_rpc_unserved. exact Hkey. }
  intros Hup Hclock [results Hai] [Hbal Hmax].
  assert (Hstrict : 1 <= sum_remaining (filter (js_active_strict uid t)
                                          (credit_purchases w))).
  { eapply Z.le_trans; [exact Hbal |]. apply sum_filter_le.
    - intros p _. apply sql_active_strict.
    - intros p _ Hp. apply js_active_strict_active, js_active_positive in Hp.
      lia. }
  assert (Hjs : 1 <= sum_remaining (filter (js_active uid t) (credit_purchases w))).
  { eapply Z.le_trans; [exact Hstrict |]. apply sum_filter_le.
    - intros p _. apply js_active_strict_active.
    - intros p _ Hp. apply js_active_positive in Hp. lia. }
  unfold analyze_rpc. rewrite Hkey. unfold check_before_compute.
  serve_with e Hup. serve_with e Hup. rewrite Hclock in *.
  cbn [available_of]. rewrite reduce_remaining_sum. tables.
  replace (sum_remaining (filter (js_active_strict uid t) (credit_purchases w)) =? 0)
    with false by (symmetry; apply Z.eqb_neq; lia).
  replace (sum_remaining (filter (js_active_strict uid t) (credit_purchases w)) <? 1)
    with false by (symmetry; apply Z.ltb_ge; lia).
  cbn [orb].
  serve_with e Hup. tables. rewrite Hai.
  serve_with e Hup. serve_with e Hup. rewrite Hclock.
  cbn [is_error available_of orb]. rewrite reduce_remaining_sum. tables.
  replace (sum_remaining (filter (js_active uid t) (credit_purchases w)) <? 1)
    with false by (symmetry; apply Z.ltb_ge; lia).
  cbn [run]. unfold exec at 1. cbn [exec_op]. rewrite Hup, Hclock. tables.
  unfold use_credits, sum_into_INTEGER.
  replace (INTEGER_MAX <? sum_remaining (filter (sql_active uid t) (credit_purchases w)))
    with false by (symmetry; apply Z.ltb_ge; lia).
  replace (sum_remaining (filter (sql_active uid t) (credit_purchases w)) <? 1)
    with false by (symmetry; apply Z.ltb_ge; lia).
  reflexivity.
Qed.

(** User 7 with two paid purchases: the request is answered 500 and both
    purchases are as they were. *)
Lemma analyze_rpc_serves_no_credit_witness :
  credit_purchases
    (snd (run (calm 10) (analyze_rpc None 7) (initial two_purchases)))
  = two_purchases
  /\ status (fst (run (calm 10) (analyze_rpc None 7) (initial two_purchases)))
     = 500%nat.
Proof.
  destruct (analyze_rpc_serves_no_credit (calm 10) (initial two_purchases)
              None 7%nat 10 eq_refl) as [(Ht & _ & _) H].
  split; [exact Ht |].
  apply H.
  - reflexivity.
  - reflexivity.
  - eexists. reflexivity.
  - vm_compute. split; discriminate.
Defined.

Lemma sum_active_nonneg uid now tbl :
  0 <= sum_remaining (filter (js_active uid now) tbl).
Proof.
  induction tbl as [|p tbl IH]; simpl; [lia|].
  destruct (js_active uid now p) eqn:A; [|exact IH].
  apply js_active_positive in A. rewrite sum_remaining_cons. lia.
Qed.

Lemma in_active_after_zero uid now m tbl p :
  In p (update_by_id (Purchase.id m) (fun _ => 0) tbl) ->
  js_active uid now p = true -> In p tbl.
Proof.
  intros Hp Ha. apply in_update_inv in Hp.
  destruct Hp as [[Hp _] | (q & _ & _ & ->)]; [exact Hp|].
  rewrite js_active_zero in Ha. discriminate.
Qed.

Section BatchServed.
Variable e : env.
Hypothesis store_up : forall i, store_fails e i = false.
Variable uid : uuid.
Variable now : timestamp.
Variable len : nat.
Variable results : nat -> completion.
Hypothesis text_replies : forall i, content (results i) <> None.

Lemma responses_charged_length a b :
  List.length (responses_charged len results a b) = Z.to_nat b.
Proof. unfold responses_charged. rewrite length_map, length_seq. reflexivity. Qed.

Lemma deduct_batch_served (k : prog response) fuel :
  forall n w,
    (Z.to_nat n <= fuel)%nat ->
    NoDup (map Purchase.id (credit_purchases w)) ->
    0 < n <= sum_remaining (filter (js_active uid now) (credit_purchases w)) ->
    exists w' rows,
      run e (deduct_batch fuel uid now len results n k) w = run e k w'
      /\ fifo_consumed (js_active uid now) n (credit_purchases w)
           (credit_purchases w')
      /\ api_usage w' = api_usage w ++ rows
      /\ List.length rows = Z.to_nat n
      /\ Forall (charged_to uid now (credit_purchases w)) rows.
Proof.
  induction fuel as [|fuel IH]; intros n w Hfuel Hn Hle; [lia|].
  cbn [deduct_batch].
  destruct (n <=? 0) eqn:E0; [apply Z.leb_le in E0; lia|].
  serve_with e store_up.
  destruct (oldest (filter (js_active uid now) (credit_purchases w)))
    as [m | err] eqn:Eo.
  2: { apply oldest_none in Eo. rewrite Eo in Hle. simpl in Hle. lia. }
  apply oldest_is_oldest_active in Eo.
  pose proof Eo as (Hm & Ha & Hmin).
  pose proof (js_active_positive uid now m Ha) as Hpos.
  serve_with e store_up.
  match goal with |- context [run e (log_usage_rows ?j ?u ?k0) ?w2] =>
    destruct (served_log_usage_rows e store_up j u k0
                (responses_charged_text _ _ _ _ text_replies) w2)
      as (w3 & E3 & T3 & U3)
  end.
  rewrite E3. clear E3. rewrite responses_charged_length in U3.
  assert (Hrow : charged_to uid now (credit_purchases w)
                   {| Usage.user_id := uid;
                      Usage.purchase_id := Some (Purchase.id m);
                      Usage.subscription_id := Purchase.subscription_id m;
                      Usage.credits_used := 1; Usage.api_key_used := false |}).
  { unfold charged_to. simpl. repeat split. exists m. auto. }
  destruct (Z.le_gt_cases n (remaining_credits m)) as [Hcase | Hcase].
  - rewrite Z.min_l in * by exact Hcase.
    rewrite Z.sub_diag.
    exists w3. eexists. split; [destruct fuel; reflexivity|].
    split; [|split; [rewrite U3, U0, U; reflexivity|]].
    + rewrite T3, T0, T.
      apply (fifo_last_step (js_active uid now) (js_active_positive uid now));
        auto. lia.
    + split; [apply repeat_length|].
      apply Forall_forall. intros u Hu. apply repeat_spec in Hu. subst u.
      exact Hrow.
  - rewrite Z.min_r in * by lia.
    rewrite Z.sub_diag in T0.
    assert (T3' : credit_purchases w3
                  = update_by_id (Purchase.id m) (fun _ => 0) (credit_purchases w))
      by congruence.
    destruct (IH (n - remaining_credits m) w3) as (w' & rows & E' & F' & U' & L' & N').
    + lia.
    + rewrite T3', update_by_id_ids. exact Hn.
    + rewrite T3'.
      rewrite (sum_active_zeroed (js_active uid now) (js_active_zero uid now))
        by assumption.
      lia.
    + exists w'. eexists. split; [exact E'|].
      split; [|split; [rewrite U', U3, U0, U, <- app_assoc; reflexivity|]].
      * apply (fifo_more_step (js_active uid now) (js_active_positive uid now)
                 (js_active_zero uid now) _ m); auto.
        rewrite <- T3'. exact F'.
      * split; [rewrite length_app, repeat_length, L'; lia|].
        apply Forall_app. split.
        -- apply Forall_forall. intros u Hu. apply repeat_spec in Hu. subst u.
           exact Hrow.
        -- eapply Forall_impl; [|exact N'].
           intros u (H1 & H2 & H3 & p & Hp & Hact & H4 & H5).
           unfold charged_to. repeat split; auto.
           exists p. repeat split; auto.
           rewrite T3' in Hp. eapply in_active_after_zero; eauto.
Qed.

(** The loop started with fewer credits than it is to take. *)
Lemma deduct_batch_short (k : prog response) fuel :
  forall n w,
    (Z.to_nat n <= fuel)%nat ->
    NoDup (map Purchase.id (credit_purchases w)) ->
    sum_remaining (filter (js_active uid now) (credit_purchases w)) < n ->
    exists w' rows,
      run e (deduct_batch fuel uid now len results n k) w
      = (respond 402 "Failed to deduct credits" None, w')
      /\ map (Purchase.set_remaining 0) (credit_purchases w')
         = map (Purchase.set_remaining 0) (credit_purchases w)
      /\ (forall p, In p (credit_purchases w) ->
            remaining_of (credit_purchases w') (Purchase.id p)
            = if js_active uid now p then 0 else remaining_credits p)
      /\ sum_remaining (credit_purchases w')
         = sum_remaining (credit_purchases w)
           - sum_remaining (filter (js_active uid now) (credit_purchases w))
      /\ api_usage w' = api_usage w ++ rows
      /\ Z.of_nat (List.length rows)
         = sum_remaining (filter (js_active uid now) (credit_purchases w))
      /\ Forall (charged_to uid now (credit_purchases w)) rows.
Proof.
  induction fuel as [|fuel IH]; intros n w Hfuel Hn Hlt;
    pose proof (sum_active_nonneg uid now (credit_purchases w)) as H0;
    [lia|].
  cbn [deduct_batch].
  destruct (n <=? 0) eqn:E0; [apply Z.leb_le in E0; lia|].
  serve_with e store_up.
  destruct (oldest (filter (js_active uid now) (credit_purchases w)))
    as [m | err] eqn:Eo.
  2: { apply oldest_none in Eo. exists w0, []. cbn [run].
       rewrite T, U, Eo, app_nil_r. simpl.
       split; [reflexivity|]. split; [reflexivity|].
       split; [|split; [lia | split; [reflexivity | split; [reflexivity | constructor]]]].
       intros p Hp. destruct (js_active uid now p) eqn:A.
       - exfalso. assert (In p (filter (js_active uid now) (credit_purchases w)))
           by (apply filter_In; auto).
         rewrite Eo in H. exact H.
       - apply remaining_of_in; assumption. }
  apply oldest_is_oldest_active in Eo.
  pose proof Eo as (Hm & Ha & Hmin).
  pose proof (js_active_positive uid now m Ha) as Hpos.
  assert (Hmle : remaining_credits m
                 <= sum_remaining (filter (js_active uid now) (credit_purchases w))).
  { pose proof (sum_active_zeroed (js_active uid now) (js_active_zero uid now)
                  (credit_purchases w) m Hn Hm Ha) as Hz.
    pose proof (sum_active_nonneg uid now
                  (update_by_id (Purchase.id m) (fun _ => 0) (credit_purchases w))).
    lia. }
  serve_with e store_up.
  match goal with |- context [run e (log_usage_rows ?j ?u ?k0) ?w2] =>
    destruct (served_log_usage_rows e store_up j u k0
                (responses_charged_text _ _ _ _ text_replies) w2)
      as (w3 & E3 & T3 & U3)
  end.
  rewrite E3. clear E3. rewrite responses_charged_length in U3.
  rewrite Z.min_r in * by lia. rewrite Z.sub_diag in T0.
  assert (T3' : credit_purchases w3
                = update_by_id (Purchase.id m) (fun _ => 0) (credit_purchases w))
    by congruence.
  assert (Hn3 : NoDup (map Purchase.id (credit_purchases w3)))
    by (rewrite T3', update_by_id_ids; exact Hn).
  pose proof (sum_active_zeroed (js_active uid now) (js_active_zero uid now)
                (credit_purchases w) m Hn Hm Ha) as Hz.
  destruct (IH (n - remaining_credits m) w3)
    as (w' & rows & E' & R' & P' & S' & U' & L' & N').
  { lia. }
  { exact Hn3. }
  { rewrite T3', Hz. lia. }
  exists w'. eexists. split; [exact E'|].
  split; [rewrite R', T3'; apply update_by_id_rows|].
  split; [|split; [|split; [rewrite U', U3, U0, U, <- app_assoc; reflexivity|]]].
  - intros p Hp.
    destruct (Nat.eq_dec (Purchase.id p) (Purchase.id m)) as [Hid|Hid].
    + assert (p = m) by (apply (same_id_same_row _ p m Hn Hp Hm Hid)). subst p.
      rewrite Ha.
      assert (Hin0 : In (Purchase.set_remaining 0 m) (credit_purchases w3)).
      { rewrite T3'.
        apply (in_update_same m (fun _ => 0) (credit_purchases w) Hm). }
      pose proof (P' _ Hin0) as Hx.
      rewrite id_set_remaining, js_active_zero in Hx. exact Hx.
    + rewrite (P' p); [reflexivity|].
      rewrite T3'. apply in_update_other; assumption.
  - rewrite S', T3', Hz.
    rewrite sum_remaining_update by assumption. lia.
  - split.
    + rewrite length_app, repeat_length, Nat2Z.inj_add, L', T3', Hz.
      rewrite Z2Nat.id by lia. lia.
    + apply Forall_app. split.
      * apply Forall_forall. intros u Hu. apply repeat_spec in Hu. subst u.
        unfold charged_to. simpl. repeat split. exists m. auto.
      * eapply Forall_impl; [|exact N'].
        intros u (H1 & H2 & H3 & p & Hp & Hact & H4 & H5).
        unfold charged_to. repeat split; auto.
        exists p. repeat split; auto.
        rewrite T3' in Hp. eapply in_active_after_zero; eauto.
Qed.
End BatchServed.

(** X15.  [analyze-batch] served alone, with the store up, the clock at
    [t] and the inference calls resolving, each with a text, for [n] images
    and a balance of at least [n]: the request is answered 200 with the
    balance less [n],
    the [n] credits are taken oldest purchase first, and [n] usage rows are
    written, each counting one credit and naming a purchase it was taken
    from. *)
Theorem analyze_batch_serves :
  forall e w key uid t n,
    (forall i, store_fails e i = false) ->
    (forall i, clock e i = t) ->
    (exists results,
        openai e (S (S (tick w))) = resolved results
        /\ forall i, content (results i) <> None) ->
    truthy key = false ->
    NoDup (map Purchase.id (credit_purchases w)) ->
    (1 <= n)%nat ->
    Z.of_nat n <= sum_remaining (filter (js_active uid t) (credit_purchases w)) ->
    exists w' rows,
      run e (analyze_batch n key uid) w
      = (respond_ok
           (Some (sum_remaining (filter (js_active uid t) (credit_purchases w))
                  - Z.of_nat n)), w')
      /\ fifo_consumed (js_active uid t) (Z.of_nat n) (credit_purchases w)
           (credit_purchases w')
      /\ api_usage w' = api_usage w ++ rows
      /\ List.length rows = n
      /\ Forall (charged_to uid t (credit_purchases w)) rows.
Proof.
  intros e w key uid t n Hup Hclock (results & Hai & Htext) Hkey Hn Hpos Hbal.
  unfold analyze_batch. rewrite Hkey.
  serve_with e Hup. serve_with e Hup. rewrite Hclock.
  cbn [available_of]. rewrite reduce_remaining_sum. tables.
  replace (sum_remaining (filter (js_active uid t) (credit_purchases w))
           <? Z.of_nat n)
    with false by (symmetry; apply Z.ltb_ge; lia).
  serve_with e Hup. tables. rewrite Hai.
  serve_with e Hup. rewrite Hclock.
  assert (Tw : credit_purchases w3 = credit_purchases w) by congruence.
  assert (Uw : api_usage w3 = api_usage w) by congruence.
  destruct (deduct_batch_served e Hup uid t n results Htext
              (updatedPurchases <- select_active uid t ;;
               Ret (respond_ok (Some (available_of updatedPurchases))))
              n (Z.of_nat n) w3)
    as (w4 & rows & E4 & F4 & U4 & L4 & N4).
  { rewrite Nat2Z.id. lia. }
  { rewrite Tw. exact Hn. }
  { rewrite Tw. lia. }
  rewrite E4. serve_with e Hup. cbn [run available_of].
  rewrite reduce_remaining_sum. rewrite Tw in F4, N4.
  exists w5, rows.
  rewrite (fifo_consumed_balance (js_active uid t) (js_active_zero uid t)
             (js_active_keep uid t) (Z.of_nat n) (credit_purchases w)
             (credit_purchases w4) Hn F4).
  split; [reflexivity|]. rewrite T3.
  split; [exact F4|]. split; [congruence|].
  split; [rewrite L4; apply Nat2Z.id | exact N4].
Qed.

Lemma analyze_batch_serves_witness :
  exists w' rows,
    run (calm 10) (analyze_batch 3 None 7) (initial two_purchases)
    = (respond_ok (Some (11 - Z.of_nat 3)), w')
    /\ fifo_consumed (js_active 7 10) (Z.of_nat 3) two_purchases
         (credit_purchases w')
    /\ api_usage w' = [] ++ rows
    /\ List.length rows = 3%nat
    /\ Forall (charged_to 7 10 two_purchases) rows.
Proof.
  apply (analyze_batch_serves (calm 10) (initial two_purchases) None 7%nat 10
           3%nat).
  - reflexivity.
  - reflexivity.
  - eexists. split; [reflexivity | discriminate].
  - reflexivity.
  - repeat constructor; simpl; intuition discriminate.
  - lia.
  - vm_compute. discriminate.
Defined.

(** X16.  [analyze-batch] does not give back what it has taken: when the
    balance covers the [n] images at the first check but no longer when the
    deduction starts (the clock has moved on and a purchase has expired),
    the request, served alone with the store up and a text in every reply,
    is answered 402 after every purchase still selected has been emptied
    and one usage row per credit taken has been written. *)
Theorem analyze_batch_keeps_partial_deduction :
  forall e w key uid n,
    let now0 := clock e (tick w) in
    let now1 := clock e (S (S (S (tick w)))) in
    let tbl := credit_purchases w in
    (forall i, store_fails e i = false) ->
    (exists results,
        openai e (S (S (tick w))) = resolved results
        /\ forall i, content (results i) <> None) ->
    truthy key = false ->
    NoDup (map Purchase.id tbl) ->
    Z.of_nat n <= sum_remaining (filter (js_active uid now0) tbl) ->
    sum_remaining (filter (js_active uid now1) tbl) < Z.of_nat n ->
    exists w' rows,
      run e (analyze_batch n key uid) w
      = (respond 402 "Failed to deduct credits" None, w')
      /\ (forall p, In p tbl ->
            remaining_of (credit_purchases w') (Purchase.id p)
            = if js_active uid now1 p then 0 else remaining_credits p)
      /\ sum_remaining (credit_purchases w')
         = sum_remaining tbl - sum_remaining (filter (js_active uid now1) tbl)
      /\ api_usage w' = api_usage w ++ rows
      /\ Z.of_nat (List.length rows)
         = sum_remaining (filter (js_active uid now1) tbl)
      /\ Forall (charged_to uid now1 tbl) rows.
Proof.
  intros e w key uid n now0 now1 tbl Hup (results & Hai & Htext) Hkey Hn Hbal
    Hshort.
  subst tbl. unfold analyze_batch. rewrite Hkey.
  serve_with e Hup. serve_with e Hup. fold now0.
  cbn [available_of]. rewrite reduce_remaining_sum. tables.
  replace (sum_remaining (filter (js_active uid now0) (credit_purchases w))
           <? Z.of_nat n)
    with false by (symmetry; apply Z.ltb_ge; lia).
  serve_with e Hup. tables. rewrite Hai.
  serve_with e Hup. tables. fold now1.
  assert (Tw : credit_purchases w3 = credit_purchases w) by congruence.
  assert (Uw : api_usage w3 = api_usage w) by congruence.
  destruct (deduct_batch_short e Hup uid now1 n results Htext
              (updatedPurchases <- select_active uid now1 ;;
               Ret (respond_ok (Some (available_of updatedPurchases))))
              n (Z.of_nat n) w3)
    as (w4 & rows & E4 & R4 & P4 & S4 & U4 & L4 & N4).
  { rewrite Nat2Z.id. lia. }
  { rewrite Tw. exact Hn. }
  { rewrite Tw. exact Hshort. }
  rewrite E4. rewrite Tw in P4, S4, L4, N4. exists w4, rows.
  split; [reflexivity|]. split; [exact P4|]. split; [exact S4|].
  split; [congruence|]. split; assumption.
Qed.

Lemma analyze_batch_keeps_partial_deduction_witness :
  exists w' rows,
    run slow_inference (analyze_batch 2 None 7) (initial expiring_purchases)
    = (respond 402 "Failed to deduct credits" None, w')
    /\ (forall p, In p expiring_purchases ->
          remaining_of (credit_purchases w') (Purchase.id p)
          = if js_active 7 2000 p then 0 else remaining_credits p)
    /\ sum_remaining (credit_purchases w')
       = sum_remaining expiring_purchases
         - sum_remaining (filter (js_active 7 2000) expiring_purchases)
    /\ api_usage w' = [] ++ rows
    /\ Z.of_nat (List.length rows)
       = sum_remaining (filter (js_active 7 2000) expiring_purchases)
    /\ Forall (charged_to 7 2000 expiring_purchases) rows.
Proof.
  apply (analyze_batch_keeps_partial_deduction slow_inference
           (initial expiring_purchases) None 7%nat 2%nat).
  - reflexivity.
  - eexists. split; [reflexivity | discriminate].
  - reflexivity.
  - repeat constructor; simpl; intuition discriminate.
  - vm_compute. discriminate.
  - vm_compute. reflexivity.
Defined.




Lemma run_with_timer_served e (p : prog response) w r w' :
  run e p w = (r, w') ->
  run_with_timer e false p w
  = (if timer_fired e w w' then timeout_response else r, w').
Proof.
  intros E. destruct (run_with_timer_run e p false w) as [Es Ef].
  rewrite E in Es, Ef. cbn [fst snd orb] in Es, Ef.
  rewrite (surjective_pairing (run_with_timer e false p w)).
  rewrite Es, Ef. reflexivity.
Qed.

(** X18.  What a request on the caller's own key is logged as.  Served
    alone with the store up and the inference call resolving with a text in
    every reply, [analyze] (in both versions) leaves the purchases as they
    are and writes one usage row with [api_key_used] true and
    [credits_used] 1; the version without a timer answers 200, and the
    version with the timer answers 200 unless the timer fired while the
    request was served, in which case the client reads 504 and the row is
    written all the same.  [analyze-batch] answers 200 with no balance,
    leaves the purchases as they are and writes one usage row per image
    with [api_key_used] true and [credits_used] 0. *)
Theorem own_key_usage_rows :
  forall e w key uid n,
    (forall i, store_fails e i = false) ->
    truthy key = true ->
    (exists results,
        openai e (tick w) = resolved results
        /\ forall i, content (results i) <> None) ->
    let balance :=
      sum_remaining (filter (js_active_strict uid (clock e (S (S (tick w)))))
                       (credit_purchases w)) in
    let logged credits :=
      {| Usage.user_id := uid; Usage.purchase_id := None;
         Usage.subscription_id := None; Usage.credits_used := credits;
         Usage.api_key_used := true |} in
    (exists w',
       run_with_timer e false (analyze key uid) w
       = (if timer_fired e w w' then timeout_response
          else respond_ok (Some balance), w')
       /\ credit_purchases w' = credit_purchases w
       /\ api_usage w' = api_usage w ++ [logged 1])
    /\ (exists w',
          run e (analyze_rpc key uid) w = (respond_ok (Some balance), w')
          /\ credit_purchases w' = credit_purchases w
          /\ api_usage w' = api_usage w ++ [logged 1])
    /\ (exists w',
          run e (analyze_batch n key uid) w = (respond_ok None, w')
          /\ credit_purchases w' = credit_purchases w
          /\ api_usage w' = api_usage w ++ repeat (logged 0) n).
Proof.
  intros e w key uid n Hup Hkey (results & Hai & Htext) balance logged.
  subst logged. cbv beta.
  destruct (content (results 0%nat)) as [text |] eqn:Etext;
    [| exfalso; exact (Htext 0%nat Etext)].
  split; [|split].
  - cut (exists w',
           run e (analyze key uid) w = (respond_ok (Some balance), w')
           /\ credit_purchases w' = credit_purchases w
           /\ api_usage w' = api_usage w
                ++ [ {| Usage.user_id := uid; Usage.purchase_id := None;
                        Usage.subscription_id := None; Usage.credits_used := 1;
                        Usage.api_key_used := true |} ]).
    { intros (w' & E & T & U). exists w'.
      rewrite (run_with_timer_served e _ w _ w' E). auto. }
    unfold analyze, check_before_compute. rewrite Hkey.
    serve_with e Hup. rewrite Hai. rewrite Etext.
    destruct (served_log_and_respond e Hup uid None None text true w0)
      as (w1 & E1 & T1 & U1 & _).
    rewrite E1. exists w1. subst balance. tables.
    split; [reflexivity|]. split; congruence.
  - unfold analyze_rpc, check_before_compute. rewrite Hkey.
    serve_with e Hup. rewrite Hai. rewrite Etext.
    destruct (served_log_and_respond e Hup uid None None text true w0)
      as (w1 & E1 & T1 & U1 & _).
    rewrite E1. exists w1. subst balance. tables.
    split; [reflexivity|]. split; congruence.
  - unfold analyze_batch. rewrite Hkey.
    serve_with e Hup. rewrite Hai.
    match goal with |- context [run e (log_usage_rows ?rs ?u ?k0) w0] =>
      assert (Hrs : Forall (fun r : option string => r <> None) rs)
        by (apply Forall_forall; intros r Hr; apply in_map_iff in Hr;
            destruct Hr as (i & <- & _); apply Htext);
      destruct (served_log_usage_rows e Hup rs u k0 Hrs w0)
        as (w1 & E1 & T1 & U1)
    end.
    rewrite E1. exists w1. cbn [run].
    rewrite length_map, length_seq in U1.
    split; [reflexivity|]. split; congruence.
Qed.

Lemma own_key_usage_rows_witness :
  exists w',
    run (calm 10) (analyze_batch 2 (Some "sk-own"%string) 7)
      (initial two_purchases)
    = (respond_ok None, w')
    /\ credit_purchases w' = two_purchases
    /\ api_usage w'
       = [] ++ repeat {| Usage.user_id := 7; Usage.purchase_id := None;
                         Usage.subscription_id := None; Usage.credits_used := 0;
                         Usage.api_key_used := true |} 2.
Proof.
  apply (own_key_usage_rows (calm 10) (initial two_purchases)
           (Some "sk-own"%string) 7%nat 2%nat).
  - reflexivity.
  - reflexivity.
  - eexists. split; [reflexivity | discriminate].
Defined.

(** ** Concurrent requests through [use_credits] *)

Lemma Forall_set_nth {A} (P : A -> Prop) a :
  forall i l, Forall P l -> P a -> Forall P (set_nth i a l).
Proof.
  intros i l H. revert i.
  induction H as [| b l Hb Hl IH]; intros i Ha;
    [destruct i; constructor |].
  destruct i; cbn [set_nth]; constructor; auto.
Qed.

Lemma step_unserved e i pool w :
  Forall unserved pool ->
  Forall unserved (fst (step e i pool w))
  /\ credit_purchases (snd (step e i pool w)) = credit_purchases w
  /\ api_usage (snd (step e i pool w)) = api_usage w.
Proof.
  intros Hpool. unfold step.
  destruct (nth_error pool i) as [[r | X o k] |] eqn:Ei; cbn [fst snd]; auto.
  assert (Hp : unserved (Vis o k)).
  { rewrite Forall_forall in Hpool. apply Hpool.
    eapply nth_error_In. exact Ei. }
  destruct (exec_unserved e X o k w Hp) as (Hk & Ht & Hu).
  destruct (exec e o w) as [x w1]. cbn [fst snd] in *.
  split; [| auto]. apply Forall_set_nth; assumption.
Qed.

Lemma interleave_unserved e schedule :
  forall pool w,
    Forall unserved pool ->
    Forall unserved (fst (interleave e schedule pool w))
    /\ credit_purchases (snd (interleave e schedule pool w)) = credit_purchases w
    /\ api_usage (snd (interleave e schedule pool w)) = api_usage w.
Proof.
  induction schedule as [| i rest IH]; intros pool w Hpool; cbn [interleave];
    [auto |].
  destruct (step_unserved e i pool w Hpool) as (Hp & Ht & Hu).
  destruct (step e i pool w) as [pool1 w1]. cbn [fst snd] in *.
  destruct (IH pool1 w1 Hp) as (A & B & C).
  rewrite B, C, Ht, Hu. auto.
Qed.

Lemma unserved_successes pool : Forall unserved pool -> successes pool = 0%nat.
Proof.
  unfold successes.
  induction 1 as [| p pool Hp Hpool IH]; [reflexivity |].
  cbn [filter]. destruct p as [r | X o k]; cbn [finished]; [| exact IH].
  unfold unserved in Hp. cbn [on_all_paths] in Hp.
  apply Nat.eqb_neq in Hp. rewrite Hp. exact IH.
Qed.

(** X19.  Any number of requests to the [use_credits] version of [analyze]
    of one user, paid from credits and served at the same time in any
    interleaving of their operations, whatever the store, the clock and the
    inference service do: every purchase stays as it was, no usage row is
    written, and no request is answered 200. *)
Theorem use_credits_pool_serves_no_credit :
  forall (e : env) (schedule : list nat) (K : nat) (uid : uuid) (w : world),
    let served := interleave e schedule (repeat (analyze_rpc None uid) K) w in
    credit_purchases (snd served) = credit_purchases w
    /\ api_usage (snd served) = api_usage w
    /\ successes (fst served) = 0%nat.
Proof.
  intros e schedule K uid w served.
  assert (Hpool : Forall unserved (repeat (analyze_rpc None uid) K)).
  { apply Forall_forall. intros p Hp. apply repeat_spec in Hp. subst p.
    apply analyze_rpc_unserved. reflexivity. }
  destruct (interleave_unserved e schedule _ w Hpool) as (A & B & C).
  fold served in A, B, C.
  split; [exact B |]. split; [exact C |]. apply unserved_successes. exact A.
Qed.

(** ** The webhook and the purchases *)

Lemma fresh_uuid_fresh used : ~ In (fresh_uuid used) used.
Proof.
  unfold fresh_uuid. intros Hin.
  assert (H : Forall (fun x => (x <= list_max used)%nat) used)
    by (apply list_max_le; apply Nat.le_refl).
  rewrite Forall_forall in H. specialize (H _ Hin). lia.
Qed.

Lemma appended_refl l : appended l l.
Proof. exists []. rewrite app_nil_r. simpl. auto. Qed.

Lemma insert_purchase_appended d uid sid amount cs kind ex now :
  appended (purchases d)
    (purchases (insert_purchase d uid sid amount cs kind ex now)).
Proof.
  unfold insert_purchase.
  destruct (has_user d uid && has_subscription d sid); [|apply appended_refl].
  eexists. split; [reflexivity|]. split; [simpl; lia|].
  constructor; [|constructor]. split.
  - unfold granted. simpl. repeat split. discriminate.
  - simpl. apply fresh_uuid_fresh.
Qed.

Lemma purchases_update_user uid f d :
  purchases (update_user uid f d) = purchases d.
Proof. reflexivity. Qed.

Lemma checkout_appended cfg now c acc s d :
  appended (purchases d) (purchases (handleCheckoutCompleted cfg now c acc s d)).
Proof.
  unfold handleCheckoutCompleted.
  destruct (metadata_user_id s) as [userId|]; [|apply appended_refl].
  set (d0 := update_user userId _ d).
  destruct (String.eqb (metadata_purchase_type s) "subscription").
  - destruct (insert_subscription d0 acc userId _ _ _ _ _ _) as [[sub d1]|code]
      eqn:I; [|apply appended_refl].
    apply insert_subscription_accepted in I.
    destruct I as (_ & _ & Hp & _).
    rewrite purchases_insert_history, purchases_update_user.
    change (purchases d) with (purchases d0). rewrite <- Hp.
    apply insert_purchase_appended.
  - destruct (String.eqb (metadata_purchase_type s) "topup");
      [|apply appended_refl].
    destruct (active_subscription d0 userId); [|apply appended_refl].
    change (purchases d) with (purchases d0). apply insert_purchase_appended.
Qed.

Lemma renewal_appended acc now i d :
  appended (purchases d) (purchases (handleInvoicePaymentSucceeded acc now i d)).
Proof.
  unfold handleInvoicePaymentSucceeded.
  destruct (invoice_subscription i); [|apply appended_refl].
  destruct (subscription_by_ref d s); [|apply appended_refl].
  destruct (String.eqb (billing_reason i) "subscription_cycle");
    [|apply appended_refl].
  rewrite purchases_insert_history.
  match goal with |- appended _ (purchases (insert_purchase ?d0 _ _ _ _ _ _ _)) =>
    replace (purchases d) with (purchases d0) by (destruct acc; reflexivity)
  end.
  apply insert_purchase_appended.
Qed.

Lemma subscription_update_purchases acc sub d :
  purchases (handleSubscriptionUpdate acc sub d) = purchases d.
Proof.
  unfold handleSubscriptionUpdate.
  destruct (subscription_by_ref d (stripe_id sub)); [|reflexivity].
  rewrite purchases_insert_history. destruct acc; reflexivity.
Qed.

Lemma subscription_deleted_purchases acc sub d :
  purchases (handleSubscriptionDeleted acc sub d) = purchases d.
Proof.
  unfold handleSubscriptionDeleted.
  destruct (subscription_by_ref d (stripe_id sub)); [|reflexivity].
  rewrite purchases_insert_history. destruct acc; reflexivity.
Qed.

Lemma payment_failed_purchases i d :
  purchases (handleInvoicePaymentFailed i d) = purchases d.
Proof.
  unfold handleInvoicePaymentFailed.
  destruct (invoice_subscription i); [|reflexivity].
  destruct (subscription_by_ref d s); reflexivity.
Qed.

Lemma webhook_appended cfg now c acc ev d :
  appended (purchases d) (purchases (webhook cfg now c acc ev d)).
Proof.
  destruct ev; simpl;
    rewrite ?subscription_update_purchases, ?subscription_deleted_purchases,
      ?payment_failed_purchases;
    try apply appended_refl.
  - apply checkout_appended.
  - apply renewal_appended.
Qed.

(** X20.  The webhook never rewrites a purchase: whatever the event, the
    purchases after it are the purchases before it with at most one row
    appended, which is paid, unused, has an expiry and a new id; and only
    [checkout.session.completed] and [invoice.payment_succeeded] append
    one. *)
Theorem webhook_only_appends_purchases :
  forall cfg now created_customer accepted ev d,
    appended (purchases d)
      (purchases (webhook cfg now created_customer accepted ev d))
    /\ (grants_credits ev = false ->
        purchases (webhook cfg now created_customer accepted ev d)
        = purchases d).
Proof.
  intros cfg now c acc ev d. destruct ev; simpl.
  - split; [apply checkout_appended | discriminate].
  - rewrite subscription_update_purchases. split; [apply appended_refl | auto].
  - rewrite subscription_update_purchases. split; [apply appended_refl | auto].
  - rewrite subscription_deleted_purchases. split; [apply appended_refl | auto].
  - split; [apply renewal_appended | discriminate].
  - rewrite payment_failed_purchases. split; [apply appended_refl | auto].
  - split; [apply appended_refl | auto].
Qed.

Lemma appended_ids before after :
  appended before after ->
  NoDup (map Purchase.id before) -> NoDup (map Purchase.id after).
Proof.
  intros (added & -> & Hlen & Hall) Hn.
  destruct added as [|p [|q added]]; [rewrite app_nil_r; exact Hn | |simpl in Hlen; lia].
  inversion Hall as [|? ? [_ Hp] _]; subst.
  rewrite map_app. simpl.
  apply NoDup_app; auto.
  - repeat constructor. simpl. tauto.
  - intros a Ha [Hb|[]]. subst a. tauto.
Qed.

(** X21.  Whatever events Stripe delivers, in whatever order and however
    often, a table of purchases with distinct ids keeps distinct ids, and
    no purchase that was there is changed or removed: the purchases before
    are a prefix of the purchases after. *)
Theorem deliveries_keep_purchases :
  forall cfg events d,
    NoDup (map Purchase.id (purchases d)) ->
    NoDup (map Purchase.id (purchases (deliver cfg events d)))
    /\ exists added,
         purchases (deliver cfg events d) = purchases d ++ added
         /\ Forall granted added.
Proof.
  intros cfg events. induction events as [|[[[now c] acc] ev] events IH];
    intros d Hn.
  - simpl. split; [exact Hn|]. exists []. rewrite app_nil_r. auto.
  - cbn [deliver].
    pose proof (webhook_appended cfg now c acc ev d) as Ha.
    pose proof (appended_ids _ _ Ha Hn) as Hn1.
    destruct (IH _ Hn1) as [Hn2 (added2 & E2 & G2)].
    split; [exact Hn2|].
    destruct Ha as (added1 & E1 & _ & G1).
    exists (added1 ++ added2). rewrite E2, E1, app_assoc.
    split; [reflexivity|]. apply Forall_app. split; [|exact G2].
    eapply Forall_impl; [|exact G1]. intros p [Hp _]. exact Hp.
Qed.

Lemma deliveries_keep_purchases_witness :
  NoDup (map Purchase.id
           (purchases (deliver sample_settings
                         [ (20, "cus_x"%string, true,
                            invoice_payment_succeeded renewal_invoice);
                           (30, "cus_x"%string, true,
                            invoice_payment_succeeded renewal_invoice) ]
                         subscribed_db))).
Proof.
  apply (deliveries_keep_purchases sample_settings
           [ (20, "cus_x"%string, true, invoice_payment_succeeded renewal_invoice);
             (30, "cus_x"%string, true, invoice_payment_succeeded renewal_invoice) ]
           subscribed_db).
  repeat constructor; simpl; intuition discriminate.
Defined.

(** ** Subscription events *)










Lemma users_insert_history d sid uid ty ev :
  users (insert_history d sid uid ty ev) = users d.
Proof. apply insert_history_tables. Qed.












(** ** Coupon redemption *)

Lemma has_user_insert_user d uid : has_user (insert_user d uid) uid = true.
Proof.
  unfold has_user, insert_user. simpl. rewrite existsb_app. simpl.
  rewrite Nat.eqb_refl. apply orb_true_r.
Qed.

Lemma coupon_catch_status code : status (coupon_catch code) <> 200%nat.
Proof. unfold coupon_catch. destruct (String.eqb code "23505"); discriminate. Qed.

(** What [redeem_coupon] does, by cases: it stops before the insert of the
    subscription, or it inserts the subscription and then either stops at
    the insert of the purchase or goes through. *)
Lemma redeem_coupon_cases up test cfg clock fails code uid d :
  let r := redeem_coupon up test cfg clock fails code uid d in
  let d0 := if has_user d uid then d else insert_user d uid in
  let period_end := clock 2%nat + PRO_VALIDITY_DAYS cfg * 24 * 60 * 60 * 1000 in
  (status (fst r) <> 200%nat /\ (snd r = d \/ snd r = d0))
  \/ (exists c t sub d1,
        code = Some c /\ test = Some t /\ up c = up t
        /\ has_user d0 uid = true
        /\ (fails 2%nat = None ->
            unexpired_subscription d0 uid (clock 0%nat) = None)
        /\ insert_subscription d0 true uid
             (Some (stamped "COUPON_SUB_" (clock 3%nat)))
             (Some "COUPON_CUSTOMER"%string) (Some "COUPON_PRICE"%string)
             (clock 1%nat) period_end (PRO_CREDITS_PER_MONTH cfg)
           = returned (sub, d1)
        /\ ((exists code4,
               fails 4%nat = Some code4 /\ r = (coupon_catch code4, d1))
            \/ r = (respond_ok (Some (PRO_CREDITS_PER_MONTH cfg)),
                    let d2 :=
                      insert_purchase d1 uid (Subscription.id sub)
                        (PRO_CREDITS_PER_MONTH cfg)
                        (Some (stamped "COUPON_SESSION_" (clock 5%nat)))
                        kind_subscription period_end (clock 6%nat) in
                    let d3 :=
                      if is_some (fails 5%nat) then d2
                      else update_user uid (set_tier pro) d2 in
                    if is_some (fails 6%nat) then d3
                    else insert_history d3 (Subscription.id sub) uid "created"
                           (stamped "COUPON_REDEEM_" (clock 7%nat))))).
Proof.
  intros r d0 pe. subst r. unfold redeem_coupon.
  destruct code as [[| a c] |];
    [left; simpl; split; [discriminate | auto] | |
     left; simpl; split; [discriminate | auto]].
  cbv zeta.
  set (existingUser := has_user d uid && negb (is_some (fails 0%nat))).
  destruct (negb existingUser && (is_some (fails 1%nat) || has_user d uid))
    eqn:Epre; [left; simpl; split; [discriminate | auto] |].
  assert (Hd0 : (if existingUser then d else insert_user d uid) = d0
                /\ has_user d0 uid = true).
  { subst existingUser d0.
    destruct (has_user d uid) eqn:U; destruct (is_some (fails 0%nat));
      destruct (is_some (fails 1%nat)); simpl in *; try discriminate;
      split; auto; apply has_user_insert_user. }
  destruct Hd0 as [-> Hu0].
  destruct test as [[| b t] |];
    [left; simpl; split; [discriminate | auto] | |
     left; simpl; split; [discriminate | auto]].
  destruct (String.eqb (up (String a c)) (up (String b t))) eqn:Ecode;
    cbn [negb]; cbv iota;
    [| left; simpl; split; [discriminate | auto]].
  apply String.eqb_eq in Ecode.
  assert (Hcheck :
            (exists s,
                (if is_some (fails 2%nat) then None
                 else unexpired_subscription d0 uid (clock 0%nat)) = Some s)
            \/ ((if is_some (fails 2%nat) then None
                 else unexpired_subscription d0 uid (clock 0%nat)) = None
                /\ (fails 2%nat = None ->
                    unexpired_subscription d0 uid (clock 0%nat) = None))).
  { destruct (fails 2%nat) as [c2 |]; cbn [is_some].
    - right. split; [reflexivity | discriminate].
    - destruct (unexpired_subscription d0 uid (clock 0%nat)) as [s |];
        [left; exists s; reflexivity | right; auto]. }
  destruct Hcheck as [[s Hs] | [Hnone Hun]].
  { rewrite Hs. left. simpl. split; [discriminate | auto]. }
  rewrite Hnone.
  destruct (fails 3%nat) as [c3 |] eqn:F3;
    [left; cbn [fst snd]; split; [apply coupon_catch_status | auto] |].
  fold pe.
  pose proof (insert_subscription_outcome d0 true uid
                (Some (stamped "COUPON_SUB_" (clock 3%nat)))
                (Some "COUPON_CUSTOMER"%string) (Some "COUPON_PRICE"%string)
                (clock 1%nat) pe (PRO_CREDITS_PER_MONTH cfg)) as Ho.
  destruct (insert_subscription d0 true uid _ _ _ _ _ _) as [[sub d1] | code3]
    eqn:Eins;
    [| left; cbn [fst snd]; split; [apply coupon_catch_status | auto]].
  right. exists (String a c), (String b t), sub, d1.
  split; [reflexivity |]. split; [reflexivity |]. split; [exact Ecode |].
  split; [exact Hu0 |]. split; [exact Hun |]. split; [reflexivity |].
  destruct (fails 4%nat) as [c4 |] eqn:F4.
  { left. exists c4. split; reflexivity. }
  right.
  destruct Ho as (_ & Hus & Hss & _).
  assert (Hfk : has_user d1 uid && has_subscription d1 (Subscription.id sub)
                = true).
  { rewrite (has_user_same_users d0 d1 uid Hus), Hu0. cbn [andb].
    unfold has_subscription. rewrite Hss, existsb_app. cbn [existsb].
    rewrite Nat.eqb_refl. cbn. apply orb_true_r. }
  rewrite Hfk. reflexivity.
Qed.



(** X27.  A redemption answered 200 was made with the configured code, up
    to upper case, and grants once: one active subscription of the user is
    added, and one purchase of [PRO_CREDITS_PER_MONTH] credits, unused,
    paid, tied to that subscription and expiring with its period; the
    response reports that number of credits.  The user is on the pro tier
    if the update of the tier went through; where it failed the request is
    answered 200 all the same. *)
Theorem coupon_redemption_grants_once :
  forall toUpperCase TEST_COUPON cfg clock fails coupon_code userId d,
    let r := redeem_coupon toUpperCase TEST_COUPON cfg clock fails coupon_code
               userId d in
    let period_end :=
      clock 2%nat + PRO_VALIDITY_DAYS cfg * 24 * 60 * 60 * 1000 in
    status (fst r) = 200%nat ->
    exists code test sub p,
      coupon_code = Some code /\ TEST_COUPON = Some test
      /\ toUpperCase code = toUpperCase test
      /\ fails 3%nat = None /\ fails 4%nat = None
      /\ subscriptions (snd r) = subscriptions d ++ [sub]
      /\ Subscription.user_id sub = userId
      /\ Subscription.status sub = active
      /\ Subscription.current_period_end sub = period_end
      /\ purchases (snd r) = purchases d ++ [p]
      /\ granted p
      /\ Purchase.user_id p = userId
      /\ Purchase.credits p = PRO_CREDITS_PER_MONTH cfg
      /\ Purchase.subscription_id p = Some (Subscription.id sub)
      /\ expires_at p = Some period_end
      /\ body_credits (fst r) = Some (PRO_CREDITS_PER_MONTH cfg)
      /\ (fails 5%nat = None ->
          forall u, In u (users (snd r)) -> User.id u = userId ->
                    User.tier_of u = pro).
Proof.
  intros up test cfg clock fails code uid d r period_end Hst.
  destruct (redeem_coupon_cases up test cfg clock fails code uid d)
    as [(Hne & _) | (c & t & sub & d1 & Hc & Ht & Hup & Hu0 & _ & Hins & Hr)].
  { exfalso. apply Hne. exact Hst. }
  fold r period_end in Hr, Hins.
  set (d0 := if has_user d uid then d else insert_user d uid) in *.
  assert (Hd0 : subscriptions d0 = subscriptions d /\ purchases d0 = purchases d).
  { subst d0. destruct (has_user d uid); simpl; auto. }
  destruct Hd0 as [Hs0 Hp0].
  assert (F3 : fails 3%nat = None).
  { destruct (fails 3%nat) as [c3 |] eqn:F3; [| reflexivity].
    exfalso. revert Hst. subst r. unfold redeem_coupon.
    rewrite Hc, Ht. clear -F3.
    destruct c; [discriminate |].
    cbv zeta.
    destruct (negb _ && _); [discriminate |].
    destruct t; [discriminate |].
    destruct (negb _); [discriminate |].
    destruct (if is_some (fails 2%nat) then None else _); [discriminate |].
    rewrite F3. apply coupon_catch_status. }
  pose proof (insert_subscription_outcome d0 true uid
                (Some (stamped "COUPON_SUB_" (clock 3%nat)))
                (Some "COUPON_CUSTOMER"%string) (Some "COUPON_PRICE"%string)
                (clock 1%nat) period_end (PRO_CREDITS_PER_MONTH cfg)) as Ho.
  rewrite Hins in Ho.
  destruct Ho as (_ & Hus & Hss & Hps & _ & _ & _ & Huid & Hact & _ & Hend & _).
  destruct Hr as [(c4 & F4 & E) | E].
  { exfalso. rewrite E in Hst. exact (coupon_catch_status c4 Hst). }
  assert (F4 : fails 4%nat = None).
  { destruct (fails 4%nat) as [c4 |] eqn:F4; [| reflexivity].
    exfalso. revert Hst. subst r. unfold redeem_coupon.
    rewrite Hc, Ht. clear -F4.
    destruct c; [discriminate |].
    cbv zeta.
    destruct (negb _ && _); [discriminate |].
    destruct t; [discriminate |].
    destruct (negb _); [discriminate |].
    destruct (if is_some (fails 2%nat) then None else _); [discriminate |].
    destruct (fails 3%nat); [apply coupon_catch_status |].
    destruct (insert_subscription _ _ _ _ _ _ _ _ _) as [[s0 d0] | c0];
      [| apply coupon_catch_status].
    rewrite F4. apply coupon_catch_status. }
  assert (Hu1 : has_user d1 uid = true)
    by (rewrite (has_user_same_users d0 d1 uid Hus); exact Hu0).
  assert (Hsub1 : has_subscription d1 (Subscription.id sub) = true).
  { unfold has_subscription. rewrite Hss, existsb_app. cbn [existsb].
    rewrite Nat.eqb_refl. cbn. apply orb_true_r. }
  set (d2 := insert_purchase d1 uid (Subscription.id sub)
               (PRO_CREDITS_PER_MONTH cfg)
               (Some (stamped "COUPON_SESSION_" (clock 5%nat)))
               kind_subscription period_end (clock 6%nat)) in E.
  set (d3 := if is_some (fails 5%nat) then d2
             else update_user uid (set_tier pro) d2) in E.
  assert (T3 : subscriptions d3 = subscriptions d ++ [sub]
               /\ purchases d3
                  = purchases d
                    ++ [ {| Purchase.id := fresh_uuid (map Purchase.id (purchases d1));
                            Purchase.user_id := uid;
                            Purchase.subscription_id := Some (Subscription.id sub);
                            Purchase.credits := PRO_CREDITS_PER_MONTH cfg;
                            Purchase.remaining_credits := PRO_CREDITS_PER_MONTH cfg;
                            Purchase.stripe_checkout_session_id :=
                              Some (stamped "COUPON_SESSION_" (clock 5%nat));
                            Purchase.purchase_type := kind_subscription;
                            Purchase.expires_at := Some period_end;
                            Purchase.payment_status := completed;
                            Purchase.created_at := clock 6%nat |} ]).
  { assert (T2 : subscriptions d3 = subscriptions d2
                 /\ purchases d3 = purchases d2)
      by (unfold d3; destruct (is_some (fails 5%nat)); split; reflexivity).
    destruct T2 as [-> ->]. unfold d2.
    rewrite subscriptions_insert_purchase. unfold insert_purchase.
    rewrite Hu1, Hsub1. cbn [andb purchases].
    rewrite Hss, Hps, Hs0, Hp0. split; reflexivity. }
  destruct T3 as [S3 P3].
  assert (T : subscriptions (snd r) = subscriptions d3
              /\ purchases (snd r) = purchases d3
              /\ users (snd r) = users d3).
  { rewrite E. cbn [snd]. destruct (is_some (fails 6%nat)); [auto |].
    rewrite subscriptions_insert_history, purchases_insert_history,
      users_insert_history. auto. }
  destruct T as (-> & -> & Usr).
  exists c, t, sub.
  eexists. split; [exact Hc |]. split; [exact Ht |]. split; [exact Hup |].
  split; [exact F3 |]. split; [exact F4 |].
  split; [exact S3 |]. split; [exact Huid |]. split; [exact Hact |].
  split; [exact Hend |]. split; [exact P3 |].
  split; [unfold granted; simpl; repeat split; discriminate |].
  repeat (split; [reflexivity |]).
  split; [rewrite E; reflexivity |].
  intros F5 u Hin Hid. rewrite Usr in Hin. unfold d3 in Hin.
  rewrite F5 in Hin. cbn [is_some] in Hin.
  unfold update_user in Hin. cbn [users] in Hin.
  apply in_map_iff in Hin. destruct Hin as (u0 & Hu & _).
  destruct (User.id u0 =? uid)%nat eqn:E0.
  - subst u. reflexivity.
  - subst u. apply Nat.eqb_neq in E0. contradiction.
Qed.

Lemma coupon_redemption_grants_once_witness :
  exists code test sub p,
    Some "freepro"%string = Some code /\ Some "FREEPRO"%string = Some test
    /\ upper_ascii code = upper_ascii test
    /\ (fun _ : nat => @None string) 3%nat = None
    /\ (fun _ : nat => @None string) 4%nat = None
    /\ subscriptions (snd (redeem_coupon upper_ascii (Some "FREEPRO"%string)
                             sample_settings (fun _ => 10) (fun _ => None)
                             (Some "freepro"%string) 7 new_user_db))
       = subscriptions new_user_db ++ [sub]
    /\ Subscription.user_id sub = 7%nat
    /\ Subscription.status sub = active
    /\ Subscription.current_period_end sub = 10 + 30 * 24 * 60 * 60 * 1000
    /\ purchases (snd (redeem_coupon upper_ascii (Some "FREEPRO"%string)
                         sample_settings (fun _ => 10) (fun _ => None)
                         (Some "freepro"%string) 7 new_user_db))
       = purchases new_user_db ++ [p]
    /\ granted p
    /\ Purchase.user_id p = 7%nat
    /\ Purchase.credits p = 200
    /\ Purchase.subscription_id p = Some (Subscription.id sub)
    /\ expires_at p = Some (10 + 30 * 24 * 60 * 60 * 1000)
    /\ body_credits (fst (redeem_coupon upper_ascii (Some "FREEPRO"%string)
                            sample_settings (fun _ => 10) (fun _ => None)
                            (Some "freepro"%string) 7 new_user_db))
       = Some 200
    /\ ((fun _ : nat => @None string) 5%nat = None ->
        forall u,
          In u (users (snd (redeem_coupon upper_ascii (Some "FREEPRO"%string)
                              sample_settings (fun _ => 10) (fun _ => None)
                              (Some "freepro"%string) 7 new_user_db))) ->
          User.id u = 7%nat -> User.tier_of u = pro).
Proof.
  apply (coupon_redemption_grants_once upper_ascii (Some "FREEPRO"%string)
           sample_settings (fun _ => 10) (fun _ => None) (Some "freepro"%string)
           7%nat new_user_db).
  vm_compute. reflexivity.
Defined.

Lemma no_unexpired_subscription uid now (l : list Subscription.row) :
  (forall s, In s l -> Subscription.user_id s = uid ->
             Subscription.status s = active ->
             Subscription.current_period_end s <= now) ->
  filter (fun s => (Subscription.user_id s =? uid)%nat
                   && match Subscription.status s with
                      | active => true
                      | _ => false
                      end
                   && (now <? Subscription.current_period_end s)) l = [].
Proof.
  induction l as [|s l IH]; intros Hnone; [reflexivity|].
  simpl. rewrite IH by (intros s0 H0; apply Hnone; right; exact H0).
  destruct (Subscription.user_id s =? uid)%nat eqn:E1; [|reflexivity].
  destruct (Subscription.status s) eqn:E2; try reflexivity.
  apply Nat.eqb_eq in E1.
  pose proof (Hnone s (or_introl eq_refl) E1 E2) as Hle.
  replace (now <? Subscription.current_period_end s) with false
    by (symmetry; apply Z.ltb_ge; exact Hle).
  reflexivity.
Qed.

Lemma unexpired_subscription_found d uid now sub :
  (forall s, In s (subscriptions d) -> Subscription.user_id s = uid ->
             Subscription.status s = active ->
             Subscription.current_period_end s <= now) ->
  Subscription.user_id sub = uid -> Subscription.status sub = active ->
  now < Subscription.current_period_end sub ->
  forall d1, subscriptions d1 = subscriptions d ++ [sub] ->
  unexpired_subscription d1 uid now = Some sub.
Proof.
  intros Hnone Hu Ha He d1 Hs. unfold unexpired_subscription.
  rewrite Hs, filter_app, no_unexpired_subscription by exact Hnone.
  simpl. rewrite Hu, Nat.eqb_refl, Ha. simpl.
  replace (now <? Subscription.current_period_end sub) with true
    by (symmetry; apply Z.ltb_lt; exact He).
  reflexivity.
Qed.

(** The subscription that a request leaves behind when it got past the
    insert of the subscription: answered 200 or stopped at the purchase. *)
Lemma redeemed_subscription up test cfg clock fails code uid d :
  let r := redeem_coupon up test cfg clock fails code uid d in
  status (fst r) = 200%nat
  \/ subscriptions (snd r) <> subscriptions d ->
  exists sub,
    subscriptions (snd r) = subscriptions d ++ [sub]
    /\ Subscription.user_id sub = uid
    /\ Subscription.status sub = active
    /\ Subscription.current_period_end sub
       = clock 2%nat + PRO_VALIDITY_DAYS cfg * 24 * 60 * 60 * 1000
    /\ has_user (snd r) uid = true.
Proof.
  intros r Hst.
  set (d0 := if has_user d uid then d else insert_user d uid).
  assert (Hs0 : subscriptions d0 = subscriptions d).
  { subst d0. destruct (has_user d uid); simpl; auto. }
  destruct (redeem_coupon_cases up test cfg clock fails code uid d)
    as [(Hne & Hd) | (c & t & sub & d1 & _ & _ & _ & Hu0 & _ & Hins & Hr)].
  { fold r d0 in Hne, Hd. exfalso. destruct Hst as [Hst | Hst]; [auto |].
    apply Hst. destruct Hd as [-> | ->]; auto. }
  fold r d0 in Hr, Hins, Hu0.
  pose proof (insert_subscription_outcome d0 true uid
                (Some (stamped "COUPON_SUB_" (clock 3%nat)))
                (Some "COUPON_CUSTOMER"%string) (Some "COUPON_PRICE"%string)
                (clock 1%nat)
                (clock 2%nat + PRO_VALIDITY_DAYS cfg * 24 * 60 * 60 * 1000)
                (PRO_CREDITS_PER_MONTH cfg)) as Ho.
  rewrite Hins in Ho.
  destruct Ho as (_ & Hus & Hss & _ & _ & _ & _ & Huid & Hact & _ & Hend & _).
  assert (Hu1 : has_user d1 uid = true)
    by (rewrite (has_user_same_users d0 d1 uid Hus); exact Hu0).
  exists sub.
  destruct Hr as [(c4 & F4 & E) | E]; rewrite E; cbn [fst snd].
  { rewrite Hss, Hs0. auto. }
  match goal with
  | |- context [if is_some (fails 6%nat) then ?a else ?b] =>
      assert (T : subscriptions (if is_some (fails 6%nat) then a else b)
                  = subscriptions d1
                  /\ has_user (if is_some (fails 6%nat) then a else b) uid = true)
  end.
  { assert (T5 : forall d2,
               subscriptions (if is_some (fails 5%nat) then d2
                              else update_user uid (set_tier pro) d2)
               = subscriptions d2
               /\ has_user (if is_some (fails 5%nat) then d2
                            else update_user uid (set_tier pro) d2) uid
                  = has_user d2 uid).
    { intros d2. destruct (is_some (fails 5%nat)); [auto |].
      split; [reflexivity |].
      apply has_user_update_user. intros; apply set_tier_id. }
    destruct (is_some (fails 6%nat)).
    - destruct (T5 (insert_purchase d1 uid (Subscription.id sub)
                      (PRO_CREDITS_PER_MONTH cfg)
                      (Some (stamped "COUPON_SESSION_" (clock 5%nat)))
                      kind_subscription
                      (clock 2%nat + PRO_VALIDITY_DAYS cfg * 24 * 60 * 60 * 1000)
                      (clock 6%nat))) as [A B].
      cbv zeta. rewrite A, B, subscriptions_insert_purchase.
      rewrite (has_user_same_users d1 _ uid) by apply insert_purchase_tables.
      auto.
    - cbv zeta. rewrite subscriptions_insert_history.
      rewrite (has_user_same_users _ _ _ (users_insert_history _ _ _ _ _)).
      destruct (T5 (insert_purchase d1 uid (Subscription.id sub)
                      (PRO_CREDITS_PER_MONTH cfg)
                      (Some (stamped "COUPON_SESSION_" (clock 5%nat)))
                      kind_subscription
                      (clock 2%nat + PRO_VALIDITY_DAYS cfg * 24 * 60 * 60 * 1000)
                      (clock 6%nat))) as [A B].
      rewrite A, B, subscriptions_insert_purchase.
      rewrite (has_user_same_users d1 _ uid) by apply insert_purchase_tables.
      auto. }
  destruct T as [-> ->]. rewrite Hss, Hs0. auto.
Qed.

(** X28.  A coupon is not redeemed twice in one period: after a redemption
    answered 200 for a user who had no running subscription, every further
    attempt of that user whose first clock reading is before the end of the
    period granted, and whose check for a running subscription comes back
    from the store, is refused, whatever code it carries, and adds no
    subscription and no purchase. *)
Theorem coupon_not_redeemed_twice :
  forall toUpperCase TEST_COUPON cfg clock fails coupon_code userId d
         toUpperCase' TEST_COUPON' cfg' clock' fails' coupon_code',
    let r := redeem_coupon toUpperCase TEST_COUPON cfg clock fails coupon_code
               userId d in
    let r' := redeem_coupon toUpperCase' TEST_COUPON' cfg' clock' fails'
                coupon_code' userId (snd r) in
    status (fst r) = 200%nat ->
    fails' 2%nat = None ->
    (forall s, In s (subscriptions d) -> Subscription.user_id s = userId ->
               Subscription.status s = active ->
               Subscription.current_period_end s <= clock' 0%nat) ->
    clock' 0%nat < clock 2%nat + PRO_VALIDITY_DAYS cfg * 24 * 60 * 60 * 1000 ->
    status (fst r') <> 200%nat
    /\ subscriptions (snd r') = subscriptions (snd r)
    /\ purchases (snd r') = purchases (snd r).
Proof.
  intros up test cfg clock fails code uid d up' test' cfg' clock' fails' code'
         r r' Hst Hcheck Hnone Hbefore.
  destruct (redeemed_subscription up test cfg clock fails code uid d
              (or_introl Hst)) as (sub & Hs & Hu & Ha & He & Hhas).
  fold r in Hs, Hhas.
  destruct (redeem_coupon_cases up' test' cfg' clock' fails' code' uid (snd r))
    as [(Hne & Hd) | (c & t & sub' & d1 & _ & _ & _ & _ & Hun & _)].
  - fold r' in Hne, Hd. rewrite Hhas in Hd.
    split; [exact Hne |]. destruct Hd as [-> | ->]; auto.
  - exfalso. specialize (Hun Hcheck). rewrite Hhas in Hun.
    rewrite (unexpired_subscription_found d uid (clock' 0%nat) sub Hnone Hu Ha)
      in Hun; [discriminate | | exact Hs].
    rewrite He. exact Hbefore.
Qed.

Lemma coupon_not_redeemed_twice_witness :
  status (fst (redeem_coupon upper_ascii (Some "FREEPRO"%string)
                 sample_settings (fun _ => 20) (fun _ => None)
                 (Some "freepro"%string) 7
                 (snd (redeem_coupon upper_ascii (Some "FREEPRO"%string)
                         sample_settings (fun _ => 10) (fun _ => None)
                         (Some "freepro"%string) 7 new_user_db))))
  <> 200%nat.
Proof.
  apply (coupon_not_redeemed_twice upper_ascii (Some "FREEPRO"%string)
           sample_settings (fun _ => 10) (fun _ => None) (Some "freepro"%string)
           7%nat new_user_db
           upper_ascii (Some "FREEPRO"%string) sample_settings (fun _ => 20)
           (fun _ => None) (Some "freepro"%string)).
  - vm_compute. reflexivity.
  - reflexivity.
  - intros s [].
  - vm_compute. reflexivity.
Defined.

(** X29.  The check for a running subscription reads only the rows of
    its answer: when the store fails at that call, the request goes on as
    if the user had no subscription.  A user who has redeemed the coupon
    and asks again while the check fails is granted the credits a second
    time. *)
Example coupon_redeemed_twice_when_check_fails :
  let first :=
    redeem_coupon upper_ascii (Some "FREEPRO"%string) sample_settings
      (fun _ => 10) (fun _ => None) (Some "freepro"%string) 7 new_user_db in
  let second :=
    redeem_coupon upper_ascii (Some "FREEPRO"%string) sample_settings
      (fun _ => 20)
      (fun i => if (i =? 2)%nat then Some "57014"%string else None)
      (Some "freepro"%string) 7 (snd first) in
  status (fst first) = 200%nat
  /\ status (fst second) = 200%nat
  /\ map Purchase.user_id (purchases (snd second)) = [7; 7]%nat
  /\ map remaining_credits (purchases (snd second)) = [200; 200]
  /\ List.length (subscriptions (snd second)) = 2%nat.
Proof. vm_compute. repeat split. Qed.


